(** * ReportsService: background report jobs, metrics and retention

    A shallow embedding of [src/reports/reports.service.ts] and of the
    endpoints of [src/reports/reports.controller.ts] that submit a job,
    read its status and its result, and run the legacy reports.

    Conventions of the embedding.
    - A JavaScript [number] is an exact rational ([Qc]); rounding of
      IEEE doubles is not modelled.
    - [performance.now()], [randomUUID()], [process.memoryUsage()] and the
      three report routines ([accountsLogic], [yearlyLogic], [fsLogic]) are
      answers of the environment.  They are read from a [World], indexed by
      the number of environment calls made so far ([tick]).
    - [jobs] is the [Map<string, JobData>] of the service.  The worker's
      variable [job] is a reference to the record stored under [job.jobId];
      writes through it are writes to that entry of the map. *)

From Stdlib Require Import ZArith QArith Qabs Qcanon Qround DecimalString.
From stdpp Require Import base option list gmap strings fin_maps relations.

Local Open Scope Qc_scope.
Local Open Scope string_scope.

(** ** Numbers *)

Abbreviation num := Qc.

Definition ofZ (z : Z) : num := Q2Qc (inject_Z z).
Definition ofNat (n : nat) : num := ofZ (Z.of_nat n).

(** [x] is falsy as a JavaScript number exactly when it is zero. *)
Definition truthy (x : num) : bool := negb (Qeq_bool x 0%Q).

Definition ltb (x y : num) : bool :=
  match (x ?= y)%Qc with Lt => true | _ => false end.

(** [Number.prototype.toFixed(d)]: the integer [n] nearest to [|x| * 10^d]
    (the larger one on a tie), printed with [d] fractional digits. *)
Definition decimal (z : Z) : string :=
  NilZero.string_of_uint (N.to_uint (Z.to_N z)).

Fixpoint zeros (n : nat) : string :=
  match n with O => "" | S n' => "0" ++ zeros n' end.

Definition padLeft (d : nat) (s : string) : string :=
  zeros (d - String.length s) ++ s.

Definition toFixed (d : nat) (x : num) : string :=
  let neg := ltb x 0 in
  let a := Qabs (this x) in
  let scale := (10 ^ Z.of_nat d)%Z in
  let n := Qfloor (a * inject_Z scale + (1 # 2))%Q in
  let body :=
    match d with
    | O => decimal n
    | _ => decimal (n / scale) ++ "." ++ padLeft d (decimal (n mod scale))
    end in
  (if neg then "-" else "") ++ body.

(** ** Data model *)

Inductive ConcreteType := accounts | yearly | fs.

Inductive ReportType := single (k : ConcreteType) | all.

Inductive JobStatus := pending | processing | completed | failed.

Global Instance ConcreteType_eq_dec : EqDecision ConcreteType.
Proof. solve_decision. Defined.
Global Instance ReportType_eq_dec : EqDecision ReportType.
Proof. solve_decision. Defined.
Global Instance JobStatus_eq_dec : EqDecision JobStatus.
Proof. solve_decision. Defined.

Definition concreteName (k : ConcreteType) : string :=
  match k with accounts => "accounts" | yearly => "yearly" | fs => "fs" end.

Definition typeName (t : ReportType) : string :=
  match t with single k => concreteName k | all => "all" end.

Definition statusName (s : JobStatus) : string :=
  match s with
  | pending => "pending"
  | processing => "processing"
  | completed => "completed"
  | failed => "failed"
  end.

(** [NodeJS.MemoryUsage] *)
Record MemoryUsage := {
  rss : num; heapUsed : num; heapTotal : num;
  external : num; arrayBuffers : num
}.

Definition zeroMemory : MemoryUsage :=
  {| rss := 0; heapUsed := 0; heapTotal := 0; external := 0; arrayBuffers := 0 |}.

Record MemoryBlock := {
  before : MemoryUsage; after : MemoryUsage; peak : num
}.

(** [JobMetrics]; the fields [responseTime] and [filesSizes] are declared
    but never written by the service. *)
Record JobMetrics := {
  processingTime : option num;
  memoryUsage : option MemoryBlock;
  concurrentJobs : option nat
}.

Record Timestamps := {
  created : num;
  started : option num;
  completedAt : option num
}.

Record JobData := {
  jobId : string;
  type : ReportType;
  status : JobStatus;
  timestamps : Timestamps;
  metrics : JobMetrics;
  resultPaths : list string;
  errorMessage : option string
}.

(** The nested object [systemMetrics.legacyComparisonData].  It is allocated
    once, when the service is built, and only ever updated in place, so the
    [SystemMetrics] record holds a reference to it and the
    object itself lives in the store of the service. *)
Record LegacyComparisonData := {
  avgSyncResponseTime : num;
  avgAsyncResponseTime : num;
  performanceImprovement : string
}.

Definition ref := nat.

Record SystemMetrics := {
  totalJobsProcessed : nat;
  averageResponseTime : num;
  averageProcessingTime : num;
  concurrentProcessingCapability : nat;
  memoryEfficiency : num;
  successRate : num;
  legacyComparisonData : ref
}.

Record ReportsService := {
  jobs : gmap string JobData;
  jobQueue : list string;
  isProcessing : bool;
  systemMetrics : SystemMetrics;
  store : gmap ref LegacyComparisonData
}.

(** ** The environment *)

Record World := {
  now : nat -> num;
  randomUUID : nat -> string;
  procMemory : nat -> MemoryUsage;
  (** [None]: the routine returns; [Some msg]: it throws [Error(msg)]. *)
  reportLogic : nat -> ConcreteType -> string -> option string;
  (** [fs.readFileSync(path, 'utf-8')]: content, or the thrown message. *)
  readFileSync : string -> string + string
}.


(** The state of the running program: the service object, the number of
    environment calls made so far, the number of [setImmediate] callbacks
    for [processQueue] not yet run, and the calls made to the report
    routines (routine and output file), oldest first. *)
Record Machine := {
  svc : ReportsService;
  tick : nat;
  immediates : nat;
  generated : list (ConcreteType * string)
}.

(** ** Field updates *)

Definition setStatus (x : JobStatus) (j : JobData) : JobData :=
  {| jobId := jobId j; type := type j; status := x;
     timestamps := timestamps j; metrics := metrics j;
     resultPaths := resultPaths j; errorMessage := errorMessage j |}.

Definition setErrorMessage (msg : string) (j : JobData) : JobData :=
  {| jobId := jobId j; type := type j; status := status j;
     timestamps := timestamps j; metrics := metrics j;
     resultPaths := resultPaths j; errorMessage := Some msg |}.

Definition setTimestamps (t : Timestamps) (j : JobData) : JobData :=
  {| jobId := jobId j; type := type j; status := status j;
     timestamps := t; metrics := metrics j;
     resultPaths := resultPaths j; errorMessage := errorMessage j |}.

Definition setMetrics (x : JobMetrics) (j : JobData) : JobData :=
  {| jobId := jobId j; type := type j; status := status j;
     timestamps := timestamps j; metrics := x;
     resultPaths := resultPaths j; errorMessage := errorMessage j |}.

Definition pushResultPath (f : string) (j : JobData) : JobData :=
  {| jobId := jobId j; type := type j; status := status j;
     timestamps := timestamps j; metrics := metrics j;
     resultPaths := resultPaths j ++ [f]; errorMessage := errorMessage j |}.

Definition setStarted (t : num) (j : JobData) : JobData :=
  setTimestamps {| created := created (timestamps j); started := Some t;
                   completedAt := completedAt (timestamps j) |} j.

Definition setCompleted (t : num) (j : JobData) : JobData :=
  setTimestamps {| created := created (timestamps j);
                   started := started (timestamps j);
                   completedAt := Some t |} j.

Definition setJobs (x : gmap string JobData) (s : ReportsService) :=
  {| jobs := x; jobQueue := jobQueue s; isProcessing := isProcessing s;
     systemMetrics := systemMetrics s; store := store s |}.

Definition setJobQueue (x : list string) (s : ReportsService) :=
  {| jobs := jobs s; jobQueue := x; isProcessing := isProcessing s;
     systemMetrics := systemMetrics s; store := store s |}.

Definition setIsProcessing (x : bool) (s : ReportsService) :=
  {| jobs := jobs s; jobQueue := jobQueue s; isProcessing := x;
     systemMetrics := systemMetrics s; store := store s |}.

Definition setSystemMetrics (x : SystemMetrics) (s : ReportsService) :=
  {| jobs := jobs s; jobQueue := jobQueue s; isProcessing := isProcessing s;
     systemMetrics := x; store := store s |}.

Definition setStore (x : gmap ref LegacyComparisonData) (s : ReportsService) :=
  {| jobs := jobs s; jobQueue := jobQueue s; isProcessing := isProcessing s;
     systemMetrics := systemMetrics s; store := x |}.

Definition onSvc (f : ReportsService -> ReportsService) (m : Machine) :=
  {| svc := f (svc m); tick := tick m; immediates := immediates m;
     generated := generated m |}.

Definition bump (m : Machine) : Machine :=
  {| svc := svc m; tick := S (tick m); immediates := immediates m;
     generated := generated m |}.

Definition setImmediate (m : Machine) : Machine :=
  {| svc := svc m; tick := tick m; immediates := S (immediates m);
     generated := generated m |}.

Definition logCall (k : ConcreteType) (f : string) (m : Machine) : Machine :=
  {| svc := svc m; tick := tick m; immediates := immediates m;
     generated := generated m ++ [(k, f)] |}.

(** A write through the worker's reference [job]. *)
Definition onJob (id : string) (f : JobData -> JobData) (m : Machine) :=
  onSvc (fun s => setJobs (alter f id (jobs s)) s) m.

(** ** The service as first built *)

Definition legacyLoc : ref := O.

Definition initialService : ReportsService :=
  {| jobs := ∅;
     jobQueue := [];
     isProcessing := false;
     systemMetrics :=
       {| totalJobsProcessed := 0;
          averageResponseTime := 0;
          averageProcessingTime := 0;
          concurrentProcessingCapability := 0;
          memoryEfficiency := 0;
          successRate := 0;
          legacyComparisonData := legacyLoc |};
     store :=
       {[ legacyLoc := {| avgSyncResponseTime := ofZ 10000;
                          avgAsyncResponseTime := 0;
                          performanceImprovement := "0%" |} ]} |}.

Definition initialMachine : Machine :=
  {| svc := initialService; tick := 0; immediates := 0; generated := [] |}.

Section Service.

Variable w : World.

(** ** Environment calls *)

Definition performanceNow (m : Machine) : num * Machine :=
  (now w (tick m), bump m).

Definition drawUUID (m : Machine) : string * Machine :=
  (randomUUID w (tick m), bump m).

Definition processMemoryUsage (m : Machine) : MemoryUsage * Machine :=
  (procMemory w (tick m), bump m).

(** ** updateResponseTimeMetrics *)

Definition updateResponseTimeMetrics (responseTime : num)
    (s : ReportsService) : ReportsService :=
  let sm := systemMetrics s in
  let currentAvg := averageResponseTime sm in
  let totalJobs :=
    match totalJobsProcessed sm with O => 1%nat | n => n end in
  let avg :=
    (currentAvg * (ofNat totalJobs - 1) + responseTime) / ofNat totalJobs in
  let sm' :=
    {| totalJobsProcessed := totalJobsProcessed sm;
       averageResponseTime := avg;
       averageProcessingTime := averageProcessingTime sm;
       concurrentProcessingCapability := concurrentProcessingCapability sm;
       memoryEfficiency := memoryEfficiency sm;
       successRate := successRate sm;
       legacyComparisonData := legacyComparisonData sm |} in
  let upd (l : LegacyComparisonData) :=
    let improvement :=
      (avgSyncResponseTime l - avg) / avgSyncResponseTime l * ofZ 100 in
    {| avgSyncResponseTime := avgSyncResponseTime l;
       avgAsyncResponseTime := avg;
       performanceImprovement := toFixed 1 improvement ++ "%" |} in
  setStore (alter upd (legacyComparisonData sm) (store s))
           (setSystemMetrics sm' s).

(** ** createJob *)

Definition newJob (id : string) (t : ReportType) (createdAt : num)
    (queued : nat) : JobData :=
  {| jobId := id;
     type := t;
     status := pending;
     timestamps :=
       {| created := createdAt; started := None; completedAt := None |};
     metrics :=
       {| processingTime := None; memoryUsage := None;
          concurrentJobs := Some (queued + 1)%nat |};
     resultPaths := [];
     errorMessage := None |}.

Definition raiseCapability (n : nat) (s : ReportsService) : ReportsService :=
  let sm := systemMetrics s in
  setSystemMetrics
    {| totalJobsProcessed := totalJobsProcessed sm;
       averageResponseTime := averageResponseTime sm;
       averageProcessingTime := averageProcessingTime sm;
       concurrentProcessingCapability :=
         Nat.max (concurrentProcessingCapability sm) n;
       memoryEfficiency := memoryEfficiency sm;
       successRate := successRate sm;
       legacyComparisonData := legacyComparisonData sm |} s.

Definition createJob (t : ReportType) (m : Machine)
    : (string * num) * Machine :=
  let '(responseStart, m) := performanceNow m in
  let '(id, m) := drawUUID m in
  let '(createdAt, m) := performanceNow m in
  let job := newJob id t createdAt (length (jobQueue (svc m))) in
  let m := onSvc (fun s => setJobs (<[id := job]> (jobs s)) s) m in
  let m := onSvc (fun s => setJobQueue (jobQueue s ++ [id]) s) m in
  let m := onSvc (fun s => raiseCapability (size (jobs s)) s) m in
  let m := if isProcessing (svc m) then m else setImmediate m in
  let '(t1, m) := performanceNow m in
  let responseTime := t1 - responseStart in
  let m := onSvc (updateResponseTimeMetrics responseTime) m in
  ((id, responseTime), m).

(** ** Lookups *)

Definition getJobStatus (id : string) (s : ReportsService) : option JobData :=
  jobs s !! id.

(** [path.basename] on the paths the service builds (no trailing slash):
    what follows the last ['/']. *)
Fixpoint basenameFrom (acc s : string) : string :=
  match s with
  | EmptyString => acc
  | String c s' =>
      if Ascii.eqb c (Ascii.ascii_of_nat 47) then basenameFrom "" s'
      else basenameFrom (acc ++ String c "") s'
  end.

Definition basename (s : string) : string := basenameFrom "" s.

(** [results[fileName] = content] on a plain object. *)
Fixpoint setProp (k v : string) (o : list (string * string)) :=
  match o with
  | [] => [(k, v)]
  | (k', v') :: o' =>
      if decide (k = k') then (k, v) :: o' else (k', v') :: setProp k v o'
  end.

Fixpoint readResults (paths : list string) (acc : list (string * string))
    : list (string * string) + string :=
  match paths with
  | [] => inl acc
  | p :: ps =>
      match readFileSync w p with
      | inl content => readResults ps (setProp (basename p) content acc)
      | inr msg => inr msg
      end
  end.

Record ResultData := {
  dataJobId : string;
  dataType : ReportType;
  dataMetrics : JobMetrics;
  dataResults : list (string * string);
  dataTimestamps : Timestamps
}.

Record JobResult := {
  success : bool;
  data : option ResultData;
  error : option string
}.

Definition getJobResult (id : string) (s : ReportsService) : JobResult :=
  match jobs s !! id with
  | None =>
      {| success := false; data := None; error := Some "Job not found" |}
  | Some job =>
      if decide (status job = completed) then
        match readResults (resultPaths job) [] with
        | inl results =>
            {| success := true;
               data := Some {| dataJobId := jobId job;
                               dataType := type job;
                               dataMetrics := metrics job;
                               dataResults := results;
                               dataTimestamps := timestamps job |};
               error := None |}
        | inr msg =>
            {| success := false; data := None;
               error := Some ("Failed to read results: " ++ msg) |}
        end
      else
        {| success := false; data := None;
           error := Some ("Job status: " ++ statusName (status job)) |}
  end.

(** [{ ...this.systemMetrics }]: the own fields are copied; the field
    [legacyComparisonData] of the copy is the same reference. *)
Definition getSystemMetrics (s : ReportsService) : SystemMetrics :=
  systemMetrics s.

(** The records of the map, as [Array.from(this.jobs.values())]. *)
Definition jobValues (s : ReportsService) : list JobData :=
  (map_to_list (jobs s)).*2.

Definition hasStatus (x : JobStatus) (j : JobData) : bool :=
  bool_decide (status j = x).

Definition getAllJobs (s : ReportsService) : JobStatus -> list JobData :=
  fun x => List.filter (hasStatus x) (jobValues s).

(** ** processJob *)

Definition outputFile (k : ConcreteType) (id : string) : string :=
  "out/" ++ concreteName k ++ "_" ++ String.substring 0 8 id ++ ".csv".

(** [generateAccountsReport], [generateYearlyReport], [generateFsReport]:
    the output file is recorded on the job, then the routine runs. *)
Definition generateReport (k : ConcreteType) (id : string) (m : Machine)
    : option string * Machine :=
  let f := outputFile k id in
  let m := onJob id (pushResultPath f) m in
  let outcome := reportLogic w (tick m) k f in
  (outcome, bump (logCall k f m)).

(** [processSingleReport]: the promise is rejected with what the routine
    throws, and resolved otherwise. *)
Definition processSingleReport (k : ConcreteType) (id : string) (m : Machine)
    : option string * Machine :=
  generateReport k id m.

(** Sequencing of awaited calls: a rejection skips what follows. *)
Definition andThen (c1 c2 : Machine -> option string * Machine)
    (m : Machine) : option string * Machine :=
  match c1 m with
  | (Some msg, m') => (Some msg, m')
  | (None, m') => c2 m'
  end.

Definition processAllReports (id : string) : Machine -> option string * Machine :=
  andThen (processSingleReport accounts id)
    (andThen (processSingleReport yearly id)
       (processSingleReport fs id)).

(** The prologue of [processJob], up to the [try]. *)
Definition beginJob (id : string) (m : Machine) : Machine :=
  let m := onJob id (setStatus processing) m in
  let '(t, m) := performanceNow m in
  let m := onJob id (setStarted t) m in
  let '(mem, m) := processMemoryUsage m in
  onJob id (fun j =>
    setMetrics {| processingTime := processingTime (metrics j);
                  memoryUsage := Some {| before := mem; after := zeroMemory;
                                         peak := 0 |};
                  concurrentJobs := concurrentJobs (metrics j) |} j) m.

(** The [finally] block of [processJob]. *)
Definition finallyBlock (id : string) (m : Machine) : Machine :=
  let '(t, m) := performanceNow m in
  let m := onJob id (setCompleted t) m in
  let m := onJob id (fun j =>
    setMetrics {| processingTime :=
                    match completedAt (timestamps j), started (timestamps j) with
                    | Some c, Some s0 => Some (c - s0)
                    | _, _ => None
                    end;
                  memoryUsage := memoryUsage (metrics j);
                  concurrentJobs := concurrentJobs (metrics j) |} j) m in
  let '(mem, m) := processMemoryUsage m in
  onJob id (fun j =>
    setMetrics {| processingTime := processingTime (metrics j);
                  memoryUsage :=
                    (fun b => {| before := before b; after := mem;
                                 peak := peak b |}) <$> memoryUsage (metrics j);
                  concurrentJobs := concurrentJobs (metrics j) |} j) m.

Definition typeOf (id : string) (m : Machine) : option ReportType :=
  type <$> jobs (svc m) !! id.

(** The [try] body of [processJob], before [job.status = 'completed']. *)
Definition runReports (id : string) (m : Machine) : option string * Machine :=
  match typeOf id m with
  | Some all => processAllReports id m
  | Some (single k) => processSingleReport k id m
  | None => (None, m)
  end.

Definition settle (id : string) (r : option string * Machine)
    : option string * Machine :=
  match r with
  | (None, m) =>
      (None, finallyBlock id (onJob id (setStatus completed) m))
  | (Some msg, m) =>
      (Some msg,
       finallyBlock id
         (onJob id (setErrorMessage msg) (onJob id (setStatus failed) m)))
  end.

(** [processJob]: [Some msg] when the promise is rejected with [Error(msg)]. *)
Definition processJob (id : string) (m : Machine) : option string * Machine :=
  settle id (runReports id (beginJob id m)).

(** ** updateSystemMetrics *)

Definition isTerminal (j : JobData) : bool :=
  hasStatus completed j || hasStatus failed j.

Definition updateSystemMetrics (id : string) (s : ReportsService)
    : ReportsService :=
  let sm := systemMetrics s in
  let total := S (totalJobsProcessed sm) in
  let avgProc :=
    match jobs s !! id ≫= (fun j => processingTime (metrics j)) with
    | Some p =>
        if truthy p then
          (averageProcessingTime sm * (ofNat total - 1) + p) / ofNat total
        else averageProcessingTime sm
    | None => averageProcessingTime sm
    end in
  let completedJobs := List.filter isTerminal (jobValues s) in
  let successfulJobs := List.filter (hasStatus completed) completedJobs in
  let rate :=
    if (0 <? length completedJobs)%nat then
      ofNat (length successfulJobs) / ofNat (length completedJobs) * ofZ 100
    else 0 in
  let currentJobCount := length (jobValues s) in
  setSystemMetrics
    {| totalJobsProcessed := total;
       averageResponseTime := averageResponseTime sm;
       averageProcessingTime := avgProc;
       concurrentProcessingCapability :=
         Nat.max (concurrentProcessingCapability sm) currentJobCount;
       memoryEfficiency := memoryEfficiency sm;
       successRate := rate;
       legacyComparisonData := legacyComparisonData sm |} s.

(** ** cleanupOldJobs *)

Definition oneHour : num := ofZ (60 * 60 * 1000).

(** The test of the sweep: [completed && completed < oneHourAgo]. *)
Definition expired (oneHourAgo : num) (j : JobData) : bool :=
  match completedAt (timestamps j) with
  | Some c => truthy c && ltb c oneHourAgo
  | None => false
  end.

Definition cleanupOldJobs (m : Machine) : Machine :=
  let '(t, m) := performanceNow m in
  let oneHourAgo := t - oneHour in
  onSvc (fun s =>
    setJobs (filter (fun p => expired oneHourAgo p.2 = false) (jobs s)) s) m.

(** ** processQueue *)

(** The [catch] of the loop body. *)
Definition catchInLoop (msg : string) (id : string) (m : Machine) : Machine :=
  let m := onJob id (setStatus failed) m in
  let m := onJob id (setErrorMessage msg) m in
  let '(t, m) := performanceNow m in
  onJob id (setCompleted t) m.

(** [try { await this.processJob(job) } catch (error) { ... }] *)
Definition tryProcessJob (id : string) (m : Machine) : Machine :=
  match processJob id m with
  | (None, m) => m
  | (Some msg, m) => catchInLoop msg id m
  end.

(** One turn of the [while] loop, after [shift]. *)
Definition processNext (id : string) (m : Machine) : Machine :=
  match jobs (svc m) !! id with
  | None => m
  | Some _ =>
      let m := tryProcessJob id m in
      let m := onSvc (updateSystemMetrics id) m in
      cleanupOldJobs m
  end.

Fixpoint drain (fuel : nat) (m : Machine) : Machine :=
  match fuel with
  | O => m
  | S fuel' =>
      match jobQueue (svc m) with
      | [] => m
      | id :: rest =>
          drain fuel' (processNext id (onSvc (setJobQueue rest) m))
      end
  end.

(** [processQueue], run to its end with no submission in between: the loop
    takes one turn per queued identifier. *)
Definition processQueue (m : Machine) : Machine :=
  if isProcessing (svc m) || bool_decide (jobQueue (svc m) = []) then m
  else
    onSvc (setIsProcessing false)
      (drain (length (jobQueue (svc m))) (onSvc (setIsProcessing true) m)).

(** ** The submission endpoint of the controller *)

Inductive HttpException := BadRequestException (message : string).

Record CreateReportJobResponseDto := {
  dtoJobId : string;
  dtoType : string;
  dtoStatus : string;
  dtoMessage : string;
  dtoResponseTime : string;
  dtoStatusUrl : string;
  dtoResultUrl : string
}.

(** [Object.values(REPORT_TYPES)] *)
Definition validTypes : list string := ["accounts"; "yearly"; "fs"; "all"].

(** The cast of a validated string to the type of [createJob]. *)
Definition asReportType (s : string) : ReportType :=
  if String.eqb s "accounts" then single accounts
  else if String.eqb s "yearly" then single yearly
  else if String.eqb s "fs" then single fs
  else all.

(** [type || REPORT_TYPES.ALL]: a missing and an empty string are falsy. *)
Definition orAll (type : option string) : string :=
  match type with
  | None => "all"
  | Some s => if String.eqb s "" then "all" else s
  end.

Definition createReportJob (type : option string) (m : Machine)
    : (HttpException + CreateReportJobResponseDto) * Machine :=
  let reportType := orAll type in
  if negb (existsb (String.eqb reportType) validTypes) then
    (inl (BadRequestException
            ("Invalid report type" ++ ". Valid types: "
               ++ String.concat ", " validTypes)), m)
  else
    let '((id, responseTime), m) := createJob (asReportType reportType) m in
    (inr {| dtoJobId := id;
            dtoType := reportType;
            dtoStatus := "pending";
            dtoMessage := "Report job created successfully";
            dtoResponseTime := toFixed 2 responseTime ++ "ms";
            dtoStatusUrl := "/api/v1/reports/status/" ++ id;
            dtoResultUrl := "/api/v1/reports/result/" ++ id |}, m).

(** ** The worker, one action at a time

    Between two actions of the worker the event loop may run a submission.
    [Worker] is the point the worker has reached in [processQueue]. *)

Inductive Worker :=
| Idle
| AtLoop
| Awaiting (id : string) (todo : list ConcreteType)
| Rejected (id : string) (msg : string)
| Rethrown (id : string) (msg : string)
| Finished (id : string)
| Sweeping.

Definition reportsOf (t : ReportType) : list ConcreteType :=
  match t with
  | all => [accounts; yearly; fs]
  | single k => [k]
  end.

Definition takeImmediate (m : Machine) : Machine :=
  {| svc := svc m; tick := tick m; immediates := pred (immediates m);
     generated := generated m |}.

Inductive step : Worker * Machine -> Worker * Machine -> Prop :=
| step_submit t p m :
    step (p, m) (p, (createJob t m).2)
| step_start m :
    (0 < immediates m)%nat ->
    isProcessing (svc m) = false -> jobQueue (svc m) <> [] ->
    step (Idle, m) (AtLoop, onSvc (setIsProcessing true) (takeImmediate m))
| step_return p m :
    (0 < immediates m)%nat ->
    isProcessing (svc m) = true \/ jobQueue (svc m) = [] ->
    step (p, m) (p, takeImmediate m)
| step_exit m :
    jobQueue (svc m) = [] ->
    step (AtLoop, m) (Idle, onSvc (setIsProcessing false) m)
| step_skip m id rest :
    jobQueue (svc m) = id :: rest -> jobs (svc m) !! id = None ->
    step (AtLoop, m) (AtLoop, onSvc (setJobQueue rest) m)
| step_begin m id rest job :
    jobQueue (svc m) = id :: rest -> jobs (svc m) !! id = Some job ->
    step (AtLoop, m)
         (Awaiting id (reportsOf (type job)),
          beginJob id (onSvc (setJobQueue rest) m))
| step_report_ok m id k todo m' :
    processSingleReport k id m = (None, m') ->
    step (Awaiting id (k :: todo), m) (Awaiting id todo, m')
| step_report_throw m id k todo msg m' :
    processSingleReport k id m = (Some msg, m') ->
    step (Awaiting id (k :: todo), m) (Rejected id msg, m')
| step_complete m id :
    step (Awaiting id [], m) (Finished id, (settle id (None, m)).2)
| step_fail m id msg :
    step (Rejected id msg, m) (Rethrown id msg, (settle id (Some msg, m)).2)
| step_catch m id msg :
    step (Rethrown id msg, m) (Finished id, catchInLoop msg id m)
| step_metrics m id :
    step (Finished id, m) (Sweeping, onSvc (updateSystemMetrics id) m)
| step_sweep m :
    step (Sweeping, m) (AtLoop, cleanupOldJobs m).

Definition reachable (c : Worker * Machine) : Prop :=
  rtc step (Idle, initialMachine) c.

(** ** A batch of submissions, then the loop *)

(** The event loop runs one of the scheduled [processQueue] callbacks. *)
Definition runImmediate (m : Machine) : Machine :=
  processQueue (takeImmediate m).

Definition submitAll (ts : list ReportType) (m : Machine) : Machine :=
  fold_left (fun m t => (createJob t m).2) ts m.

(** A fresh service receives the submissions [ts]; then the first
    scheduled callback runs the loop to its end. *)
Definition drained (ts : list ReportType) : Machine :=
  runImmediate (submitAll ts initialMachine).

(** The reports of a job, one after the other. *)
Fixpoint runList (ks : list ConcreteType) (id : string)
    : Machine -> option string * Machine :=
  match ks with
  | [] => fun m => (None, m)
  | k :: ks' => andThen (processSingleReport k id) (runList ks' id)
  end.

End Service.

(** ** Sample environments *)

Fixpoint unaryId (k : nat) : string :=
  match k with O => "job" | S k' => "f" ++ unaryId k' end.

(** The clock advances by one millisecond per call, every routine returns. *)
Definition calmWorld : World :=
  {| now := fun k => ofNat (S k);
     randomUUID := unaryId;
     procMemory := fun _ => zeroMemory;
     reportLogic := fun _ _ _ => None;
     readFileSync := fun p => inl ("content of " ++ p) |}.

(** [fs.readdirSync] throws: every routine fails. *)
Definition brokenDirWorld : World :=
  {| now := fun k => ofNat (S k);
     randomUUID := unaryId;
     procMemory := fun _ => zeroMemory;
     reportLogic := fun _ _ _ => Some "Directory not found";
     readFileSync := fun p => inr "ENOENT" |}.

(** Two submissions, the first answered in 1 ms and the second in 3 ms. *)
Definition latencyWorld : World :=
  {| now := fun k => ofZ (nth k [10; 10; 10; 11; 20; 20; 20; 23] 30)%Z;
     randomUUID := unaryId;
     procMemory := fun _ => zeroMemory;
     reportLogic := fun _ _ _ => None;
     readFileSync := fun p => inl "" |}.

(** The clock reads 5,000,000 ms and more. *)
Definition lateWorld : World :=
  {| now := fun k => ofZ (5000000 + Z.of_nat k);
     randomUUID := unaryId;
     procMemory := fun _ => zeroMemory;
     reportLogic := fun _ _ _ => None;
     readFileSync := fun p => inl "" |}.

Definition settledJob (id : string) (finishedAt : Z) : JobData :=
  {| jobId := id;
     type := single accounts;
     status := completed;
     timestamps := {| created := ofZ (finishedAt - 20);
                      started := Some (ofZ (finishedAt - 10));
                      completedAt := Some (ofZ finishedAt) |};
     metrics := {| processingTime := Some (ofZ 10); memoryUsage := None;
                   concurrentJobs := Some 1%nat |};
     resultPaths := ["out/accounts_" ++ id ++ ".csv"];
     errorMessage := None |}.

Definition stuckJob (id : string) : JobData :=
  {| jobId := id;
     type := single fs;
     status := processing;
     timestamps := {| created := ofZ 5; started := Some (ofZ 6);
                      completedAt := None |};
     metrics := {| processingTime := None; memoryUsage := None;
                   concurrentJobs := Some 1%nat |};
     resultPaths := [];
     errorMessage := None |}.

(** A service holding a job finished at 1,000 ms, one finished at
    4,999,000 ms and one that never finished. *)
Definition agedMachine : Machine :=
  onSvc (setJobs (<["old" := settledJob "old" 1000]>
                  (<["new" := settledJob "new" 4999000]>
                   (<["stuck" := stuckJob "stuck"]> ∅))))
        initialMachine.


(** The yearly routine throws; the clock is calm. *)
Definition yearlyBrokenWorld : World :=
  {| now := fun k => ofNat (S k);
     randomUUID := unaryId;
     procMemory := fun _ => zeroMemory;
     reportLogic := fun _ k _ =>
       match k with yearly => Some "boom" | _ => None end;
     readFileSync := fun p => inl "" |}.

(** ** Quantities the specification speaks of *)

Definition countStatus (x : JobStatus) (l : list JobData) : nat :=
  length (List.filter (hasStatus x) l).

(** completed / (all terminal) * 100 *)
Definition rateOver (l : list JobData) : num :=
  ofNat (countStatus completed l)
  / ofNat (countStatus completed l + countStatus failed l) * ofZ 100.

Fixpoint sum (l : list num) : num :=
  match l with [] => 0 | x :: l' => x + sum l' end.

Definition mean (l : list num) : num := sum l / ofNat (length l).

(** [snapshot.legacyComparisonData], read by the holder of a snapshot when
    the service is in state [s]. *)
Definition readLegacy (snapshot : SystemMetrics) (s : ReportsService)
    : option LegacyComparisonData :=
  store s !! legacyComparisonData snapshot.

(** ** Outcomes and invariants used in the statements *)

(** What [processJob] leaves on a failed composite job, and what the
    [catch] of the loop then leaves: [ran] are the routines that were
    called. *)
Definition failedAfter (w : World) (id : string) (m : Machine)
    (msg : string) (ran : list ConcreteType) : Prop :=
  (processJob w id m).1 = Some msg
  /\ generated (processJob w id m).2
     = (generated m ++ List.map (fun k => (k, outputFile k id)) ran)%list
  /\ (exists job',
        jobs (svc (processJob w id m).2) !! id = Some job'
        /\ status job' = failed /\ errorMessage job' = Some msg)
  /\ (exists job',
        jobs (svc (catchInLoop w msg id (processJob w id m).2)) !! id
        = Some job'
        /\ status job' = failed /\ errorMessage job' = Some msg).

Definition completedAll (w : World) (id : string) (m : Machine) : Prop :=
  (processJob w id m).1 = None
  /\ generated (processJob w id m).2
     = (generated m ++ [(accounts, outputFile accounts id);
                        (yearly, outputFile yearly id);
                        (fs, outputFile fs id)])%list
  /\ exists job',
       jobs (svc (processJob w id m).2) !! id = Some job'
       /\ status job' = completed
       /\ resultPaths job' = [outputFile accounts id; outputFile yearly id;
                              outputFile fs id]
       /\ started (timestamps job') = Some (now w (tick m))
       /\ completedAt (timestamps job') = Some (now w (5 + tick m)%nat)
       /\ processingTime (metrics job')
          = Some (now w (5 + tick m)%nat - now w (tick m)).

Definition settledOrQueued (m : Machine) : Prop :=
  forall id j, jobs (svc m) !! id = Some j ->
    isTerminal j = true \/ id ∈ jobQueue (svc m).

Definition noneFailed (m : Machine) : Prop :=
  forall id j, jobs (svc m) !! id = Some j -> status j <> failed.


Definition submitted (n : nat) (m : Machine) : Prop :=
  isProcessing (svc m) = false
  /\ length (jobQueue (svc m)) = n
  /\ (size (jobs (svc m)) <= n)%nat
  /\ (forall id, id ∈ jobQueue (svc m) -> is_Some (jobs (svc m) !! id))
  /\ settledOrQueued m
  /\ noneFailed m.

Definition statuses (m : Machine) : gmap string JobStatus :=
  status <$> jobs (svc m).

(** [a] may be followed by [b] in the life of a job. *)
Definition legal (a b : JobStatus) : Prop :=
  a = b
  \/ (a = pending /\ b = processing)
  \/ (a = processing /\ (b = completed \/ b = failed)).

Definition issuedBefore (w : World) (t : nat) (id : string) : Prop :=
  exists k, (k < t)%nat /\ id = randomUUID w k.

(** Every identifier in the service was drawn earlier; the queue has no
    duplicates and holds pending jobs only. *)
Definition wellQueued (w : World) (m : Machine) : Prop :=
  (forall id, is_Some (statuses m !! id) -> issuedBefore w (tick m) id)
  /\ (forall id, id ∈ jobQueue (svc m) -> issuedBefore w (tick m) id)
  /\ NoDup (jobQueue (svc m))
  /\ (forall id x, id ∈ jobQueue (svc m) -> statuses m !! id = Some x ->
         x = pending).

(** The job the worker is on has left the queue and has status [x]. *)
Definition onJobWith (w : World) (id : string) (x : JobStatus)
    (m : Machine) : Prop :=
  (id ∉ jobQueue (svc m)) /\ issuedBefore w (tick m) id
  /\ forall y, statuses m !! id = Some y -> y = x.

Definition workerOk (w : World) (p : Worker) (m : Machine) : Prop :=
  match p with
  | Awaiting id _ | Rejected id _ => onJobWith w id processing m
  | Rethrown id _ => onJobWith w id failed m
  | Finished id => exists x, onJobWith w id x m
  | _ => True
  end.

Definition consistent (w : World) (c : Worker * Machine) : Prop :=
  wellQueued w c.2 /\ workerOk w c.1 c.2.

(** ** The shape of a record, by status *)

(** What a record holds in each status; [id] is the key it is stored
    under. *)
Definition recordOk (id : string) (j : JobData) : Prop :=
  jobId j = id
  /\ match status j with
     | pending =>
         started (timestamps j) = None
         /\ completedAt (timestamps j) = None
         /\ processingTime (metrics j) = None
         /\ resultPaths j = []
         /\ errorMessage j = None
     | processing =>
         is_Some (started (timestamps j))
         /\ completedAt (timestamps j) = None
         /\ processingTime (metrics j) = None
         /\ errorMessage j = None
     | completed =>
         (exists s c,
            started (timestamps j) = Some s
            /\ completedAt (timestamps j) = Some c
            /\ processingTime (metrics j) = Some (c - s))
         /\ resultPaths j <> []
         /\ errorMessage j = None
     | failed =>
         is_Some (started (timestamps j))
         /\ is_Some (completedAt (timestamps j))
         /\ is_Some (processingTime (metrics j))
         /\ resultPaths j <> []
         /\ is_Some (errorMessage j)
     end.

(** The record of the job the worker is on. *)
Definition workerRecord (p : Worker) (m : Machine) : Prop :=
  match p with
  | Awaiting id todo =>
      exists j, jobs (svc m) !! id = Some j
                /\ (resultPaths j <> [] \/ todo <> [])
  | Rejected id _ =>
      exists j, jobs (svc m) !! id = Some j /\ resultPaths j <> []
  | Rethrown id msg =>
      exists j, jobs (svc m) !! id = Some j /\ errorMessage j = Some msg
  | Finished id =>
      exists j, jobs (svc m) !! id = Some j /\ isTerminal j = true
  | _ => True
  end.

Definition shaped (c : Worker * Machine) : Prop :=
  (forall id j, jobs (svc c.2) !! id = Some j -> recordOk id j)
  /\ workerRecord c.1 c.2
  /\ (forall id, id ∈ jobQueue (svc c.2) -> is_Some (jobs (svc c.2) !! id)).

(** ** The clock readings on a record *)

(** The timestamps of a record are readings of the clock taken in the
    order created, started, completed, before the [T]-th environment call;
    the processing time is the time from the start to a reading not later
    than the completion stamp. *)
Definition stamped (w : World) (T : nat) (j : JobData) : Prop :=
  exists kc,
    (kc < T)%nat /\ created (timestamps j) = now w kc
    /\ match started (timestamps j) with
       | None =>
           completedAt (timestamps j) = None
           /\ processingTime (metrics j) = None
       | Some s =>
           exists ks,
             (kc < ks < T)%nat /\ s = now w ks
             /\ match completedAt (timestamps j) with
                | None => processingTime (metrics j) = None
                | Some c =>
                    exists kf ke,
                      (ks < kf <= ke)%nat /\ (ke < T)%nat /\ c = now w ke
                      /\ processingTime (metrics j)
                         = Some (now w kf - now w ks)
                end
       end.

Definition allStamped (w : World) (m : Machine) : Prop :=
  forall id j, jobs (svc m) !! id = Some j -> stamped w (tick m) j.

(** ** What the aggregate holds in every state *)

Definition metricsOk (c : Worker * Machine) : Prop :=
  let s := svc c.2 in
  let sm := systemMetrics s in
  (size (jobs s) <= concurrentProcessingCapability sm)%nat
  /\ (isProcessing s = true <-> c.1 <> Idle)
  /\ legacyComparisonData sm = legacyLoc
  /\ (exists l, store s !! legacyLoc = Some l
                /\ avgSyncResponseTime l = ofZ 10000
                /\ avgAsyncResponseTime l = averageResponseTime sm)
  /\ (0 <= successRate sm /\ successRate sm <= ofZ 100)
  /\ memoryEfficiency sm = 0.

(** ** The queue at the start of a loop turn *)

(** No identifier is queued twice, and every queued identifier has a
    record that was never completed or timed. *)
Definition queueReady (m : Machine) : Prop :=
  NoDup (jobQueue (svc m))
  /\ forall id, id ∈ jobQueue (svc m) ->
       exists j, jobs (svc m) !! id = Some j
                 /\ completedAt (timestamps j) = None
                 /\ processingTime (metrics j) = None.

(** The processing time recorded on a job, 0 when there is none. *)
Definition jobTime (j : JobData) : num :=
  default 0 (processingTime (metrics j)).

Definition sumTimes (l : list JobData) : num := sum (jobTime <$> l).

(** The mean so far, times the number of jobs taken up, is the sum of the
    processing times on the records. *)
Definition meanSoFar (m : Machine) : Prop :=
  averageProcessingTime (systemMetrics (svc m))
  * ofNat (totalJobsProcessed (systemMetrics (svc m)))
  = sumTimes (jobValues (svc m)).

(** ** Where the pending and the processing jobs are *)

(** The job whose [processJob] call is awaited. *)
Definition inFlight (p : Worker) : option string :=
  match p with
  | Awaiting id _ | Rejected id _ => Some id
  | _ => None
  end.

(** Every pending job is queued, and a job in status [processing] is the
    one the worker is on. *)
Definition accounted (c : Worker * Machine) : Prop :=
  forall id,
    (statuses c.2 !! id = Some pending -> id ∈ jobQueue (svc c.2))
    /\ (statuses c.2 !! id = Some processing -> inFlight c.1 = Some id).

(** ** The legacy synchronous reports

    [states] is a field of the service that only [accounts()], [yearly()],
    [fs()] and [state()] touch; it is kept beside the machine.  [state] is
    modelled on the three scopes the controller asks for. *)

Record LegacyStates := {
  accountsState : string;
  yearlyState : string;
  fsState : string
}.

Definition initialStates : LegacyStates :=
  {| accountsState := "idle"; yearlyState := "idle"; fsState := "idle" |}.

Definition state (scope : ConcreteType) (st : LegacyStates) : string :=
  match scope with
  | accounts => accountsState st
  | yearly => yearlyState st
  | fs => fsState st
  end.

Definition setState (scope : ConcreteType) (v : string) (st : LegacyStates)
    : LegacyStates :=
  match scope with
  | accounts =>
      {| accountsState := v; yearlyState := yearlyState st;
         fsState := fsState st |}
  | yearly =>
      {| accountsState := accountsState st; yearlyState := v;
         fsState := fsState st |}
  | fs =>
      {| accountsState := accountsState st; yearlyState := yearlyState st;
         fsState := v |}
  end.

Definition legacyFile (k : ConcreteType) : string :=
  "out/" ++ concreteName k ++ ".csv".

Section Legacy.

Variable w : World.

(** [accounts()], [yearly()] and [fs()]: [Some msg] when the routine throws
    [Error(msg)]; the scope is then left at ['starting']. *)
Definition legacyReport (k : ConcreteType) (c : LegacyStates * Machine)
    : option string * (LegacyStates * Machine) :=
  let '(st, m) := c in
  let st := setState k "starting" st in
  let '(start, m) := performanceNow w m in
  let f := legacyFile k in
  let outcome := reportLogic w (tick m) k f in
  let m := bump (logCall k f m) in
  match outcome with
  | Some msg => (Some msg, (st, m))
  | None =>
      let '(t, m) := performanceNow w m in
      (None,
       (setState k ("finished in " ++ toFixed 2 ((t - start) / ofZ 1000)) st,
        m))
  end.

End Legacy.

(** ** The other endpoints of the controller *)

Record TimestampsDto := {
  dtoCreated : string;
  dtoStarted : option string;
  dtoCompleted : option string
}.

Record JobStatusResponseDto := {
  rspJobId : string;
  rspType : ReportType;
  rspStatus : JobStatus;
  rspTimestamps : TimestampsDto;
  rspMessage : string;
  rspProcessingTime : option string;
  rspResultUrl : option string;
  rspResultPaths : option (list string);
  rspError : option string
}.

Record JobResultResponse := {
  rspSuccess : bool;
  rspResultJobId : string;
  rspResultMessage : string;
  rspData : option ResultData
}.

Module ReportsController.

Section Endpoints.

Variable w : World.

(** [new Date(t).toISOString()] on a stored clock reading; readings of
    [performance.now()] are within the range of [Date]. *)
Variable toISOString : num -> string.

(** [if (t) { ... = new Date(t).toISOString() }]: a missing and a zero
    timestamp are falsy. *)
Definition isoIfSet (t : option num) : option string :=
  match t with
  | Some x => if truthy x then Some (toISOString x) else None
  | None => None
  end.

Definition getJobStatus (id : string) (s : ReportsService)
    : HttpException + JobStatusResponseDto :=
  match getJobStatus id s with
  | None => inl (BadRequestException "Job not found")
  | Some job =>
      let completedSet :=
        match completedAt (timestamps job) with
        | Some c => truthy c
        | None => false
        end in
      inr {| rspJobId := jobId job;
             rspType := type job;
             rspStatus := status job;
             rspTimestamps :=
               {| dtoCreated := toISOString (created (timestamps job));
                  dtoStarted := isoIfSet (started (timestamps job));
                  dtoCompleted := isoIfSet (completedAt (timestamps job)) |};
             rspMessage :=
               match status job with
               | pending => ""
               | processing => "Report is being processed in background"
               | completed => "Report completed successfully"
               | failed => "Report processing failed"
               end;
             rspProcessingTime :=
               if completedSet then
                 Some (match processingTime (metrics job) with
                       | Some p => toFixed 2 p
                       | None => "0"
                       end ++ "ms")
               else None;
             rspResultUrl :=
               match status job with
               | completed => Some ("/api/v1/reports/result/" ++ id)
               | _ => None
               end;
             rspResultPaths :=
               match status job with
               | completed => Some (resultPaths job)
               | _ => None
               end;
             rspError :=
               match status job with
               | failed =>
                   match errorMessage job with
                   | Some e => if String.eqb e "" then None else Some e
                   | None => None
                   end
               | _ => None
               end |}
  end.

(** A [BadRequestException] built without a message says ['Bad Request']. *)
Definition getJobResult (id : string) (s : ReportsService)
    : HttpException + JobResultResponse :=
  let result := getJobResult w id s in
  if negb (success result) then
    inl (BadRequestException (default "Bad Request" (error result)))
  else
    inr {| rspSuccess := true;
           rspResultJobId := id;
           rspResultMessage := "Report data retrieved successfully";
           rspData := data result |}.

(** [generateLegacy]: [inl msg] when one of the three calls throws
    [Error(msg)], which skips the calls after it. *)
Definition generateLegacy (c : LegacyStates * Machine)
    : (string + string) * (LegacyStates * Machine) :=
  match legacyReport w accounts c with
  | (Some msg, c) => (inl msg, c)
  | (None, c) =>
      match legacyReport w yearly c with
      | (Some msg, c) => (inl msg, c)
      | (None, c) =>
          match legacyReport w fs c with
          | (Some msg, c) => (inl msg, c)
          | (None, c) => (inr "finished", c)
          end
      end
  end.

End Endpoints.

End ReportsController.

(** A stand-in for [toISOString] in examples: the reading in milliseconds,
    to three places. *)
Definition plainTime (t : num) : string := toFixed 3 t.

(** ** The improvement shown in the comparison block *)



(** ** Scheduling *)

(** A non-empty queue has a running loop or a scheduled callback. *)
Definition scheduled (m : Machine) : Prop :=
  jobQueue (svc m) <> [] ->
  isProcessing (svc m) = true \/ (0 < immediates m)%nat.

(** ** The result paths of a job *)

(** The output files of the routines a job of kind [t] calls, in order. *)
Definition expectedPaths (id : string) (t : ReportType) : list string :=
  (fun k => outputFile k id) <$> reportsOf t.

(** The result paths of a record are the output files of the routines
    called so far; the worker still has [todo] to call. *)
Definition pathsOk (c : Worker * Machine) : Prop :=
  (forall id j, jobs (svc c.2) !! id = Some j ->
     exists rest,
       (resultPaths j ++ rest)%list = expectedPaths id (type j)
       /\ (status j = completed -> rest = []))
  /\ match c.1 with
     | Awaiting id todo =>
         forall j, jobs (svc c.2) !! id = Some j ->
           (resultPaths j ++ ((fun k => outputFile k id) <$> todo))%list
           = expectedPaths id (type j)
     | _ => True
     end.


(** * Properties *)

(** ** Lookups through the worker's reference *)

Lemma onJob_lookup id f m :
  jobs (svc (onJob id f m)) !! id = f <$> jobs (svc m) !! id.
Proof. simpl. by rewrite lookup_alter_eq. Qed.

Lemma onJob_lookup_ne id id' f m :
  id <> id' -> jobs (svc (onJob id f m)) !! id' = jobs (svc m) !! id'.
Proof. intros. simpl. by rewrite lookup_alter_ne. Qed.

Lemma createJob_id w t m : (createJob w t m).1.1 = randomUUID w (S (tick m)).
Proof. unfold createJob. simpl. by destruct (isProcessing (svc m)). Qed.

Lemma createJob_jobs w t m :
  jobs (svc (createJob w t m).2)
  = <[randomUUID w (S (tick m)) :=
        newJob (randomUUID w (S (tick m))) t (now w (S (S (tick m))))
               (length (jobQueue (svc m)))]> (jobs (svc m)).
Proof. unfold createJob. simpl. by destruct (isProcessing (svc m)). Qed.

Lemma createJob_queue w t m :
  jobQueue (svc (createJob w t m).2)
  = (jobQueue (svc m) ++ [randomUUID w (S (tick m))])%list.
Proof. unfold createJob. simpl. by destruct (isProcessing (svc m)). Qed.

Lemma createJob_tick w t m : tick (createJob w t m).2 = (tick m + 4)%nat.
Proof.
  unfold createJob. simpl. destruct (isProcessing (svc m)); simpl; lia.
Qed.

(** ** Lookups by identifier *)

(** C5.  Fetching the result of a job that exists but is not [completed]
    fails with a message that names the job's current status; fetching the
    status or the result under an identifier that is not in the registry
    gives the separate "not found" answer, whose message is never that of a
    job that is not ready. *)
Theorem getJobResult_not_ready_or_not_found (w : World) (id : string)
    (s : ReportsService) :
  (forall job, jobs s !! id = Some job -> status job <> completed ->
     getJobResult w id s
     = {| success := false; data := None;
          error := Some ("Job status: " ++ statusName (status job)) |})
  /\ (jobs s !! id = None ->
        getJobStatus id s = None
        /\ getJobResult w id s
           = {| success := false; data := None;
                error := Some "Job not found" |})
  /\ (forall x, "Job not found" <> "Job status: " ++ statusName x).
Proof.
  split; [|split].
  - intros job Hjob Hst. unfold getJobResult. rewrite Hjob.
    by destruct (decide (status job = completed)).
  - intros Hnone. split; [exact Hnone|].
    unfold getJobResult. by rewrite Hnone.
  - intros x. by destruct x.
Qed.

Lemma getJobResult_not_ready_or_not_found_witness :
  getJobResult calmWorld "fjob"
    (svc (createJob calmWorld (single accounts) initialMachine).2)
  = {| success := false; data := None;
       error := Some "Job status: pending" |}
  /\ getJobStatus "nope" initialService = None
  /\ getJobResult calmWorld "nope" initialService
     = {| success := false; data := None; error := Some "Job not found" |}.
Proof.
  split.
  - refine (proj1 (getJobResult_not_ready_or_not_found calmWorld "fjob" _)
              (newJob "fjob" (single accounts) (ofNat 3) 0) _ _).
    + vm_compute. reflexivity.
    + discriminate.
  - exact (proj1 (proj2 (getJobResult_not_ready_or_not_found calmWorld "nope"
                           initialService)) eq_refl).
Defined.

(** ** The submission endpoint *)

Lemma existsb_validTypes (s : string) :
  existsb (String.eqb s) validTypes = true <-> In s validTypes.
Proof.
  rewrite existsb_exists. split.
  - intros (x & Hx & Heq). apply String.eqb_eq in Heq. by subst.
  - intros H. exists s. split; [done|]. apply String.eqb_refl.
Qed.

(** C10.  A request without the kind parameter is accepted: the endpoint
    answers with the response of a submission of kind [all], and the
    record it creates is a pending job of kind [all]. *)
Theorem createReportJob_default_all (w : World) (m : Machine) :
  let r := createJob w all m in
  createReportJob w None m
  = (inr {| dtoJobId := r.1.1;
            dtoType := "all";
            dtoStatus := "pending";
            dtoMessage := "Report job created successfully";
            dtoResponseTime := toFixed 2 r.1.2 ++ "ms";
            dtoStatusUrl := "/api/v1/reports/status/" ++ r.1.1;
            dtoResultUrl := "/api/v1/reports/result/" ++ r.1.1 |}, r.2)
  /\ exists job,
       getJobStatus r.1.1 (svc r.2) = Some job
       /\ type job = all /\ status job = pending
       /\ In r.1.1 (jobQueue (svc r.2)).
Proof.
  intros r. split.
  - unfold createReportJob. simpl. fold r.
    by destruct r as [[id rt] m'].
  - eexists. unfold getJobStatus, r.
    rewrite createJob_id, createJob_jobs, createJob_queue, lookup_insert_eq.
    split; [reflexivity|]. repeat split.
    apply in_or_app. right. by left.
Qed.

Lemma empty_kind_accepted :
  ~ In "" validTypes
  /\ exists dto m',
       createReportJob calmWorld (Some "") initialMachine = (inr dto, m')
       /\ dtoType dto = "all"
       /\ jobQueue (svc m') = ["fjob"].
Proof.
  split.
  - simpl. intuition discriminate.
  - eexists _, _. split; [reflexivity|]. split; reflexivity.
Qed.

(** C6, as stated, fails: the empty kind string is outside the closed set
    and yet it is accepted, as a submission of kind [all]. *)
Lemma unknown_kind_not_always_rejected :
  ~ (forall (w : World) (kind : string) (m : Machine),
       ~ In kind validTypes ->
       exists e, createReportJob w (Some kind) m = (inl e, m)).
Proof.
  intros H.
  destruct empty_kind_accepted as (Hout & dto & m' & Hrun & _).
  destruct (H calmWorld "" initialMachine Hout) as [e He].
  rewrite Hrun in He. discriminate He.
Qed.

(** C6, amended.  For every non-empty kind string outside the closed set
    {accounts, yearly, fs, all}, the submission fails at once with the
    invalid-kind error, and the registry, the queue, the metrics and the
    rest of the program state are exactly what they were. *)
Theorem createReportJob_rejects_unknown_kind (w : World) (kind : string)
    (m : Machine) :
  kind <> "" -> ~ In kind validTypes ->
  createReportJob w (Some kind) m
  = (inl (BadRequestException
            "Invalid report type. Valid types: accounts, yearly, fs, all"),
     m).
Proof.
  intros Hne Hout. unfold createReportJob, orAll.
  destruct (String.eqb_spec kind "") as [->|_]; [done|].
  destruct (existsb (String.eqb kind) validTypes) eqn:E.
  - apply existsb_validTypes in E. contradiction.
  - reflexivity.
Qed.

Lemma createReportJob_rejects_unknown_kind_witness :
  createReportJob calmWorld (Some "invalid-type") initialMachine
  = (inl (BadRequestException
            "Invalid report type. Valid types: accounts, yearly, fs, all"),
     initialMachine).
Proof.
  apply (createReportJob_rejects_unknown_kind calmWorld "invalid-type").
  - discriminate.
  - simpl. intuition discriminate.
Defined.

(** ** The running average of the submission latency *)

Lemma ofNat_1 : ofNat 1 = 1.
Proof. by apply Qc_is_canon. Qed.

(** While no job has been processed, each submission overwrites the
    average with its own latency. *)
Lemma updateResponseTimeMetrics_unprocessed (rt : num) (s : ReportsService) :
  (totalJobsProcessed (systemMetrics s) <= 1)%nat ->
  averageResponseTime (systemMetrics (updateResponseTimeMetrics rt s)) = rt.
Proof.
  intros H. unfold updateResponseTimeMetrics. simpl.
  assert (match totalJobsProcessed (systemMetrics s) with
          | O => 1%nat | S n => S n end = 1%nat) as ->.
  { destruct (totalJobsProcessed (systemMetrics s)) as [|[|n]]; [done|done|lia]. }
  rewrite ofNat_1. field. discriminate.
Qed.

Lemma createJob_average (w : World) (t : ReportType) (m : Machine) :
  (totalJobsProcessed (systemMetrics (svc m)) <= 1)%nat ->
  averageResponseTime (systemMetrics (svc (createJob w t m).2))
  = (createJob w t m).1.2.
Proof.
  intros H. unfold createJob. simpl.
  destruct (isProcessing (svc m)); simpl;
    by apply updateResponseTimeMetrics_unprocessed.
Qed.

(** C2 on the code: two submissions answered in 1 ms and in 3 ms, before
    any job has been processed.  The reported average is 3, the latency of
    the last one, where the mean of the two is 2. *)
Theorem averageResponseTime_is_last_sample :
  let r1 := createJob latencyWorld (single accounts) initialMachine in
  let r2 := createJob latencyWorld (single yearly) r1.2 in
  r1.1.2 = ofZ 1
  /\ r2.1.2 = ofZ 3
  /\ averageResponseTime (systemMetrics (svc r2.2)) = ofZ 3
  /\ mean [ofZ 1; ofZ 3] = ofZ 2
  /\ averageResponseTime (systemMetrics (svc r2.2)) <> mean [r1.1.2; r2.1.2].
Proof.
  repeat split; try (apply Qc_is_canon; vm_compute; reflexivity).
  intros H. apply (f_equal this) in H. vm_compute in H. discriminate H.
Qed.

(** ** Snapshots of the metrics *)

(** The own fields of a snapshot are values: no later state changes them.
    The nested block is reached through the reference the snapshot shares
    with the service. *)
Lemma createJob_legacy_block w t m (l : LegacyComparisonData) :
  store (svc m) !! legacyComparisonData (systemMetrics (svc m)) = Some l ->
  avgAsyncResponseTime
    <$> readLegacy (getSystemMetrics (svc m)) (svc (createJob w t m).2)
  = Some (averageResponseTime (systemMetrics (svc (createJob w t m).2))).
Proof.
  intros Hl. unfold readLegacy, getSystemMetrics, createJob. simpl.
  destruct (isProcessing (svc m)); simpl;
    rewrite lookup_alter_eq, Hl; reflexivity.
Qed.

(** C3 on the code: a snapshot taken from the fresh service, then one
    submission.  Read through the snapshot, the nested comparison block
    now shows the values written by that submission. *)
Theorem snapshot_shares_legacy_block :
  let snapshot := getSystemMetrics initialService in
  let later := svc (createJob calmWorld (single accounts) initialMachine).2 in
  avgAsyncResponseTime <$> readLegacy snapshot initialService = Some 0
  /\ performanceImprovement <$> readLegacy snapshot initialService
     = Some "0%"
  /\ avgAsyncResponseTime <$> readLegacy snapshot later = Some (ofZ 3)
  /\ performanceImprovement <$> readLegacy snapshot later = Some "100.0%"
  /\ averageResponseTime snapshot = 0.
Proof.
  repeat split; try reflexivity.
Qed.

(** ** Processing one job *)

Ltac run_job :=
  unfold processJob, settle, runReports, typeOf, processAllReports, andThen,
    processSingleReport, generateReport, beginJob, finallyBlock, catchInLoop,
    performanceNow, processMemoryUsage;
  cbn [fst snd svc onJob onSvc bump jobs setJobs tick logCall generated
       Nat.add].

Ltac read_job H :=
  cbn [fst snd svc onJob onSvc bump jobs setJobs tick logCall generated
       Nat.add];
  rewrite ?lookup_alter_eq, ?H; cbn.

(** C8.  A job of kind [all] runs the accounts, yearly and fs routines in
    that order on the one record.  When the three return, the record is
    [completed] with exactly their three output files, in that order, and
    one processing time from the start of the first to the end of the
    last.  When one throws, the later ones are not called and the record is
    [failed] with the thrown message as its error message. *)
Theorem processJob_all (w : World) (id : string) (m : Machine) (job : JobData) :
  jobs (svc m) !! id = Some job -> type job = all -> resultPaths job = [] ->
  match reportLogic w (2 + tick m)%nat accounts (outputFile accounts id),
        reportLogic w (3 + tick m)%nat yearly (outputFile yearly id),
        reportLogic w (4 + tick m)%nat fs (outputFile fs id) with
  | Some msg, _, _ => failedAfter w id m msg [accounts]
  | None, Some msg, _ => failedAfter w id m msg [accounts; yearly]
  | None, None, Some msg => failedAfter w id m msg [accounts; yearly; fs]
  | None, None, None => completedAll w id m
  end.
Proof.
  intros Hj Ht Hr.
  destruct (reportLogic w (2 + tick m) accounts _) as [msg|] eqn:E1;
    [|destruct (reportLogic w (3 + tick m) yearly _) as [msg|] eqn:E2;
      [|destruct (reportLogic w (4 + tick m) fs _) as [msg|] eqn:E3]];
    unfold failedAfter, completedAll; run_job;
    rewrite ?lookup_alter_eq, ?Hj; cbn; rewrite Ht;
    run_job; cbn in E1; rewrite E1;
    try (cbn in E2; run_job; rewrite E2);
    try (cbn in E3; run_job; rewrite E3);
    run_job; rewrite ?lookup_alter_eq, ?Hj; cbn; rewrite ?Hr;
    repeat split; rewrite <- ?app_assoc; try reflexivity;
    (eexists; split; [reflexivity|]; cbn; rewrite ?Hr; by repeat split).
Qed.

Lemma processJob_all_witness :
  completedAll calmWorld "fjob"
    (createJob calmWorld all initialMachine).2
  /\ failedAfter brokenDirWorld "fjob"
       (createJob brokenDirWorld all initialMachine).2
       "Directory not found" [accounts].
Proof.
  split.
  - exact (processJob_all calmWorld "fjob"
             (createJob calmWorld all initialMachine).2
             (newJob "fjob" all (ofNat 3) 0) eq_refl eq_refl eq_refl).
  - exact (processJob_all brokenDirWorld "fjob"
             (createJob brokenDirWorld all initialMachine).2
             (newJob "fjob" all (ofNat 3) 0) eq_refl eq_refl eq_refl).
Defined.

(** A single-kind job whose routine throws ends [failed], with the output
    file of the routine added to its result paths. *)
Lemma processJob_single_failure (w : World) (id : string) (m : Machine)
    (job : JobData) (k : ConcreteType) (msg : string) :
  jobs (svc m) !! id = Some job -> type job = single k ->
  reportLogic w (2 + tick m)%nat k (outputFile k id) = Some msg ->
  (processJob w id m).1 = Some msg
  /\ exists job',
       jobs (svc (processJob w id m).2) !! id = Some job'
       /\ status job' = failed
       /\ resultPaths job' = (resultPaths job ++ [outputFile k id])%list.
Proof.
  intros Hj Ht E. run_job. rewrite ?lookup_alter_eq, ?Hj. cbn. rewrite Ht.
  run_job. cbn in E. rewrite E. read_job Hj.
  split; [done|]. eexists. split; [reflexivity|]. by cbn.
Qed.

(** A job that [processJob] leaves [completed] has at least one result
    path. *)
Lemma processJob_completed_has_result (w : World) (id : string)
    (m : Machine) (job job' : JobData) :
  jobs (svc m) !! id = Some job ->
  jobs (svc (processJob w id m).2) !! id = Some job' ->
  status job' = completed -> resultPaths job' <> [].
Proof.
  intros Hj. run_job. rewrite ?lookup_alter_eq, ?Hj. cbn.
  destruct (type job) as [k|] eqn:Ht; run_job.
  - destruct (reportLogic w _ k _); read_job Hj;
      intros [= <-]; cbn; [discriminate|].
    intros _ H. by apply app_eq_nil in H as [_ ?].
  - destruct (reportLogic w _ accounts _); read_job Hj;
      [intros [= <-]; cbn; discriminate|].
    destruct (reportLogic w _ yearly _); read_job Hj;
      [intros [= <-]; cbn; discriminate|].
    destruct (reportLogic w _ fs _); read_job Hj;
      intros [= <-]; cbn; [discriminate|].
    intros _ H. by apply app_eq_nil in H as [_ ?].
Qed.

(** A job of kind accounts whose routine throws (the directory cannot be
    read): the job ends [failed] and its result paths hold the output file
    that was never written. *)
Lemma failed_job_keeps_result_path :
  let m := drained brokenDirWorld [single accounts] in
  status <$> jobs (svc m) !! "fjob" = Some failed
  /\ resultPaths <$> jobs (svc m) !! "fjob" = Some ["out/accounts_fjob.csv"]
  /\ errorMessage <$> jobs (svc m) !! "fjob"
     = Some (Some "Directory not found")
  /\ jobQueue (svc m) = [].
Proof. repeat split. Qed.

(** C1, as stated, fails: the job of kind accounts whose routine throws is
    [failed] and has one result path. *)
Lemma failed_job_not_without_result_path :
  ~ (forall (w : World) (ts : list ReportType) (id : string) (job : JobData),
       jobs (svc (drained w ts)) !! id = Some job ->
       (status job = failed -> resultPaths job = [])
       /\ (status job = completed -> resultPaths job <> [])).
Proof.
  intros H.
  destruct failed_job_keeps_result_path as (Hs & Hp & _).
  destruct (jobs (svc (drained brokenDirWorld [single accounts])) !! "fjob")
    as [job|] eqn:E; [|discriminate Hs].
  cbn in Hs, Hp. injection Hs as Hs. injection Hp as Hp.
  destruct (H _ _ _ _ E) as [Hf _].
  rewrite (Hf Hs) in Hp. discriminate Hp.
Qed.

(** C1, amended.  A job taken from the queue with no result path yet ends
    [completed] or [failed], and in both cases its result paths are the
    output files of the report routines that were called, of which there
    is at least one: a [completed] job has a non-empty sequence of result
    paths, and so has a job that is [failed] because a routine threw.  In
    particular a single-kind job ends with exactly one result path, the
    output file of its routine, whether the routine returned or threw. *)
Theorem terminal_job_result_paths (w : World) (id : string) (m : Machine)
    (job : JobData) :
  jobs (svc m) !! id = Some job -> resultPaths job = [] ->
  exists job' calls,
    jobs (svc (tryProcessJob w id m)) !! id = Some job'
    /\ (status job' = completed \/ status job' = failed)
    /\ generated (tryProcessJob w id m) = (generated m ++ calls)%list
    /\ resultPaths job' = calls.*2
    /\ calls <> []
    /\ (forall k, type job = single k -> resultPaths job' = [outputFile k id]).
Proof.
  intros Hj Hr. unfold tryProcessJob. run_job.
  rewrite ?lookup_alter_eq, Hj. cbn.
  destruct (type job) as [k|] eqn:Ht; run_job;
    repeat
      (match goal with
       | |- context [reportLogic w ?t ?k ?f] =>
           destruct (reportLogic w t k f) eqn:?; run_job
       end);
    rewrite ?lookup_alter_eq, ?Hj;
    (eexists _, _; split_and!;
       [ reflexivity
       | cbn; eauto
       | rewrite <- ?app_assoc; reflexivity
       | cbn; rewrite ?Hr; reflexivity
       | discriminate
       | intros k' E; cbn; rewrite ?Hr; try discriminate E;
         by injection E as <- ]).
Qed.

Lemma terminal_job_result_paths_witness :
  exists job',
    jobs (svc (tryProcessJob brokenDirWorld "fjob"
                 (createJob brokenDirWorld (single accounts)
                    initialMachine).2)) !! "fjob" = Some job'
    /\ status job' = failed
    /\ resultPaths job' = ["out/accounts_fjob.csv"].
Proof.
  destruct (terminal_job_result_paths brokenDirWorld "fjob"
              (createJob brokenDirWorld (single accounts) initialMachine).2
              (newJob "fjob" (single accounts) (ofNat 3) 0)
              eq_refl eq_refl)
    as (job' & calls & Hj & _ & _ & _ & _ & Hone).
  exists job'. split; [exact Hj|]. split.
  - assert (status <$> jobs (svc (tryProcessJob brokenDirWorld "fjob"
                 (createJob brokenDirWorld (single accounts)
                    initialMachine).2)) !! "fjob" = Some failed) as Hs
      by (vm_compute; reflexivity).
    rewrite Hj in Hs. by injection Hs.
  - exact (Hone accounts eq_refl).
Defined.


(** ** The retention sweep *)

Lemma truthy_true (x : Qc) : truthy x = true <-> x <> 0.
Proof.
  unfold truthy. rewrite negb_true_iff, <- not_true_iff_false, Qeq_bool_iff.
  split; intros H E; apply H.
  - by rewrite E.
  - by apply Qc_is_canon.
Qed.

Lemma ltb_true (x y : Qc) : ltb x y = true <-> x < y.
Proof.
  unfold ltb, Qclt, Qccompare. rewrite Qlt_alt.
  destruct (x ?= y)%Q; intuition discriminate.
Qed.

Lemma expired_true (h : Qc) (j : JobData) :
  expired h j = true
  <-> exists c, completedAt (timestamps j) = Some c /\ c <> 0 /\ c < h.
Proof.
  unfold expired. destruct (completedAt (timestamps j)) as [c|].
  - rewrite andb_true_iff, truthy_true, ltb_true. split.
    + intros [? ?]. eauto.
    + intros (? & [= <-] & ? & ?). done.
  - split; [discriminate|]. intros (? & ? & _). discriminate.
Qed.

Lemma cleanupOldJobs_lookup (w : World) (m : Machine) (id : string) :
  jobs (svc (cleanupOldJobs w m)) !! id
  = match jobs (svc m) !! id with
    | Some j => if expired (now w (tick m) - oneHour) j then None else Some j
    | None => None
    end.
Proof.
  unfold cleanupOldJobs, performanceNow. cbn.
  destruct (jobs (svc m) !! id) as [j|] eqn:Hj.
  - destruct (expired _ j) eqn:He.
    + apply map_lookup_filter_None. right. intros j' Hj'. cbn.
      rewrite Hj in Hj'. injection Hj' as <-. by rewrite He.
    + apply map_lookup_filter_Some. done.
  - apply map_lookup_filter_None. by left.
Qed.

Lemma processNext_ends_with_sweep (w : World) (id : string) (m : Machine) :
  is_Some (jobs (svc m) !! id) ->
  exists m0, processNext w id m = cleanupOldJobs w m0.
Proof. intros [j Hj]. unfold processNext. rewrite Hj. eauto. Qed.

(** C7.  The sweep, which ends every turn of the loop that processed a
    job, reads the clock once and removes exactly the records completed
    more than one hour (3,600,000 ms) before that reading.  Such a record
    is absent afterwards and lookups of its identifier answer "not found";
    a record completed later is kept as it is; a record with no completed
    timestamp is kept as it is; nothing else appears.  Completed
    timestamps are readings of [performance.now()], which are not zero. *)
Theorem cleanupOldJobs_sweeps (w : World) (m : Machine) (id : string)
    (job : JobData) :
  jobs (svc m) !! id = Some job ->
  completedAt (timestamps job) <> Some 0 ->
  let horizon := now w (tick m) - ofZ 3600000 in
  let m' := cleanupOldJobs w m in
  (forall c, completedAt (timestamps job) = Some c -> c < horizon ->
     getJobStatus id (svc m') = None
     /\ getJobResult w id (svc m')
        = {| success := false; data := None;
             error := Some "Job not found" |})
  /\ (forall c, completedAt (timestamps job) = Some c -> ~ c < horizon ->
        getJobStatus id (svc m') = Some job)
  /\ (completedAt (timestamps job) = None ->
        getJobStatus id (svc m') = Some job)
  /\ (forall id', getJobStatus id' (svc m) = None ->
        getJobStatus id' (svc m') = None)
  /\ (forall id0, is_Some (jobs (svc m) !! id0) ->
        exists m0, processNext w id0 m = cleanupOldJobs w m0).
Proof.
  intros Hj Hpos horizon m'.
  assert (Hlook := cleanupOldJobs_lookup w m id). rewrite Hj in Hlook.
  fold m' in Hlook. change (now w (tick m) - oneHour) with horizon in Hlook.
  split; [|split; [|split; [|split]]].
  - intros c Hc Hlt.
    assert (expired horizon job = true) as He.
    { apply expired_true. exists c. repeat split; [done| |done].
      intros ->. by apply Hpos. }
    rewrite He in Hlook.
    unfold getJobResult, getJobStatus. by rewrite Hlook.
  - intros c Hc Hnlt. unfold getJobStatus. rewrite Hlook.
    destruct (expired horizon job) eqn:He; [|done].
    apply expired_true in He as (c' & Hc' & _ & Hlt).
    rewrite Hc in Hc'. injection Hc' as <-. contradiction.
  - intros Hnone. unfold getJobStatus. rewrite Hlook.
    destruct (expired horizon job) eqn:He; [|done].
    apply expired_true in He as (c' & Hc' & _). congruence.
  - intros id' Hnone. unfold getJobStatus in *. unfold m'.
    by rewrite cleanupOldJobs_lookup, Hnone.
  - intros id0. apply processNext_ends_with_sweep.
Qed.

Lemma cleanupOldJobs_sweeps_witness :
  getJobStatus "old" (svc (cleanupOldJobs lateWorld agedMachine)) = None
  /\ getJobStatus "new" (svc (cleanupOldJobs lateWorld agedMachine))
     = Some (settledJob "new" 4999000)
  /\ getJobStatus "stuck" (svc (cleanupOldJobs lateWorld agedMachine))
     = Some (stuckJob "stuck").
Proof.
  split; [|split].
  - refine (proj1 (proj1 (cleanupOldJobs_sweeps lateWorld agedMachine "old"
                     (settledJob "old" 1000) eq_refl _) (ofZ 1000) eq_refl _)).
    + discriminate.
    + by vm_compute.
  - refine (proj1 (proj2 (cleanupOldJobs_sweeps lateWorld agedMachine "new"
                     (settledJob "new" 4999000) eq_refl _))
              (ofZ 4999000) eq_refl _).
    + discriminate.
    + by vm_compute.
  - refine (proj1 (proj2 (proj2 (cleanupOldJobs_sweeps lateWorld agedMachine
                     "stuck" (stuckJob "stuck") eq_refl _))) eq_refl).
    discriminate.
Defined.

(** ** The success rate *)

Lemma ofNat_0 : ofNat 0 = 0.
Proof. by apply Qc_is_canon. Qed.

Lemma ofNat_ne_0 (n : nat) : n <> 0%nat -> ofNat n <> 0.
Proof.
  intros Hn H. unfold ofNat, ofZ in H. apply Q2Qc_eq_iff in H.
  unfold Qeq in H. simpl in H. rewrite !Z.mul_1_r in H.
  apply Hn. by apply Nat2Z.inj.
Qed.

Lemma count_terminal (l : list JobData) :
  length (List.filter isTerminal l)
  = (countStatus completed l + countStatus failed l)%nat
  /\ length (List.filter (hasStatus completed) (List.filter isTerminal l))
     = countStatus completed l.
Proof.
  unfold countStatus, isTerminal, hasStatus.
  induction l as [|a l [IH1 IH2]]; [done|]. simpl.
  destruct (status a) eqn:E; simpl; rewrite ?E; simpl;
    rewrite ?IH1, ?IH2; split; lia.
Qed.




Lemma jobValues_elem (s : ReportsService) (j : JobData) :
  j ∈ jobValues s <-> exists id, jobs s !! id = Some j.
Proof.
  unfold jobValues. rewrite list_elem_of_fmap. split.
  - intros ([id j'] & -> & H). exists id. by apply elem_of_map_to_list.
  - intros [id H]. exists (id, j). split; [done|].
    by apply elem_of_map_to_list.
Qed.

Lemma jobValues_length (s : ReportsService) :
  length (jobValues s) = size (jobs s).
Proof. unfold jobValues. by rewrite length_fmap, length_map_to_list. Qed.

(** [updateSystemMetrics] reports completed / terminal * 100 over the
    records held when it runs. *)
Lemma updateSystemMetrics_rate (id : string) (s : ReportsService) :
  successRate (systemMetrics (updateSystemMetrics id s))
  = rateOver (jobValues s).
Proof.
  unfold updateSystemMetrics, rateOver. cbn.
  destruct (count_terminal (jobValues s)) as [-> ->].
  destruct (countStatus completed (jobValues s)
            + countStatus failed (jobValues s))%nat as [|n] eqn:E; [|done].
  cbn. assert (countStatus completed (jobValues s) = 0%nat) as -> by lia.
  rewrite ofNat_0. unfold Qcdiv. ring.
Qed.



(** ** One job, from [processing] to its terminal state *)

Ltac same_entry Hj :=
  apply map_eq; intros i;
  match goal with
  | |- _ = <[?id := _]> _ !! i =>
      destruct (decide (i = id)) as [->|Hne];
      [ rewrite lookup_insert_eq, ?lookup_alter_eq, Hj; reflexivity
      | rewrite lookup_insert_ne, ?lookup_alter_ne by done; reflexivity ]
  end.

(** [try { processJob } catch] rewrites the record of the job and nothing
    else; the record it leaves is terminal, and [failed] only when a
    routine threw. *)
Lemma tryProcessJob_spec (w : World) (id : string) (m : Machine)
    (job : JobData) :
  jobs (svc m) !! id = Some job ->
  exists job',
    jobs (svc (tryProcessJob w id m)) = <[id := job']> (jobs (svc m))
    /\ isTerminal job' = true
    /\ (status job' = failed ->
        exists t k f msg, reportLogic w t k f = Some msg)
    /\ jobQueue (svc (tryProcessJob w id m)) = jobQueue (svc m)
    /\ systemMetrics (svc (tryProcessJob w id m)) = systemMetrics (svc m)
    /\ isProcessing (svc (tryProcessJob w id m)) = isProcessing (svc m).
Proof.
  intros Hj. unfold tryProcessJob. run_job.
  rewrite ?lookup_alter_eq, Hj. cbn.
  destruct (type job) as [k|]; run_job.
  - destruct (reportLogic w _ k _) eqn:E1; run_job;
      (eexists; split; [same_entry Hj|]; cbn; repeat split; eauto 10;
       discriminate).
  - destruct (reportLogic w _ accounts _) eqn:E1; run_job;
      [eexists; split; [same_entry Hj|]; cbn; repeat split; eauto 10|].
    destruct (reportLogic w _ yearly _) eqn:E2; run_job;
      [eexists; split; [same_entry Hj|]; cbn; repeat split; eauto 10|].
    destruct (reportLogic w _ fs _) eqn:E3; run_job;
      (eexists; split; [same_entry Hj|]; cbn; repeat split; eauto 10;
       discriminate).
Qed.

(** ** The loop *)

Lemma processNext_present (w : World) (id : string) (m : Machine) :
  is_Some (jobs (svc m) !! id) ->
  processNext w id m
  = cleanupOldJobs w (onSvc (updateSystemMetrics id) (tryProcessJob w id m)).
Proof. intros [j Hj]. unfold processNext. by rewrite Hj. Qed.

Lemma processNext_absent (w : World) (id : string) (m : Machine) :
  jobs (svc m) !! id = None -> processNext w id m = m.
Proof. intros Hj. unfold processNext. by rewrite Hj. Qed.

Lemma cleanupOldJobs_subseteq (w : World) (m : Machine) :
  jobs (svc (cleanupOldJobs w m)) ⊆ jobs (svc m).
Proof. unfold cleanupOldJobs. cbn. apply map_filter_subseteq. Qed.

Lemma cleanupOldJobs_metrics (w : World) (m : Machine) :
  systemMetrics (svc (cleanupOldJobs w m)) = systemMetrics (svc m).
Proof. reflexivity. Qed.


Lemma processNext_queue (w : World) (id : string) (m : Machine) :
  jobQueue (svc (processNext w id m)) = jobQueue (svc m).
Proof.
  destruct (jobs (svc m) !! id) as [j|] eqn:Hj.
  - rewrite processNext_present by eauto.
    destruct (tryProcessJob_spec w id m j Hj) as (j' & _ & _ & _ & Hq & _).
    by rewrite <- Hq.
  - by rewrite processNext_absent.
Qed.

Lemma processNext_size (w : World) (id : string) (m : Machine) :
  (size (jobs (svc (processNext w id m))) <= size (jobs (svc m)))%nat.
Proof.
  destruct (jobs (svc m) !! id) as [j|] eqn:Hj.
  - rewrite processNext_present by eauto.
    destruct (tryProcessJob_spec w id m j Hj) as (j' & Hjobs & _).
    etrans; [apply map_subseteq_size, cleanupOldJobs_subseteq|].
    cbn. rewrite Hjobs, map_size_insert_Some by eauto. done.
  - by rewrite processNext_absent.
Qed.

Lemma processNext_lookup (w : World) (id : string) (m : Machine) i x :
  jobs (svc (processNext w id m)) !! i = Some x ->
  (i = id /\ isTerminal x = true
          /\ (status x = failed ->
              exists t k f msg, reportLogic w t k f = Some msg))
  \/ (i <> id /\ jobs (svc m) !! i = Some x).
Proof.
  destruct (jobs (svc m) !! id) as [j|] eqn:Hj.
  - rewrite processNext_present by eauto.
    destruct (tryProcessJob_spec w id m j Hj) as (j' & Hjobs & Ht & Hf & _).
    intros H.
    pose proof (lookup_weaken _ _ _ _ H (cleanupOldJobs_subseteq _ _)) as H'.
    cbn in H'. rewrite Hjobs in H'.
    destruct (decide (i = id)) as [->|Hne].
    + rewrite lookup_insert_eq in H'. injection H' as <-. by left.
    + rewrite lookup_insert_ne in H' by done. by right.
  - rewrite processNext_absent by done. intros H. right.
    split; [|done]. intros ->. congruence.
Qed.




(** ** A batch of submissions *)

Lemma createJob_isProcessing w t m :
  isProcessing (svc (createJob w t m).2) = isProcessing (svc m).
Proof.
  unfold createJob. simpl.
  destruct (isProcessing (svc m)) eqn:E; simpl; by rewrite ?E.
Qed.

Lemma submitted_createJob (w : World) (t : ReportType) (n : nat) (m : Machine) :
  submitted n m -> submitted (S n) (createJob w t m).2.
Proof.
  intros (Hp & Hlen & Hsize & Hpres & Hsq & Hnf).
  unfold submitted, settledOrQueued, noneFailed.
  rewrite createJob_isProcessing, createJob_queue, createJob_jobs.
  set (id0 := randomUUID w (S (tick m))).
  split; [done|]. split; [rewrite length_app; cbn; lia|]. split.
  { rewrite map_size_insert. destruct (jobs (svc m) !! id0); cbn; lia. }
  split; [|split].
  - intros id Hin. destruct (decide (id = id0)) as [->|Hne].
    + rewrite lookup_insert_eq. eauto.
    + rewrite lookup_insert_ne by done. apply Hpres.
      apply elem_of_app in Hin as [Hin|Hin]; [done|].
      apply list_elem_of_singleton in Hin. done.
  - intros id j Hj. destruct (decide (id = id0)) as [->|Hne].
    + right. apply elem_of_app. right. by left.
    + rewrite lookup_insert_ne in Hj by done.
      destruct (Hsq id j Hj) as [?|Hin]; [by left|right].
      apply elem_of_app. by left.
  - intros id j Hj. destruct (decide (id = id0)) as [->|Hne].
    + rewrite lookup_insert_eq in Hj. by injection Hj as <-.
    + rewrite lookup_insert_ne in Hj by done. by apply (Hnf id j).
Qed.

Lemma submitted_submitAll (w : World) (ts : list ReportType) :
  forall n m, submitted n m -> submitted (n + length ts) (submitAll w ts m).
Proof.
  induction ts as [|t ts IH]; intros n m H; cbn.
  - by rewrite Nat.add_0_r.
  - replace (n + S (length ts))%nat with (S n + length ts)%nat by lia.
    apply IH. by apply submitted_createJob.
Qed.

Lemma submitted_initial : submitted 0 initialMachine.
Proof.
  unfold submitted, settledOrQueued, noneFailed. cbn.
  split_and!; try done.
  intros id Hin. by apply elem_of_nil in Hin.
Qed.

Lemma drained_unfold (w : World) (ts : list ReportType) :
  ts <> [] ->
  drained w ts
  = onSvc (setIsProcessing false)
      (drain w (length ts)
         (onSvc (setIsProcessing true)
            (takeImmediate (submitAll w ts initialMachine)))).
Proof.
  intros Hne.
  destruct (submitted_submitAll w ts 0 _ submitted_initial)
    as (Hp & Hlen & _).
  unfold drained, runImmediate, processQueue.
  cbn [svc takeImmediate]. rewrite Hp. cbn.
  rewrite bool_decide_eq_false_2.
  - cbn in Hlen. by rewrite Hlen.
  - intros Hq. rewrite Hq in Hlen. cbn in Hlen. by destruct ts.
Qed.





(** ** The status of a job, step by step *)

Lemma statuses_onJob (id : string) (F : JobData -> JobData)
    (h : JobStatus -> JobStatus) (m : Machine) :
  (forall j, status (F j) = h (status j)) ->
  statuses (onJob id F m) = alter h id (statuses m).
Proof. intros H. unfold statuses. cbn. by apply fmap_alter. Qed.

Lemma statuses_onJob_same (id : string) (F : JobData -> JobData) (m : Machine) :
  (forall j, status (F j) = status j) ->
  statuses (onJob id F m) = statuses m.
Proof.
  intros H. rewrite (statuses_onJob id F (fun x => x)) by done.
  by apply alter_id.
Qed.

Ltac same_statuses :=
  repeat first
    [ rewrite statuses_onJob_same by (intros; reflexivity)
    | progress change (statuses (bump ?x)) with (statuses x) ].

Lemma beginJob_view (w : World) (id : string) (m : Machine) :
  statuses (beginJob w id m) = alter (fun _ => processing) id (statuses m)
  /\ jobQueue (svc (beginJob w id m)) = jobQueue (svc m)
  /\ tick (beginJob w id m) = (2 + tick m)%nat.
Proof.
  split; [|done].
  cbv beta iota zeta delta [beginJob performanceNow processMemoryUsage].
  same_statuses. by apply statuses_onJob.
Qed.

Lemma processSingleReport_view (w : World) k id m r m' :
  processSingleReport w k id m = (r, m') ->
  statuses m' = statuses m
  /\ jobQueue (svc m') = jobQueue (svc m)
  /\ tick m' = S (tick m).
Proof.
  unfold processSingleReport, generateReport. intros [= _ <-].
  split; [|done].
  change (statuses (bump (logCall ?a ?b ?x))) with (statuses x).
  by apply statuses_onJob_same.
Qed.

Lemma finallyBlock_view (w : World) (id : string) (m : Machine) :
  statuses (finallyBlock w id m) = statuses m
  /\ jobQueue (svc (finallyBlock w id m)) = jobQueue (svc m)
  /\ tick (finallyBlock w id m) = (2 + tick m)%nat.
Proof.
  split; [|done].
  cbv beta iota zeta delta [finallyBlock performanceNow processMemoryUsage].
  by same_statuses.
Qed.

Lemma settle_view (w : World) (id : string) (r : option string) (m : Machine) :
  statuses (settle w id (r, m)).2
  = alter (fun _ => match r with None => completed | Some _ => failed end)
      id (statuses m)
  /\ jobQueue (svc (settle w id (r, m)).2) = jobQueue (svc m)
  /\ tick (settle w id (r, m)).2 = (2 + tick m)%nat.
Proof.
  destruct r as [msg|]; cbn [settle snd].
  - destruct (finallyBlock_view w id
                (onJob id (setErrorMessage msg)
                   (onJob id (setStatus failed) m))) as (-> & -> & ->).
    split; [|done]. rewrite statuses_onJob_same by done.
    by apply statuses_onJob.
  - destruct (finallyBlock_view w id (onJob id (setStatus completed) m))
      as (-> & -> & ->).
    split; [|done]. by apply statuses_onJob.
Qed.

Lemma catchInLoop_view (w : World) (msg id : string) (m : Machine) :
  statuses (catchInLoop w msg id m) = alter (fun _ => failed) id (statuses m)
  /\ jobQueue (svc (catchInLoop w msg id m)) = jobQueue (svc m)
  /\ tick (catchInLoop w msg id m) = S (tick m).
Proof.
  split; [|done].
  cbv beta iota zeta delta [catchInLoop performanceNow].
  same_statuses. by apply statuses_onJob.
Qed.

Lemma createJob_view (w : World) (t : ReportType) (m : Machine) :
  statuses (createJob w t m).2
  = <[randomUUID w (S (tick m)) := pending]> (statuses m)
  /\ jobQueue (svc (createJob w t m).2)
     = (jobQueue (svc m) ++ [randomUUID w (S (tick m))])%list
  /\ tick (createJob w t m).2 = (tick m + 4)%nat.
Proof.
  split; [|split; [apply createJob_queue|apply createJob_tick]].
  unfold statuses. rewrite createJob_jobs. by rewrite fmap_insert.
Qed.

Lemma cleanupOldJobs_view (w : World) (m : Machine) :
  (forall i x, statuses (cleanupOldJobs w m) !! i = Some x ->
               statuses m !! i = Some x)
  /\ jobQueue (svc (cleanupOldJobs w m)) = jobQueue (svc m)
  /\ tick (cleanupOldJobs w m) = S (tick m).
Proof.
  split; [|done]. intros i x. unfold statuses.
  rewrite !lookup_fmap, cleanupOldJobs_lookup.
  destruct (jobs (svc m) !! i) as [j|]; [|done].
  by destruct (expired _ j).
Qed.

Lemma issuedBefore_mono (w : World) (t t' : nat) (id : string) :
  issuedBefore w t id -> (t <= t')%nat -> issuedBefore w t' id.
Proof. intros (k & Hk & ->) Hle. exists k. split; [lia|done]. Qed.

Lemma onJobWith_frame (w : World) (id : string) (x : JobStatus)
    (m m' : Machine) :
  onJobWith w id x m ->
  statuses m' !! id = statuses m !! id ->
  jobQueue (svc m') = jobQueue (svc m) -> (tick m <= tick m')%nat ->
  onJobWith w id x m'.
Proof.
  intros (Hq & Hi & Hx) Hs Hq' Ht. unfold onJobWith.
  rewrite Hq', Hs. eauto using issuedBefore_mono.
Qed.

Lemma workerOk_frame (w : World) (p : Worker) (m m' : Machine) :
  workerOk w p m ->
  (forall id, statuses m' !! id = statuses m !! id) ->
  jobQueue (svc m') = jobQueue (svc m) -> (tick m <= tick m')%nat ->
  workerOk w p m'.
Proof.
  intros H Hs Hq Ht. destruct p; cbn in *; try done;
    try (by eapply onJobWith_frame).
  destruct H as [x H]. exists x. by eapply onJobWith_frame.
Qed.

(** A write of the status of a job that is not queued. *)
Lemma wellQueued_alter (w : World) (id : string)
    (h : JobStatus -> JobStatus) (m m' : Machine) :
  wellQueued w m ->
  statuses m' = alter h id (statuses m) ->
  jobQueue (svc m') = jobQueue (svc m) -> (tick m <= tick m')%nat ->
  id ∉ jobQueue (svc m) ->
  wellQueued w m'.
Proof.
  intros (H1 & H2 & H3 & H4) Hs Hq Ht Hid. unfold wellQueued.
  rewrite Hs, Hq. split_and!; [| |done|].
  - intros i Hi. apply (issuedBefore_mono w (tick m)); [|done].
    apply H1. destruct (decide (i = id)) as [->|Hne].
    + rewrite lookup_alter_eq in Hi. by apply fmap_is_Some in Hi.
    + by rewrite lookup_alter_ne in Hi.
  - intros i Hi. apply (issuedBefore_mono w (tick m)); [|done]. by apply H2.
  - intros i x Hi Hx. destruct (decide (i = id)) as [->|Hne]; [done|].
    rewrite lookup_alter_ne in Hx by done. by apply (H4 i).
Qed.

Lemma wellQueued_same (w : World) (m m' : Machine) :
  wellQueued w m ->
  statuses m' = statuses m ->
  jobQueue (svc m') = jobQueue (svc m) -> (tick m <= tick m')%nat ->
  wellQueued w m'.
Proof.
  intros (H1 & H2 & H3 & H4) Hs Hq Ht. unfold wellQueued.
  rewrite Hs, Hq. split_and!; [| |done|done];
    intros i Hi; apply (issuedBefore_mono w (tick m)); auto.
Qed.

Lemma wellQueued_dequeue (w : World) (id : string) (rest : list string)
    (m : Machine) :
  wellQueued w m -> jobQueue (svc m) = id :: rest ->
  wellQueued w (onSvc (setJobQueue rest) m)
  /\ onJobWith w id pending (onSvc (setJobQueue rest) m).
Proof.
  intros (H1 & H2 & H3 & H4) Hq. rewrite Hq in H2, H3, H4.
  apply NoDup_cons in H3 as [Hnin Hnd].
  unfold wellQueued, onJobWith.
  change (statuses (onSvc (setJobQueue rest) m)) with (statuses m).
  cbn [svc onSvc jobQueue setJobQueue tick].
  split_and!; try done.
  - intros i Hi. apply H2. by right.
  - intros i x Hi. apply H4. by right.
  - apply H2. by left.
  - intros y. apply H4. by left.
Qed.

Lemma consistent_initial (w : World) : consistent w (Idle, initialMachine).
Proof.
  split; [|done]. unfold wellQueued. cbn. split_and!.
  - intros id [x Hx]. unfold statuses in Hx. cbn in Hx.
    by rewrite fmap_empty, lookup_empty in Hx.
  - intros id Hin. by apply elem_of_nil in Hin.
  - constructor.
  - intros id x Hin. by apply elem_of_nil in Hin.
Qed.

Section FreshIdentifiers.

Variable w : World.

(** [randomUUID()] never returns the same identifier twice. *)
Hypothesis uuid_fresh : forall k k', randomUUID w k = randomUUID w k' -> k = k'.

Lemma not_yet_issued (t : nat) : ~ issuedBefore w t (randomUUID w (S t)).
Proof. intros (k & Hk & E). apply uuid_fresh in E. lia. Qed.

Lemma submit_consistent (t : ReportType) (p : Worker) (m : Machine) :
  consistent w (p, m) -> consistent w (p, (createJob w t m).2).
Proof.
  intros [(H1 & H2 & H3 & H4) Hp].
  destruct (createJob_view w t m) as (Hs & Hq & Ht).
  set (id0 := randomUUID w (S (tick m))) in *.
  assert (Hfresh := not_yet_issued (tick m)). fold id0 in Hfresh.
  assert (issuedBefore w (tick (createJob w t m).2) id0) as Hnew.
  { exists (S (tick m)). split; [lia|done]. }
  split; cbn [fst snd].
  - unfold wellQueued. rewrite Hs, Hq. split_and!.
    + intros i Hi. destruct (decide (i = id0)) as [->|Hne]; [done|].
      rewrite lookup_insert_ne in Hi by done.
      apply (issuedBefore_mono w (tick m)); [auto|lia].
    + intros i Hi. apply elem_of_app in Hi as [Hi|Hi].
      * apply (issuedBefore_mono w (tick m)); [auto|lia].
      * apply list_elem_of_singleton in Hi. by subst.
    + apply NoDup_app. split_and!; [done| |apply NoDup_singleton].
      intros i Hi Hi'. apply list_elem_of_singleton in Hi'. subst.
      by apply Hfresh, H2.
    + intros i x Hi Hx. destruct (decide (i = id0)) as [->|Hne].
      * rewrite lookup_insert_eq in Hx. by injection Hx.
      * rewrite lookup_insert_ne in Hx by done.
        apply elem_of_app in Hi as [Hi|Hi]; [by apply (H4 i)|].
        apply list_elem_of_singleton in Hi. done.
  - cbn [fst snd] in Hp.
    assert (forall id x, onJobWith w id x m ->
                         onJobWith w id x (createJob w t m).2) as Hkeep.
    { intros id x (Hq' & Hi & Hx).
      assert (id <> id0) as Hne by (intros ->; done).
      unfold onJobWith. rewrite Hs, Hq, lookup_insert_ne by done.
      split_and!; [|apply (issuedBefore_mono w (tick m)); [done|lia]|done].
      intros Hin. apply elem_of_app in Hin as [Hin|Hin]; [done|].
      by apply list_elem_of_singleton in Hin. }
    destruct p; cbn in *; auto.
    destruct Hp as [x Hp]. eauto.
Qed.

Lemma step_consistent (c c' : Worker * Machine) :
  step w c c' -> consistent w c -> consistent w c'.
Proof.
  intros Hstep. destruct Hstep; intros Hc.
  - by apply submit_consistent.
  - destruct Hc as [Hw _]. split; [|done]. by eapply wellQueued_same.
  - destruct Hc as [Hw Hp]. split.
    + by eapply wellQueued_same.
    + by eapply workerOk_frame.
  - destruct Hc as [Hw _]. split; [|done]. by eapply wellQueued_same.
  - destruct Hc as [Hw _]. split; [|done].
    by apply (wellQueued_dequeue w id rest m).
  - destruct Hc as [Hw _].
    destruct (wellQueued_dequeue w id rest m Hw H) as [Hw' (Hq & Hi & Hx)].
    destruct (beginJob_view w id (onSvc (setJobQueue rest) m))
      as (Hs & Hq' & Ht).
    split; cbn [fst snd].
    + eapply wellQueued_alter; [exact Hw'|exact Hs|exact Hq'|lia|exact Hq].
    + unfold workerOk, onJobWith. rewrite Hs, Hq', lookup_alter_eq.
      split_and!; [done|eapply issuedBefore_mono; [exact Hi|lia]|].
      intros y Hy. destruct (statuses _ !! id); by simplify_eq/=.
  - destruct Hc as [Hw Hp].
    destruct (processSingleReport_view w k id m None m' H) as (Hs & Hq & Ht).
    split; cbn [fst snd] in *.
    + eapply wellQueued_same; [exact Hw|done|done|lia].
    + eapply onJobWith_frame; [exact Hp|by rewrite Hs|done|lia].
  - destruct Hc as [Hw Hp].
    destruct (processSingleReport_view w k id m _ m' H) as (Hs & Hq & Ht).
    split; cbn [fst snd] in *.
    + eapply wellQueued_same; [exact Hw|done|done|lia].
    + eapply onJobWith_frame; [exact Hp|by rewrite Hs|done|lia].
  - destruct Hc as [Hw (Hq & Hi & Hx)].
    destruct (settle_view w id None m) as (Hs & Hq' & Ht).
    split; cbn [fst snd] in *.
    + eapply wellQueued_alter; [exact Hw|exact Hs|exact Hq'|lia|exact Hq].
    + exists completed. unfold onJobWith. rewrite Hs, Hq', lookup_alter_eq.
      split_and!; [done|eapply issuedBefore_mono; [exact Hi|lia]|].
      intros y Hy. destruct (statuses _ !! id); by simplify_eq/=.
  - destruct Hc as [Hw (Hq & Hi & Hx)].
    destruct (settle_view w id (Some msg) m) as (Hs & Hq' & Ht).
    split; cbn [fst snd] in *.
    + eapply wellQueued_alter; [exact Hw|exact Hs|exact Hq'|lia|exact Hq].
    + unfold workerOk, onJobWith. rewrite Hs, Hq', lookup_alter_eq.
      split_and!; [done|eapply issuedBefore_mono; [exact Hi|lia]|].
      intros y Hy. destruct (statuses _ !! id); by simplify_eq/=.
  - destruct Hc as [Hw (Hq & Hi & Hx)].
    destruct (catchInLoop_view w msg id m) as (Hs & Hq' & Ht).
    split; cbn [fst snd] in *.
    + eapply wellQueued_alter; [exact Hw|exact Hs|exact Hq'|lia|exact Hq].
    + exists failed. unfold onJobWith. rewrite Hs, Hq', lookup_alter_eq.
      split_and!; [done|eapply issuedBefore_mono; [exact Hi|lia]|].
      intros y Hy. destruct (statuses _ !! id); by simplify_eq/=.
  - destruct Hc as [Hw _]. split; [|done]. by eapply wellQueued_same.
  - destruct Hc as [(H1 & H2 & H3 & H4) _].
    destruct (cleanupOldJobs_view w m) as (Hs & Hq & Ht).
    split; [|done]. unfold wellQueued. cbn [fst snd]. rewrite Hq, Ht.
    split_and!; [| |done|].
    + intros i [x Hx]. apply (issuedBefore_mono w (tick m)); [|lia].
      apply H1. exists x. by apply Hs.
    + intros i Hi. apply (issuedBefore_mono w (tick m)); [auto|lia].
    + intros i x Hi Hx. apply (H4 i); [done|by apply Hs].
Qed.

Lemma reachable_consistent (c : Worker * Machine) :
  reachable w c -> consistent w c.
Proof.
  unfold reachable. revert c.
  apply (rtc_ind_r (R := step w) (consistent w) (Idle, initialMachine)).
  - apply consistent_initial.
  - intros y z _ Hstep Hy. by apply (step_consistent y z).
Qed.

Lemma legal_alter (id0 : string) (y : JobStatus)
    (s s' : gmap string JobStatus) :
  s' = alter (fun _ => y) id0 s ->
  (forall a, s !! id0 = Some a -> legal a y) ->
  forall id a b, s !! id = Some a -> s' !! id = Some b -> legal a b.
Proof.
  intros -> Hy id a b Ha Hb. destruct (decide (id = id0)) as [->|Hne].
  - rewrite lookup_alter_eq, Ha in Hb. injection Hb as <-. by apply Hy.
  - rewrite lookup_alter_ne, Ha in Hb by done. injection Hb as <-. by left.
Qed.

Lemma legal_same (s s' : gmap string JobStatus) :
  s' = s ->
  forall id a b, s !! id = Some a -> s' !! id = Some b -> legal a b.
Proof. intros -> id a b Ha Hb. rewrite Ha in Hb. injection Hb as <-. by left. Qed.

Lemma step_legal (c c' : Worker * Machine) :
  step w c c' -> consistent w c ->
  forall id a b,
    statuses c.2 !! id = Some a -> statuses c'.2 !! id = Some b -> legal a b.
Proof.
  intros Hstep. destruct Hstep; intros [Hw Hp]; cbn [fst snd] in *;
    try (by apply legal_same).
  - destruct (createJob_view w t m) as (Hs & _).
    intros id a b Ha Hb. rewrite Hs in Hb.
    destruct Hw as (H1 & _).
    destruct (decide (id = randomUUID w (S (tick m)))) as [->|Hne].
    + exfalso. apply (not_yet_issued (tick m)). apply H1. by exists a.
    + rewrite lookup_insert_ne, Ha in Hb by done. injection Hb as <-.
      by left.
  - destruct (wellQueued_dequeue w id rest m Hw H) as [_ (_ & _ & Hx)].
    destruct (beginJob_view w id (onSvc (setJobQueue rest) m)) as (Hs & _).
    eapply legal_alter; [exact Hs|].
    intros a Ha. apply Hx in Ha as ->. right. by left.
  - destruct (processSingleReport_view w k id m None m' H) as (Hs & _).
    by apply legal_same.
  - destruct (processSingleReport_view w k id m _ m' H) as (Hs & _).
    by apply legal_same.
  - destruct (settle_view w id None m) as (Hs & _).
    destruct Hp as (_ & _ & Hx).
    eapply legal_alter; [exact Hs|].
    intros a Ha. apply Hx in Ha as ->. right. right. split; [done|by left].
  - destruct (settle_view w id (Some msg) m) as (Hs & _).
    destruct Hp as (_ & _ & Hx).
    eapply legal_alter; [exact Hs|].
    intros a Ha. apply Hx in Ha as ->. right. right. split; [done|by right].
  - destruct (catchInLoop_view w msg id m) as (Hs & _).
    destruct Hp as (_ & _ & Hx).
    eapply legal_alter; [exact Hs|].
    intros a Ha. apply Hx in Ha as ->. by left.
  - destruct (cleanupOldJobs_view w m) as (Hs & _).
    intros id a b Ha Hb. apply Hs in Hb. rewrite Ha in Hb.
    injection Hb as <-. by left.
Qed.

Lemma step_tick (c c' : Worker * Machine) :
  step w c c' -> (tick c.2 <= tick c'.2)%nat.
Proof.
  intros Hstep. destruct Hstep; cbn [fst snd];
    try (cbn; lia);
    try (rewrite createJob_tick; lia);
    try (destruct (processSingleReport_view _ _ _ _ _ _ H) as (_ & _ & ->);
         lia);
    match goal with
    | |- context [settle w ?id (?r, ?m)] =>
        destruct (settle_view w id r m) as (_ & _ & ->); lia
    end.
Qed.

(** An identifier that was drawn and whose record is gone stays without a
    record. *)
Lemma step_absent (c c' : Worker * Machine) (id : string) :
  step w c c' -> consistent w c ->
  issuedBefore w (tick c.2) id -> statuses c.2 !! id = None ->
  statuses c'.2 !! id = None.
Proof.
  intros Hstep. destruct Hstep; intros [Hw Hp] Hi Hnone;
    cbn [fst snd] in *; try done.
  - destruct (createJob_view w t m) as (-> & _).
    rewrite lookup_insert_ne; [done|]. intros <-.
    by apply (not_yet_issued (tick m)).
  - destruct (beginJob_view w id0 (onSvc (setJobQueue rest) m)) as (-> & _).
    by apply lookup_alter_None.
  - by destruct (processSingleReport_view w k id0 m None m' H) as (-> & _).
  - by destruct (processSingleReport_view w k id0 m _ m' H) as (-> & _).
  - destruct (settle_view w id0 None m) as (-> & _).
    by apply lookup_alter_None.
  - destruct (settle_view w id0 (Some msg) m) as (-> & _).
    by apply lookup_alter_None.
  - destruct (catchInLoop_view w msg id0 m) as (-> & _).
    by apply lookup_alter_None.
  - destruct (cleanupOldJobs_view w m) as (Hs & _).
    destruct (statuses (cleanupOldJobs w m) !! id) as [x|] eqn:E; [|done].
    apply Hs in E. congruence.
Qed.

Lemma legal_terminal (a b : JobStatus) :
  legal a b -> a = completed \/ a = failed -> b = a.
Proof.
  intros [->|[[-> _]|[-> _]]] [?|?]; done.
Qed.

Lemma terminal_is_final (c c' : Worker * Machine) (id : string)
    (a : JobStatus) :
  rtc (step w) c c' -> consistent w c ->
  statuses c.2 !! id = Some a -> a = completed \/ a = failed ->
  statuses c'.2 !! id = Some a \/ statuses c'.2 !! id = None.
Proof.
  intros Hrun Hc Ha Hterm.
  assert (issuedBefore w (tick c.2) id) as Hi.
  { destruct Hc as [(H1 & _) _]. apply H1. by exists a. }
  assert (statuses c.2 !! id = Some a \/ statuses c.2 !! id = None) as Hor
    by (by left).
  clear Ha. induction Hrun as [c|c c1 c' Hstep Hrun IH]; [done|].
  apply IH.
  - by apply (step_consistent c c1).
  - apply (issuedBefore_mono w (tick c.2)); [done|by apply step_tick].
  - destruct Hor as [Ha|Hnone].
    + destruct (statuses c1.2 !! id) as [b|] eqn:E; [left|by right].
      f_equal. apply legal_terminal; [|done].
      by apply (step_legal c c1 Hstep Hc id).
    + right. by apply (step_absent c c1).
Qed.

End FreshIdentifiers.

Lemma isTerminal_status (j : JobData) :
  isTerminal j = true <-> status j = completed \/ status j = failed.
Proof.
  unfold isTerminal, hasStatus.
  by rewrite orb_true_iff, !bool_decide_eq_true.
Qed.

Lemma statuses_lookup (m : Machine) (id : string) :
  statuses m !! id = status <$> getJobStatus id (svc m).
Proof. unfold statuses, getJobStatus. by rewrite lookup_fmap. Qed.

(** C4.  A job is created [pending].  In every step of the program, from
    any state it can reach, the status of a record either stays what it
    is, or goes from [pending] to [processing], or from [processing] to
    [completed] or [failed]: nothing takes a job from [pending] to a
    terminal status, and nothing changes a terminal status.  So a record
    found [completed] or [failed] has that same status whenever it is
    found again.  Identifiers drawn by [randomUUID()] are distinct. *)
Theorem status_follows_state_machine (w : World) :
  (forall k k', randomUUID w k = randomUUID w k' -> k = k') ->
  (forall t m,
     exists job,
       getJobStatus (createJob w t m).1.1 (svc (createJob w t m).2) = Some job
       /\ status job = pending)
  /\ (forall c c', reachable w c -> step w c c' ->
      forall id job job',
        getJobStatus id (svc c.2) = Some job ->
        getJobStatus id (svc c'.2) = Some job' ->
        legal (status job) (status job'))
  /\ (forall c c', reachable w c -> rtc (step w) c c' ->
      forall id job job',
        getJobStatus id (svc c.2) = Some job -> isTerminal job = true ->
        getJobStatus id (svc c'.2) = Some job' ->
        status job' = status job).
Proof.
  intros Hfresh. split_and!.
  - intros t m. eexists. unfold getJobStatus.
    rewrite createJob_id, createJob_jobs, lookup_insert_eq. done.
  - intros c c' Hreach Hstep id job job' Hj Hj'.
    apply (step_legal w Hfresh c c' Hstep
             (reachable_consistent w Hfresh c Hreach) id).
    + by rewrite statuses_lookup, Hj.
    + by rewrite statuses_lookup, Hj'.
  - intros c c' Hreach Hrun id job job' Hj Hterm Hj'.
    apply isTerminal_status in Hterm.
    destruct (terminal_is_final w Hfresh c c' id (status job) Hrun)
      as [H|H]; [by apply reachable_consistent| |done| |].
    + by rewrite statuses_lookup, Hj.
    + rewrite statuses_lookup, Hj' in H. by injection H.
    + by rewrite statuses_lookup, Hj' in H.
Qed.

Lemma unaryId_inj (k k' : nat) : unaryId k = unaryId k' -> k = k'.
Proof.
  revert k'. induction k as [|k IH]; intros [|k'] H; cbn in H;
    try done; try discriminate H.
  f_equal. apply IH. by injection H.
Qed.

Lemma status_follows_state_machine_witness : legal pending processing.
Proof.
  pose (m1 := (createJob calmWorld (single accounts) initialMachine).2).
  pose (m2 := onSvc (setIsProcessing true) (takeImmediate m1)).
  pose (job := newJob "fjob" (single accounts) (ofNat 3) 0).
  pose (job' :=
    setMetrics {| processingTime := None;
                  memoryUsage := Some {| before := zeroMemory;
                                         after := zeroMemory; peak := 0 |};
                  concurrentJobs := Some 1%nat |}
      (setStarted (ofNat 5) (setStatus processing job))).
  assert (reachable calmWorld (AtLoop, m2)) as Hreach.
  { eapply rtc_l; [apply (step_submit calmWorld (single accounts))|].
    eapply rtc_l; [|apply rtc_refl].
    apply step_start; [vm_compute; lia|reflexivity|discriminate]. }
  assert (step calmWorld (AtLoop, m2)
            (Awaiting "fjob" (reportsOf (type job)),
             beginJob calmWorld "fjob" (onSvc (setJobQueue []) m2)))
    as Hstep.
  { apply (step_begin calmWorld m2 "fjob" [] job); vm_compute; reflexivity. }
  apply (proj1 (proj2 (status_follows_state_machine calmWorld unaryId_inj))
           _ _ Hreach Hstep "fjob" job job'); vm_compute; reflexivity.
Defined.

(** ** The loop as a run of the worker *)

Lemma runReports_runList (w : World) (id : string) (m : Machine)
    (job : JobData) :
  jobs (svc m) !! id = Some job ->
  runReports w id m = runList w (reportsOf (type job)) id m.
Proof.
  intros Hj. unfold runReports, typeOf. rewrite Hj. cbn [fmap option_fmap option_map].
  destruct (type job) as [k|]; cbn [reportsOf runList];
    unfold processAllReports, andThen.
  - by destruct (processSingleReport w k id m) as [[msg|] m'].
  - destruct (processSingleReport w accounts id m) as [[msg|] m1]; [done|].
    destruct (processSingleReport w yearly id m1) as [[msg|] m2]; [done|].
    by destruct (processSingleReport w fs id m2) as [[msg|] m3].
Qed.

Lemma runList_steps (w : World) (id : string) (ks : list ConcreteType) :
  forall m,
  rtc (step w) (Awaiting id ks, m)
    (match (runList w ks id m).1 with
     | None => Awaiting id []
     | Some msg => Rejected id msg
     end, (runList w ks id m).2).
Proof.
  induction ks as [|k ks IH]; intros m; cbn [runList]; [apply rtc_refl|].
  unfold andThen.
  destruct (processSingleReport w k id m) as [[msg|] m'] eqn:E; cbn [fst snd].
  - apply rtc_once. by apply step_report_throw.
  - eapply rtc_l; [by apply step_report_ok|]. apply IH.
Qed.

Lemma beginJob_lookup_type (w : World) (id : string) (m : Machine)
    (job : JobData) :
  jobs (svc m) !! id = Some job ->
  exists job', jobs (svc (beginJob w id m)) !! id = Some job'
               /\ type job' = type job.
Proof.
  intros Hj. run_job. rewrite ?lookup_alter_eq, Hj. cbn. eauto.
Qed.

Lemma tryProcessJob_steps (w : World) (id : string) (m : Machine)
    (job : JobData) :
  jobs (svc m) !! id = Some job ->
  rtc (step w) (Awaiting id (reportsOf (type job)), beginJob w id m)
    (Finished id, tryProcessJob w id m).
Proof.
  intros Hj.
  destruct (beginJob_lookup_type w id m job Hj) as (job' & Hj' & Ht).
  unfold tryProcessJob, processJob.
  rewrite (runReports_runList w id _ job' Hj'), Ht.
  pose proof (runList_steps w id (reportsOf (type job)) (beginJob w id m))
    as Hrun.
  destruct (runList w (reportsOf (type job)) id (beginJob w id m))
    as [[msg|] m'] eqn:E; cbn [fst snd] in Hrun.
  - eapply rtc_trans; [exact Hrun|].
    eapply rtc_l; [apply step_fail|]. apply rtc_once.
    cbn [settle snd]. apply step_catch.
  - eapply rtc_trans; [exact Hrun|]. apply rtc_once.
    apply (step_complete w m' id).
Qed.

Lemma processNext_steps (w : World) (id : string) (rest : list string)
    (m : Machine) :
  jobQueue (svc m) = id :: rest ->
  rtc (step w) (AtLoop, m)
    (AtLoop, processNext w id (onSvc (setJobQueue rest) m)).
Proof.
  intros Hq. destruct (jobs (svc m) !! id) as [job|] eqn:Hj.
  - rewrite processNext_present by (cbn; rewrite Hj; eauto).
    eapply rtc_l; [by apply (step_begin w m id rest job)|].
    eapply rtc_trans; [by apply tryProcessJob_steps|].
    eapply rtc_l; [apply step_metrics|]. apply rtc_once. apply step_sweep.
  - rewrite processNext_absent by done. apply rtc_once.
    by apply (step_skip w m id rest).
Qed.

Lemma drain_steps (w : World) (fuel : nat) :
  forall m, rtc (step w) (AtLoop, m) (AtLoop, drain w fuel m).
Proof.
  induction fuel as [|fuel IH]; intros m; cbn [drain]; [apply rtc_refl|].
  destruct (jobQueue (svc m)) as [|id rest] eqn:Hq; [apply rtc_refl|].
  eapply rtc_trans; [by apply processNext_steps|]. apply IH.
Qed.

Lemma drain_queue_empty (w : World) (fuel : nat) :
  forall m, (length (jobQueue (svc m)) <= fuel)%nat ->
            jobQueue (svc (drain w fuel m)) = [].
Proof.
  induction fuel as [|fuel IH]; intros m Hlen; cbn [drain].
  - destruct (jobQueue (svc m)); [done|cbn in Hlen; lia].
  - destruct (jobQueue (svc m)) as [|id rest] eqn:Hq; [done|].
    apply IH. rewrite processNext_queue. cbn. cbn in Hlen. lia.
Qed.

(** Run by the event loop, [processQueue] is a run of the worker that
    starts and ends idle. *)
Lemma runImmediate_steps (w : World) (m : Machine) :
  (0 < immediates m)%nat ->
  rtc (step w) (Idle, m) (Idle, runImmediate w m).
Proof.
  intros Him. unfold runImmediate, processQueue. cbn [svc takeImmediate].
  destruct (isProcessing (svc m)) eqn:Hp; cbn [orb].
  { apply rtc_once. apply step_return; [done|by left]. }
  destruct (bool_decide (jobQueue (svc m) = [])) eqn:Hq.
  { apply bool_decide_eq_true in Hq. apply rtc_once.
    apply step_return; [done|by right]. }
  apply bool_decide_eq_false in Hq.
  eapply rtc_l; [by apply step_start|].
  eapply rtc_trans; [apply (drain_steps w (length (jobQueue (svc m))))|].
  apply rtc_once. apply step_exit. by apply drain_queue_empty.
Qed.

Lemma submitAll_steps (w : World) (ts : list ReportType) (p : Worker) :
  forall m, rtc (step w) (p, m) (p, submitAll w ts m).
Proof.
  induction ts as [|t ts IH]; intros m; cbn; [apply rtc_refl|].
  eapply rtc_l; [apply (step_submit w t)|]. apply IH.
Qed.

Lemma createJob_immediates (w : World) (t : ReportType) (m : Machine) :
  isProcessing (svc m) = false ->
  immediates (createJob w t m).2 = S (immediates m).
Proof. intros Hp. unfold createJob. simpl. by rewrite Hp. Qed.

Lemma submitAll_immediates (w : World) (ts : list ReportType) :
  forall m, isProcessing (svc m) = false ->
            immediates (submitAll w ts m) = (immediates m + length ts)%nat.
Proof.
  induction ts as [|t ts IH]; intros m Hp; [cbn; lia|].
  change (submitAll w (t :: ts) m) with (submitAll w ts (createJob w t m).2).
  rewrite IH by (by rewrite createJob_isProcessing). cbn [length].
  rewrite createJob_immediates by done. lia.
Qed.

(** The state reached by a batch of submissions followed by the loop is a
    state of the step-by-step program. *)
Lemma drained_reachable (w : World) (ts : list ReportType) :
  ts <> [] -> reachable w (Idle, drained w ts).
Proof.
  intros Hne. unfold reachable, drained.
  apply rtc_trans with (Idle, submitAll w ts initialMachine);
    [apply submitAll_steps|].
  apply runImmediate_steps.
  rewrite submitAll_immediates; [|reflexivity].
  destruct ts; [done|cbn; lia].
Qed.

(** ** The shape of the records in every reachable state *)

Lemma statuses_of_job (m : Machine) (id : string) (j : JobData) :
  jobs (svc m) !! id = Some j -> statuses m !! id = Some (status j).
Proof. intros H. unfold statuses. by rewrite lookup_fmap, H. Qed.

Lemma reportsOf_nonempty (t : ReportType) : reportsOf t <> [].
Proof. by destruct t. Qed.

Lemma shaped_initial : shaped (Idle, initialMachine).
Proof.
  split_and!; cbn; try done.
  intros id Hin. by apply elem_of_nil in Hin.
Qed.

(** Reading the record of [id0] after writes through the reference to the
    job [id]. *)
Ltac open_record Hx i id Hj :=
  cbn [fst snd svc onJob onSvc bump jobs setJobs setJobQueue tick logCall
       generated Nat.add] in Hx;
  destruct (decide (i = id)) as [->|?];
  [ rewrite ?lookup_alter_eq, ?Hj in Hx; cbn in Hx; injection Hx as <-
  | rewrite ?lookup_alter_ne in Hx by done ].

Ltac run_step :=
  run_job; cbn [svc onSvc jobs setJobs setJobQueue jobQueue].

Section Shapes.

Variable w : World.

Hypothesis uuid_fresh : forall k k', randomUUID w k = randomUUID w k' -> k = k'.

Lemma step_shaped (c c' : Worker * Machine) :
  step w c c' -> consistent w c -> shaped c -> shaped c'.
Proof.
  intros Hstep. destruct Hstep; intros [Hw Hp] (Hrec & Hwr & Hqp);
    unfold shaped; cbn [fst snd] in *.
  - (* a submission *)
    destruct Hw as (H1 & H2 & _).
    assert (Hfresh := not_yet_issued w uuid_fresh (tick m)).
    set (id0 := randomUUID w (S (tick m))) in *.
    rewrite createJob_jobs, createJob_queue. fold id0. split_and!.
    + intros i x Hx. destruct (decide (i = id0)) as [->|Hne].
      * rewrite lookup_insert_eq in Hx. injection Hx as <-. by split_and!.
      * rewrite lookup_insert_ne in Hx by done. by apply Hrec.
    + assert (forall id, issuedBefore w (tick m) id ->
                <[id0:=newJob id0 t (now w (S (S (tick m))))
                         (length (jobQueue (svc m)))]> (jobs (svc m)) !! id
                = jobs (svc m) !! id) as Hkeep.
      { intros id Hi. apply lookup_insert_ne. by intros <-. }
      assert (forall id x, onJobWith w id x m -> issuedBefore w (tick m) id)
        as Hiss by (by intros id x (_ & ? & _)).
      destruct p; cbn [workerRecord workerOk] in *; try done.
      4: destruct Hp as [x Hp].
      all: apply Hiss in Hp; destruct Hwr as (j & Hj & ?); exists j;
        rewrite ?createJob_jobs; fold id0; by rewrite Hkeep.
    + intros i Hi. apply elem_of_app in Hi as [Hi|Hi].
      * rewrite lookup_insert_ne; [by apply Hqp|].
        intros <-. by apply Hfresh, H2.
      * apply list_elem_of_singleton in Hi as ->.
        rewrite lookup_insert_eq. eauto.
  - done.
  - done.
  - done.
  - split_and!; [done|done|]. intros i Hi. apply Hqp. rewrite H. by right.
  - (* the job leaves the queue and is started *)
    destruct Hw as (_ & _ & Hnd & H4). rewrite H in Hnd, H4.
    apply NoDup_cons in Hnd as [Hnin _].
    assert (status job = pending) as Hst.
    { apply (H4 id); [by left|by apply statuses_of_job]. }
    destruct (Hrec id job H0) as (Hid & Hpend). rewrite Hst in Hpend.
    destruct Hpend as (Hs & Hc & Hpt & Hrp & Hem).
    split_and!.
    + intros i x Hx. unfold beginJob, performanceNow, processMemoryUsage in Hx.
      open_record Hx i id H0; [|by apply Hrec].
      split; [done|]. cbn. by split_and!.
    + cbn [workerRecord]. run_step. rewrite ?lookup_alter_eq, H0. cbn.
      eexists. split; [reflexivity|]. right. apply reportsOf_nonempty.
    + intros i Hi. run_step.
      destruct (decide (i = id)) as [->|Hne]; [done|].
      rewrite ?lookup_alter_ne by done. apply Hqp. rewrite H. by right.
  - (* a routine returns *)
    destruct Hwr as (j & Hj & _). destruct Hp as (_ & _ & Hx).
    assert (status j = processing) as Hst
      by (by apply Hx, statuses_of_job).
    destruct (Hrec id j Hj) as (Hid & Hproc). rewrite Hst in Hproc.
    unfold processSingleReport, generateReport in H. injection H as _ <-.
    split_and!.
    + intros i x Hx'. open_record Hx' i id Hj; [|by apply Hrec].
      split; [done|]. cbn. by rewrite Hst.
    + cbn [workerRecord]. run_step. rewrite lookup_alter_eq, Hj. cbn.
      eexists. split; [reflexivity|]. left. cbn.
      intros E. by apply app_eq_nil in E as [_ ?].
    + intros i Hi. run_step. apply lookup_alter_is_Some. by apply Hqp.
  - (* a routine throws *)
    destruct Hwr as (j & Hj & _). destruct Hp as (_ & _ & Hx).
    assert (status j = processing) as Hst
      by (by apply Hx, statuses_of_job).
    destruct (Hrec id j Hj) as (Hid & Hproc). rewrite Hst in Hproc.
    unfold processSingleReport, generateReport in H. injection H as _ <-.
    split_and!.
    + intros i x Hx'. open_record Hx' i id Hj; [|by apply Hrec].
      split; [done|]. cbn. by rewrite Hst.
    + cbn [workerRecord]. run_step. rewrite lookup_alter_eq, Hj. cbn.
      eexists. split; [reflexivity|]. cbn.
      intros E. by apply app_eq_nil in E as [_ ?].
    + intros i Hi. run_step. apply lookup_alter_is_Some. by apply Hqp.
  - (* all routines returned *)
    destruct Hwr as (j & Hj & [Hrp|?]); [|done].
    destruct Hp as (_ & _ & Hx).
    assert (status j = processing) as Hst
      by (by apply Hx, statuses_of_job).
    destruct (Hrec id j Hj) as (Hid & Hproc). rewrite Hst in Hproc.
    destruct Hproc as ([s Hs] & Hc & Hpt & Hem).
    split_and!.
    + intros i x Hx'. unfold settle, finallyBlock, performanceNow,
        processMemoryUsage in Hx'.
      open_record Hx' i id Hj; [|by apply Hrec].
      split; [done|]. cbn. rewrite Hs. split_and!; eauto.
    + cbn [workerRecord]. run_step. rewrite ?lookup_alter_eq, Hj. cbn.
      eexists. split; [reflexivity|]. done.
    + intros i Hi. run_step. rewrite ?lookup_alter_is_Some. by apply Hqp.
  - (* the catch of processJob and its finally block *)
    destruct Hwr as (j & Hj & Hrp). destruct Hp as (_ & _ & Hx).
    assert (status j = processing) as Hst
      by (by apply Hx, statuses_of_job).
    destruct (Hrec id j Hj) as (Hid & Hproc). rewrite Hst in Hproc.
    destruct Hproc as ([s Hs] & Hc & Hpt & Hem).
    split_and!.
    + intros i x Hx'. unfold settle, finallyBlock, performanceNow,
        processMemoryUsage in Hx'.
      open_record Hx' i id Hj; [|by apply Hrec].
      split; [done|]. cbn. rewrite Hs. split_and!; eauto.
    + cbn [workerRecord]. run_step. rewrite ?lookup_alter_eq, Hj. cbn.
      eexists. split; [reflexivity|]. done.
    + intros i Hi. run_step. rewrite ?lookup_alter_is_Some. by apply Hqp.
  - (* the catch of the loop *)
    destruct Hwr as (j & Hj & Hem). destruct Hp as (_ & _ & Hx).
    assert (status j = failed) as Hst
      by (by apply Hx, statuses_of_job).
    destruct (Hrec id j Hj) as (Hid & Hfail). rewrite Hst in Hfail.
    destruct Hfail as (Hs & Hc & Hpt & Hrp & Hem').
    split_and!.
    + intros i x Hx'. unfold catchInLoop, performanceNow in Hx'.
      open_record Hx' i id Hj; [|by apply Hrec].
      split; [done|]. cbn. split_and!; eauto.
    + cbn [workerRecord]. run_step. rewrite ?lookup_alter_eq, Hj. cbn.
      eexists. split; [reflexivity|]. done.
    + intros i Hi. run_step. rewrite ?lookup_alter_is_Some. by apply Hqp.
  - done.
  - (* the sweep *)
    destruct Hw as (_ & _ & _ & H4).
    split_and!; [|done|].
    + intros i x Hx. rewrite cleanupOldJobs_lookup in Hx.
      destruct (jobs (svc m) !! i) as [j|] eqn:Hj; [|done].
      destruct (expired _ j); [done|]. injection Hx as <-. by apply Hrec.
    + intros i Hi. change (jobQueue (svc (cleanupOldJobs w m)))
        with (jobQueue (svc m)) in Hi.
      destruct (Hqp i Hi) as [j Hj]. rewrite cleanupOldJobs_lookup, Hj.
      assert (status j = pending) as Hst
        by (by apply (H4 i), statuses_of_job).
      destruct (Hrec i j Hj) as (_ & Hpend). rewrite Hst in Hpend.
      destruct Hpend as (_ & Hc & _).
      unfold expired. rewrite Hc. eauto.
Qed.

Lemma reachable_shaped (c : Worker * Machine) : reachable w c -> shaped c.
Proof.
  intros Hreach.
  cut (consistent w c /\ shaped c); [by intros [_ ?]|].
  revert c Hreach.
  apply (rtc_ind_r (R := step w) (fun c => consistent w c /\ shaped c)
           (Idle, initialMachine)).
  - split; [apply consistent_initial|apply shaped_initial].
  - intros y z _ Hstep [Hc Hs]. split.
    + by apply (step_consistent w uuid_fresh y z).
    + by apply (step_shaped y z).
Qed.

End Shapes.

(** ** The aggregate in every reachable state *)

Lemma ofZ_le (a b : Z) : (a <= b)%Z -> ofZ a <= ofZ b.
Proof.
  intros H. unfold Qcle, ofZ. cbn [this Q2Qc]. rewrite !Qred_correct.
  by rewrite <- Zle_Qle.
Qed.

Lemma ofZ_lt (a b : Z) : (a < b)%Z -> ofZ a < ofZ b.
Proof.
  intros H. unfold Qclt, ofZ. cbn [this Q2Qc]. rewrite !Qred_correct.
  by rewrite <- Zlt_Qlt.
Qed.

Lemma rate_bounds (c n : nat) :
  (c <= n)%nat ->
  0 <= ofNat c / ofNat n * ofZ 100 /\ ofNat c / ofNat n * ofZ 100 <= ofZ 100.
Proof.
  intros Hcn. destruct n as [|n].
  - assert (c = 0%nat) as -> by lia.
    assert (ofNat 0 / ofNat 0 * ofZ 100 = 0) as -> by (by apply Qc_is_canon).
    split; [done|]. by apply (ofZ_le 0 100).
  - assert (0 < ofNat (S n)) as Hpos by (apply (ofZ_lt 0); lia).
    assert (0 <= ofNat c) as Hc by (apply (ofZ_le 0); lia).
    assert (ofNat c <= ofNat (S n)) as Hle by (apply ofZ_le; lia).
    assert (0 < ofZ 100) as H100 by (by apply (ofZ_lt 0)).
    assert (ofNat (S n) <> 0) as Hne.
    { intros E. rewrite E in Hpos. by apply Qclt_not_eq in Hpos. }
    split.
    + apply (Qcmult_lt_0_le_reg_r _ _ (ofNat (S n))); [done|].
      replace (0 * ofNat (S n)) with (0 * ofZ 100) by ring.
      replace (ofNat c / ofNat (S n) * ofZ 100 * ofNat (S n))
        with (ofNat c * ofZ 100) by (field; done).
      apply Qcmult_le_compat_r; [done|]. by apply Qclt_le_weak.
    + apply (Qcmult_lt_0_le_reg_r _ _ (ofNat (S n))); [done|].
      replace (ofNat c / ofNat (S n) * ofZ 100 * ofNat (S n))
        with (ofNat c * ofZ 100) by (field; done).
      rewrite !(Qcmult_comm _ (ofZ 100)).
      apply Qcmult_le_mono_nonneg_l; [by apply Qclt_le_weak|done].
Qed.

Lemma rateOver_bounds (l : list JobData) :
  0 <= rateOver l /\ rateOver l <= ofZ 100.
Proof. unfold rateOver. apply rate_bounds. lia. Qed.

Lemma statuses_size (m : Machine) : size (statuses m) = size (jobs (svc m)).
Proof. unfold statuses. apply map_size_fmap. Qed.

Lemma alter_size (h : JobStatus -> JobStatus) (id : string)
    (s : gmap string JobStatus) :
  size (alter h id s) = size s.
Proof. by rewrite <- !(size_dom (D := gset string)), dom_alter_L. Qed.

Lemma metricsOk_initial : metricsOk (Idle, initialMachine).
Proof.
  unfold metricsOk. cbn [fst snd svc initialMachine initialService jobs
    systemMetrics isProcessing store concurrentProcessingCapability
    legacyComparisonData successRate memoryEfficiency].
  split_and!; try done.
  eexists. split; [apply lookup_singleton_eq|]. done.
Qed.

(** A step that only writes job records, or nothing, and keeps the worker
    in the loop. *)
Lemma metricsOk_frame (p p' : Worker) (m m' : Machine) :
  metricsOk (p, m) ->
  size (statuses m') = size (statuses m) ->
  systemMetrics (svc m') = systemMetrics (svc m) ->
  store (svc m') = store (svc m) ->
  isProcessing (svc m') = isProcessing (svc m) ->
  (p <> Idle <-> p' <> Idle) ->
  metricsOk (p', m').
Proof.
  unfold metricsOk. cbn [fst snd].
  intros (H1 & H2 & H3 & H4 & [H5 H5'] & H6) Hsize Hsm Hst Hip Hpp.
  rewrite !statuses_size in Hsize. rewrite Hsize, Hsm, Hst, Hip.
  split_and!; try done. by rewrite H2.
Qed.

Lemma step_metricsOk (w : World) (c c' : Worker * Machine) :
  step w c c' -> metricsOk c -> metricsOk c'.
Proof.
  intros Hstep. destruct Hstep; intros Hok.
  - (* a submission *)
    destruct Hok as (G1 & G2 & G3 & (l & Hl & Hsync & Hasync) & [G5 G5'] & G6).
    cbn [fst snd] in *. unfold metricsOk. cbn [fst snd].
    rewrite createJob_isProcessing, createJob_jobs.
    unfold createJob. simpl.
    destruct (isProcessing (svc m)) eqn:E; simpl; rewrite G3;
      (split_and!; try done; try lia;
       eexists; split; [rewrite lookup_alter_eq, Hl; reflexivity|];
       cbn; split; [exact Hsync|reflexivity]).
  - destruct Hok as (G1 & G2 & G3 & G4 & [G5 G5'] & G6). unfold metricsOk.
    cbn in *. split_and!; try done.
  - by eapply metricsOk_frame.
  - destruct Hok as (G1 & G2 & G3 & G4 & [G5 G5'] & G6). unfold metricsOk.
    cbn in *. split_and!; try done.
  - by eapply metricsOk_frame.
  - destruct (beginJob_view w id (onSvc (setJobQueue rest) m)) as (Hs & _).
    eapply metricsOk_frame; [exact Hok| |done|done|done|done].
    by rewrite Hs, alter_size.
  - destruct (processSingleReport_view w k id m None m' H) as (Hs & _).
    unfold processSingleReport, generateReport in H. injection H as _ <-.
    eapply metricsOk_frame; [exact Hok|by rewrite Hs|done|done|done|done].
  - destruct (processSingleReport_view w k id m _ m' H) as (Hs & _).
    unfold processSingleReport, generateReport in H. injection H as _ <-.
    eapply metricsOk_frame; [exact Hok|by rewrite Hs|done|done|done|done].
  - destruct (settle_view w id None m) as (Hs & _).
    eapply metricsOk_frame; [exact Hok| |done|done|done|done].
    by rewrite Hs, alter_size.
  - destruct (settle_view w id (Some msg) m) as (Hs & _).
    eapply metricsOk_frame; [exact Hok| |done|done|done|done].
    by rewrite Hs, alter_size.
  - destruct (catchInLoop_view w msg id m) as (Hs & _).
    eapply metricsOk_frame; [exact Hok| |done|done|done|done].
    by rewrite Hs, alter_size.
  - (* updateSystemMetrics *)
    destruct Hok as (G1 & G2 & G3 & G4 & [G5 G5'] & G6). unfold metricsOk.
    cbn [fst snd svc onSvc]. cbv zeta.
    rewrite (updateSystemMetrics_rate id (svc m)).
    split_and!; try done; try apply rateOver_bounds.
    + cbn. rewrite jobValues_length. lia.
    + cbn [isProcessing updateSystemMetrics setSystemMetrics].
      cbn [fst] in G2. split; [done|]. intros _. by apply G2.
  - (* the sweep *)
    destruct Hok as (G1 & G2 & G3 & G4 & [G5 G5'] & G6). unfold metricsOk.
    cbn [fst snd]. split_and!; try done.
    + etrans; [apply map_subseteq_size, cleanupOldJobs_subseteq|done].
    + change (isProcessing (svc (cleanupOldJobs w m)))
        with (isProcessing (svc m)).
      cbn [fst] in G2. split; [done|]. intros _. by apply G2.
Qed.

Lemma reachable_metricsOk (w : World) (c : Worker * Machine) :
  reachable w c -> metricsOk c.
Proof.
  revert c. apply (rtc_ind_r (R := step w) metricsOk (Idle, initialMachine)).
  - apply metricsOk_initial.
  - intros y z _ Hstep Hy. by apply (step_metricsOk w y z).
Qed.

Lemma step_counters (w : World) (c c' : Worker * Machine) :
  step w c c' ->
  (concurrentProcessingCapability (systemMetrics (svc c.2))
   <= concurrentProcessingCapability (systemMetrics (svc c'.2)))%nat
  /\ (totalJobsProcessed (systemMetrics (svc c.2))
      <= totalJobsProcessed (systemMetrics (svc c'.2)))%nat.
Proof.
  intros Hstep. destruct Hstep; cbn [fst snd];
    try (cbn; lia);
    try (unfold processSingleReport, generateReport in H;
         injection H as _ <-; cbn; lia).
  unfold createJob. simpl. destruct (isProcessing (svc m)); simpl; lia.
Qed.

(** X1.  In every state the program can reach, each record has the shape
    its status calls for: a pending record has no start or completion
    time, no processing time, no result path and no error message; a
    processing record has a start time and no completion time; a completed
    record has both times, a processing time equal to their difference, at
    least one result path and no error message; a failed record has both
    times, a processing time, an error message and at least one result
    path.  Every record is stored under its own [jobId]. *)
Theorem records_keep_their_shape (w : World) (c : Worker * Machine)
    (id : string) (job : JobData) :
  (forall k k', randomUUID w k = randomUUID w k' -> k = k') ->
  reachable w c ->
  getJobStatus id (svc c.2) = Some job ->
  recordOk id job.
Proof.
  intros Hfresh Hreach Hj.
  destruct (reachable_shaped w Hfresh c Hreach) as (Hrec & _).
  by apply Hrec.
Qed.

Lemma records_keep_their_shape_witness :
  exists job,
    getJobStatus "fjob" (svc (drained brokenDirWorld [all])) = Some job
    /\ recordOk "fjob" job.
Proof.
  destruct (getJobStatus "fjob" (svc (drained brokenDirWorld [all])))
    as [job|] eqn:Hj; [|vm_compute in Hj; discriminate Hj].
  exists job. split; [reflexivity|].
  apply (records_keep_their_shape brokenDirWorld
           (Idle, drained brokenDirWorld [all]) "fjob" job unaryId_inj).
  - by apply drained_reachable.
  - exact Hj.
Defined.

(** X2.  In every reachable state, each identifier in the queue has a
    record, and that record is pending: the sweep never removes a queued
    job, so the loop always finds the job it takes from the queue. *)
Theorem queued_job_is_found (w : World) (c : Worker * Machine) (id : string) :
  (forall k k', randomUUID w k = randomUUID w k' -> k = k') ->
  reachable w c ->
  id ∈ jobQueue (svc c.2) ->
  exists job, getJobStatus id (svc c.2) = Some job /\ status job = pending.
Proof.
  intros Hfresh Hreach Hin.
  destruct (reachable_shaped w Hfresh c Hreach) as (_ & _ & Hqp).
  destruct (reachable_consistent w Hfresh c Hreach) as [(_ & _ & _ & H4) _].
  destruct (Hqp id Hin) as [job Hj]. exists job. split; [done|].
  apply (H4 id); [done|by apply statuses_of_job].
Qed.

Lemma queued_job_is_found_witness :
  exists job,
    getJobStatus "fffffjob"
      (svc (submitAll calmWorld [all; single fs] initialMachine)) = Some job
    /\ status job = pending.
Proof.
  apply (queued_job_is_found calmWorld
           (Idle, submitAll calmWorld [all; single fs] initialMachine)
           "fffffjob" unaryId_inj).
  - apply submitAll_steps.
  - vm_compute. right. left.
Defined.

(** X3.  [concurrentProcessingCapability] is a high-water mark: in every
    reachable state it is at least the number of records in the registry,
    and no step lowers it; no step lowers [totalJobsProcessed] either. *)
Theorem capability_is_high_water_mark (w : World) (c : Worker * Machine) :
  reachable w c ->
  (size (jobs (svc c.2))
   <= concurrentProcessingCapability (systemMetrics (svc c.2)))%nat
  /\ forall c', step w c c' ->
       (concurrentProcessingCapability (systemMetrics (svc c.2))
        <= concurrentProcessingCapability (systemMetrics (svc c'.2)))%nat
       /\ (totalJobsProcessed (systemMetrics (svc c.2))
           <= totalJobsProcessed (systemMetrics (svc c'.2)))%nat.
Proof.
  intros Hreach. split.
  - by destruct (reachable_metricsOk w c Hreach) as (? & _).
  - intros c'. apply step_counters.
Qed.

Lemma capability_is_high_water_mark_witness :
  (size (jobs (svc (drained calmWorld [single accounts; all])))
   <= concurrentProcessingCapability
        (systemMetrics (svc (drained calmWorld [single accounts; all]))))%nat.
Proof.
  generalize (capability_is_high_water_mark calmWorld
                (Idle, drained calmWorld [single accounts; all])
                (drained_reachable calmWorld [single accounts; all] ltac:(done))).
  cbn [fst snd]. intros [H _]. exact H.
Defined.

(** X4.  While the loop is running, a further scheduled [processQueue]
    callback returns at once: it changes nothing in the service.  The flag
    [isProcessing] is set exactly while the worker is in the loop, so at
    most one loop is ever active. *)
Theorem second_worker_never_starts (w : World) (p : Worker) (m : Machine) :
  reachable w (p, m) ->
  (isProcessing (svc m) = true <-> p <> Idle)
  /\ (p <> Idle -> runImmediate w m = takeImmediate m).
Proof.
  intros Hreach.
  destruct (reachable_metricsOk w (p, m) Hreach) as (_ & H2 & _).
  cbn [fst snd] in H2. split; [done|].
  intros Hp. apply H2 in Hp. unfold runImmediate, processQueue.
  cbn [svc takeImmediate]. by rewrite Hp.
Qed.

Lemma second_worker_never_starts_witness :
  let m1 := onSvc (setIsProcessing true)
              (takeImmediate
                 (submitAll calmWorld [single accounts; single fs]
                    initialMachine)) in
  let m2 := beginJob calmWorld "fjob" (onSvc (setJobQueue ["fffffjob"]) m1) in
  runImmediate calmWorld m2 = takeImmediate m2.
Proof.
  intros m1 m2.
  pose (job := newJob "fjob" (single accounts) (ofNat 3) 0).
  assert (reachable calmWorld (Awaiting "fjob" (reportsOf (type job)), m2))
    as Hreach; [|
    exact (proj2 (second_worker_never_starts calmWorld _ m2 Hreach)
             ltac:(discriminate))].
  apply rtc_trans with
    (Idle, submitAll calmWorld [single accounts; single fs] initialMachine);
    [apply submitAll_steps|].
  eapply rtc_l;
    [apply step_start; [vm_compute; lia|reflexivity|discriminate]|].
  apply rtc_once.
  apply (step_begin calmWorld m1 "fjob" ["fffffjob"] job);
    vm_compute; reflexivity.
Defined.

(** X5.  In every reachable state the comparison block of the metrics
    holds the fixed baseline of 10000 ms and the current average
    submission latency: [avgAsyncResponseTime] equals
    [averageResponseTime].  [memoryEfficiency] is never written: it stays
    0. *)
Theorem legacy_block_mirrors_average (w : World) (c : Worker * Machine) :
  reachable w c ->
  exists l,
    readLegacy (getSystemMetrics (svc c.2)) (svc c.2) = Some l
    /\ avgSyncResponseTime l = ofZ 10000
    /\ avgAsyncResponseTime l = averageResponseTime (systemMetrics (svc c.2))
    /\ memoryEfficiency (systemMetrics (svc c.2)) = 0.
Proof.
  intros Hreach.
  destruct (reachable_metricsOk w c Hreach)
    as (_ & _ & H3 & (l & Hl & Hs & Ha) & _ & H6).
  exists l. unfold readLegacy, getSystemMetrics. rewrite H3. done.
Qed.

Lemma legacy_block_mirrors_average_witness :
  exists l,
    readLegacy
      (getSystemMetrics (svc (drained calmWorld [single accounts; all])))
      (svc (drained calmWorld [single accounts; all])) = Some l
    /\ avgSyncResponseTime l = ofZ 10000
    /\ avgAsyncResponseTime l
       = averageResponseTime
           (systemMetrics (svc (drained calmWorld [single accounts; all])))
    /\ memoryEfficiency
         (systemMetrics (svc (drained calmWorld [single accounts; all]))) = 0.
Proof.
  generalize (legacy_block_mirrors_average calmWorld
                (Idle, drained calmWorld [single accounts; all])
                (drained_reachable calmWorld [single accounts; all]
                   ltac:(done))).
  cbn [fst snd]. exact (fun H => H).
Defined.

(** X6.  In every reachable state the reported success rate lies between
    0 and 100. *)
Theorem successRate_is_a_percentage (w : World) (c : Worker * Machine) :
  reachable w c ->
  0 <= successRate (systemMetrics (svc c.2))
  /\ successRate (systemMetrics (svc c.2)) <= ofZ 100.
Proof.
  intros Hreach.
  by destruct (reachable_metricsOk w c Hreach) as (_ & _ & _ & _ & ? & _).
Qed.

Lemma successRate_is_a_percentage_witness :
  0 <= successRate
         (systemMetrics
            (svc (drained yearlyBrokenWorld [single accounts; single yearly])))
  /\ successRate
       (systemMetrics
          (svc (drained yearlyBrokenWorld [single accounts; single yearly])))
     <= ofZ 100.
Proof.
  generalize (successRate_is_a_percentage yearlyBrokenWorld
                (Idle,
                 drained yearlyBrokenWorld [single accounts; single yearly])
                (drained_reachable yearlyBrokenWorld
                   [single accounts; single yearly] ltac:(done))).
  cbn [fst snd]. exact (fun H => H).
Defined.

(** ** The loop, run to its end *)

Lemma drain_settled (w : World) (fuel : nat) :
  forall m, settledOrQueued m -> settledOrQueued (drain w fuel m).
Proof.
  induction fuel as [|fuel IH]; intros m Hsq; cbn [drain]; [done|].
  destruct (jobQueue (svc m)) as [|id rest] eqn:Hq; [done|].
  apply IH. intros i x Hx. rewrite processNext_queue. cbn.
  apply processNext_lookup in Hx as [(-> & Ht & _)|(Hne & Hx)]; [by left|].
  destruct (Hsq i x Hx) as [Ht|Hin]; [by left|right].
  rewrite Hq in Hin. apply elem_of_cons in Hin as [->|Hin]; done.
Qed.

(** X7.  [processQueue] does nothing when a loop is already running.
    Otherwise it runs until the queue is empty and clears the flag; and if
    every record that was not terminal was queued, every record left in
    the registry is [completed] or [failed]. *)
Theorem processQueue_outcome (w : World) (m : Machine) :
  (isProcessing (svc m) = true -> processQueue w m = m)
  /\ (isProcessing (svc m) = false ->
      jobQueue (svc (processQueue w m)) = []
      /\ isProcessing (svc (processQueue w m)) = false
      /\ (settledOrQueued m ->
          forall id job,
            getJobStatus id (svc (processQueue w m)) = Some job ->
            status job = completed \/ status job = failed)).
Proof.
  unfold processQueue. split; [by intros ->|]. intros Hp. rewrite Hp.
  cbn [orb]. destruct (bool_decide (jobQueue (svc m) = [])) eqn:Hq.
  - apply bool_decide_eq_true in Hq. split_and!; [done|done|].
    intros Hsq id job Hj. apply isTerminal_status.
    destruct (Hsq id job Hj) as [?|Hin]; [done|].
    rewrite Hq in Hin. by apply elem_of_nil in Hin.
  - set (m1 := onSvc (setIsProcessing true) m).
    assert (jobQueue (svc (drain w (length (jobQueue (svc m))) m1)) = [])
      as Hempty by (by apply drain_queue_empty).
    split_and!; [done|done|].
    intros Hsq id job Hj. apply isTerminal_status.
    destruct (drain_settled w (length (jobQueue (svc m))) m1 Hsq id job Hj)
      as [?|Hin]; [done|].
    rewrite Hempty in Hin. by apply elem_of_nil in Hin.
Qed.

Lemma processQueue_outcome_witness :
  jobQueue
    (svc (processQueue brokenDirWorld
            (submitAll brokenDirWorld [single fs; all] initialMachine))) = []
  /\ processQueue calmWorld
       (onSvc (setIsProcessing true)
          (submitAll calmWorld [all] initialMachine))
     = onSvc (setIsProcessing true) (submitAll calmWorld [all] initialMachine).
Proof.
  split.
  - apply (processQueue_outcome brokenDirWorld
             (submitAll brokenDirWorld [single fs; all] initialMachine)).
    vm_compute; reflexivity.
  - apply (processQueue_outcome calmWorld
             (onSvc (setIsProcessing true)
                (submitAll calmWorld [all] initialMachine))).
    vm_compute; reflexivity.
Defined.

Lemma processNext_other (w : World) (id id' : string) (m : Machine)
    (j : JobData) :
  id' <> id -> jobs (svc m) !! id' = Some j ->
  completedAt (timestamps j) = None ->
  jobs (svc (processNext w id m)) !! id' = Some j.
Proof.
  intros Hne Hj Hc. destruct (jobs (svc m) !! id) as [j0|] eqn:Hj0.
  - rewrite processNext_present by eauto.
    destruct (tryProcessJob_spec w id m j0 Hj0) as (j' & Hjobs & _).
    rewrite cleanupOldJobs_lookup. cbn [svc onSvc].
    change (jobs (updateSystemMetrics id ?s)) with (jobs s).
    rewrite Hjobs, lookup_insert_ne, Hj by done.
    unfold expired. by rewrite Hc.
  - by rewrite processNext_absent.
Qed.

Lemma processNext_total (w : World) (id : string) (m : Machine) :
  is_Some (jobs (svc m) !! id) ->
  totalJobsProcessed (systemMetrics (svc (processNext w id m)))
  = S (totalJobsProcessed (systemMetrics (svc m))).
Proof.
  intros [j Hj]. rewrite processNext_present, cleanupOldJobs_metrics by eauto.
  destruct (tryProcessJob_spec w id m j Hj) as (_ & _ & _ & _ & _ & Hsm & _).
  cbn [svc onSvc]. unfold updateSystemMetrics. cbn. by rewrite Hsm.
Qed.

Lemma queueReady_next (w : World) (id : string) (rest : list string)
    (m : Machine) :
  queueReady m -> jobQueue (svc m) = id :: rest ->
  is_Some (jobs (svc m) !! id)
  /\ queueReady (processNext w id (onSvc (setJobQueue rest) m)).
Proof.
  intros [Hnd Hall] Hq. rewrite Hq in Hnd, Hall.
  apply NoDup_cons in Hnd as [Hnin Hnd]. split.
  - destruct (Hall id ltac:(left)) as (j & Hj & _). eauto.
  - split; rewrite processNext_queue; cbn; [done|].
    intros i Hi. destruct (Hall i ltac:(by right)) as (j & Hj & Hc & Hp).
    exists j. split; [|done].
    apply processNext_other; [by intros ->|done|done].
Qed.

Lemma drain_total (w : World) (fuel : nat) :
  forall m, queueReady m -> (length (jobQueue (svc m)) <= fuel)%nat ->
  totalJobsProcessed (systemMetrics (svc (drain w fuel m)))
  = (totalJobsProcessed (systemMetrics (svc m))
     + length (jobQueue (svc m)))%nat.
Proof.
  induction fuel as [|fuel IH]; intros m Hr Hlen; cbn [drain].
  - destruct (jobQueue (svc m)); cbn in *; lia.
  - destruct (jobQueue (svc m)) as [|id rest] eqn:Hq; [cbn; lia|].
    destruct (queueReady_next w id rest m Hr Hq) as [Hpres Hr'].
    rewrite IH; [|done|rewrite processNext_queue; cbn; cbn in Hlen; lia].
    rewrite processNext_total by done. rewrite processNext_queue. cbn. lia.
Qed.

Lemma createJob_total (w : World) (t : ReportType) (m : Machine) :
  totalJobsProcessed (systemMetrics (svc (createJob w t m).2))
  = totalJobsProcessed (systemMetrics (svc m)).
Proof. unfold createJob. simpl. by destruct (isProcessing (svc m)). Qed.

Lemma submitAll_total (w : World) (ts : list ReportType) :
  forall m, totalJobsProcessed (systemMetrics (svc (submitAll w ts m)))
            = totalJobsProcessed (systemMetrics (svc m)).
Proof.
  induction ts as [|t ts IH]; intros m; [done|].
  change (submitAll w (t :: ts) m) with (submitAll w ts (createJob w t m).2).
  by rewrite IH, createJob_total.
Qed.

Lemma reachable_queueReady (w : World) (p : Worker) (m : Machine) :
  (forall k k', randomUUID w k = randomUUID w k' -> k = k') ->
  reachable w (p, m) -> queueReady m.
Proof.
  intros Hfresh Hreach.
  destruct (reachable_shaped w Hfresh _ Hreach) as (Hrec & _ & Hqp).
  destruct (reachable_consistent w Hfresh _ Hreach)
    as [(_ & _ & Hnd & H4) _].
  cbn [fst snd] in *. split; [done|]. intros id Hin.
  destruct (Hqp id Hin) as [j Hj]. exists j. split; [done|].
  assert (status j = pending) as Hst
    by (by apply (H4 id), statuses_of_job).
  destruct (Hrec id j Hj) as (_ & Hpend). rewrite Hst in Hpend.
  by destruct Hpend as (_ & ? & ? & _).
Qed.

Lemma drained_total (w : World) (ts : list ReportType) :
  (forall k k', randomUUID w k = randomUUID w k' -> k = k') ->
  totalJobsProcessed (systemMetrics (svc (drained w ts))) = length ts.
Proof.
  intros Hfresh. destruct ts as [|t ts]; [done|].
  rewrite drained_unfold by done.
  set (m0 := submitAll w (t :: ts) initialMachine).
  set (m1 := onSvc (setIsProcessing true) (takeImmediate m0)).
  assert (queueReady m1) as Hr.
  { apply (reachable_queueReady w Idle m0 Hfresh). apply submitAll_steps. }
  destruct (submitted_submitAll w (t :: ts) 0 _ submitted_initial)
    as (_ & Hlen & _).
  fold m0 in Hlen. rewrite Nat.add_0_l in Hlen.
  assert (jobQueue (svc m1) = jobQueue (svc m0)) as Hq by done.
  assert (systemMetrics (svc m1) = systemMetrics (svc m0)) as Hsm by done.
  change (totalJobsProcessed
            (systemMetrics (svc (drain w (length (t :: ts)) m1))) =
          length (t :: ts)).
  rewrite drain_total; [|done|rewrite Hq, Hlen; lia].
  rewrite Hq, Hsm, Hlen. unfold m0. by rewrite submitAll_total.
Qed.



(** ** Pending jobs are queued, one job is processed at a time *)

Lemma accounted_initial : accounted (Idle, initialMachine).
Proof.
  intros id. split; intros H; unfold statuses in H; cbn in H;
    by rewrite fmap_empty, lookup_empty in H.
Qed.

Lemma accounted_alter (p p' : Worker) (m m' : Machine) (id : string)
    (x : JobStatus) :
  accounted (p, m) ->
  statuses m' = alter (fun _ => x) id (statuses m) ->
  jobQueue (svc m') = jobQueue (svc m) ->
  x <> pending ->
  (x = processing -> inFlight p' = Some id) ->
  (forall i, i <> id -> inFlight p = Some i -> inFlight p' = Some i) ->
  accounted (p', m').
Proof.
  intros Hacc Hs Hq Hx Hproc Hfl i. cbn [fst snd]. rewrite Hs, Hq.
  destruct (decide (i = id)) as [->|Hne].
  - rewrite lookup_alter_eq.
    destruct (statuses m !! id); cbn; split; intros E; simplify_eq;
      try done; auto.
  - rewrite lookup_alter_ne by done. destruct (Hacc i) as [H1 H2].
    split; [done|]. intros H. by apply Hfl, H2.
Qed.

Lemma accounted_same (p p' : Worker) (m m' : Machine) :
  accounted (p, m) ->
  (forall i x, statuses m' !! i = Some x -> statuses m !! i = Some x) ->
  jobQueue (svc m') = jobQueue (svc m) ->
  (forall i, inFlight p = Some i -> inFlight p' = Some i) ->
  accounted (p', m').
Proof.
  intros Hacc Hs Hq Hfl i. cbn [fst snd]. rewrite Hq.
  destruct (Hacc i) as [H1 H2].
  split; intros H; apply Hs in H; auto.
Qed.

Lemma step_accounted (w : World) (c c' : Worker * Machine) :
  step w c c' -> accounted c -> accounted c'.
Proof.
  intros Hstep. destruct Hstep; intros Hacc;
    try (by eapply accounted_same; [exact Hacc|..]).
  - (* a submission *)
    destruct (createJob_view w t m) as (Hs & Hq & _).
    intros i. cbn [fst snd]. rewrite Hs, Hq. destruct (Hacc i) as [H1 H2].
    destruct (decide (i = randomUUID w (S (tick m)))) as [->|Hne].
    + rewrite lookup_insert_eq. split; [|done]. intros _.
      apply elem_of_app. right. by left.
    + rewrite lookup_insert_ne by done. split; [|done]. intros H.
      apply elem_of_app. left. by apply H1.
  - (* an identifier without a record leaves the queue *)
    intros i. cbn [fst snd]. destruct (Hacc i) as [H1 H2].
    split; [|done]. intros Hi.
    change (statuses (onSvc (setJobQueue rest) m)) with (statuses m) in Hi.
    assert (i <> id) as Hne.
    { intros ->. unfold statuses in Hi. by rewrite lookup_fmap, H0 in Hi. }
    apply H1 in Hi. cbn [fst snd] in Hi. rewrite H in Hi.
    apply elem_of_cons in Hi as [?|?]; done.
  - (* the job leaves the queue and is started *)
    destruct (beginJob_view w id (onSvc (setJobQueue rest) m))
      as (Hs & Hq & _).
    intros i. cbn [fst snd]. rewrite Hs, Hq. destruct (Hacc i) as [H1 H2].
    change (statuses (onSvc (setJobQueue rest) m)) with (statuses m).
    cbn [fst snd inFlight] in *.
    destruct (decide (i = id)) as [->|Hne].
    + rewrite lookup_alter_eq.
      destruct (statuses m !! id); cbn; split; intros E; by simplify_eq.
    + rewrite lookup_alter_ne by done.
      split; [|intros Hi; by apply H2 in Hi]. intros Hi.
      apply H1 in Hi. rewrite H in Hi.
      apply elem_of_cons in Hi as [?|?]; done.
  - destruct (processSingleReport_view w k id m None m' H) as (Hs & Hq & _).
    eapply accounted_same; [exact Hacc|by rewrite Hs|done|done].
  - destruct (processSingleReport_view w k id m _ m' H) as (Hs & Hq & _).
    eapply accounted_same; [exact Hacc|by rewrite Hs|done|done].
  - destruct (settle_view w id None m) as (Hs & Hq & _).
    eapply accounted_alter; [exact Hacc|exact Hs|done|done|done|].
    intros i Hne [= ->]. done.
  - destruct (settle_view w id (Some msg) m) as (Hs & Hq & _).
    eapply accounted_alter; [exact Hacc|exact Hs|done|done|done|].
    intros i Hne [= ->]. done.
  - destruct (catchInLoop_view w msg id m) as (Hs & Hq & _).
    eapply accounted_alter; [exact Hacc|exact Hs|done|done|done|done].
  - destruct (cleanupOldJobs_view w m) as (Hs & Hq & _).
    eapply accounted_same; [exact Hacc|exact Hs|done|done].
Qed.

Lemma reachable_accounted (w : World) (c : Worker * Machine) :
  reachable w c -> accounted c.
Proof.
  revert c. apply (rtc_ind_r (R := step w) accounted (Idle, initialMachine)).
  - apply accounted_initial.
  - intros y z _ Hstep Hy. by apply (step_accounted w y z).
Qed.

Lemma short_when_all_equal {A : Type} (l : list A) :
  NoDup l -> (forall x y, x ∈ l -> y ∈ l -> x = y) -> (length l <= 1)%nat.
Proof.
  intros Hnd Heq. destruct l as [|a [|b l]]; cbn; [lia|lia|].
  apply NoDup_cons in Hnd as [Hnin _]. exfalso. apply Hnin.
  rewrite (Heq a b); [by left|by left|right; by left].
Qed.

(** The records of one status, with their keys. *)
Lemma group_keys (x : JobStatus) (l : list (string * JobData)) :
  NoDup l.*1 ->
  exists g, List.filter (hasStatus x) l.*2 = g.*2
            /\ NoDup g.*1
            /\ forall kv, kv ∈ g <-> kv ∈ l /\ status kv.2 = x.
Proof.
  induction l as [|[k j] l IH]; intros Hnd.
  - exists []. split_and!; [done|constructor|].
    intros kv. split; [by intros ?%elem_of_nil|by intros [?%elem_of_nil _]].
  - cbn in Hnd. apply NoDup_cons in Hnd as [Hnin Hnd].
    destruct (IH Hnd) as (g & Hg & Hgnd & Hgin). cbn.
    unfold hasStatus at 1. destruct (decide (status j = x)) as [E|E].
    + rewrite bool_decide_eq_true_2 by done. exists ((k, j) :: g).
      split_and!; [cbn; by rewrite Hg| |].
      * cbn. apply NoDup_cons. split; [|done]. intros Hk. apply Hnin.
        apply list_elem_of_fmap in Hk as (kv & -> & Hkv).
        apply Hgin in Hkv as [Hkv _].
        apply list_elem_of_fmap. by exists kv.
      * intros kv. rewrite !elem_of_cons, Hgin. split.
        -- intros [->|[? ?]]; [split; [by left|done]|split; [by right|done]].
        -- intros [[->|?] ?]; [by left|by right].
    + rewrite bool_decide_eq_false_2 by done. exists g.
      split_and!; [done|done|].
      intros kv. rewrite elem_of_cons, Hgin. split.
      * intros [? ?]. split; [by right|done].
      * intros [[->|?] ?]; [done|done].
Qed.

Lemma group_of_status (s : ReportsService) (x : JobStatus) :
  exists g, getAllJobs s x = g.*2
            /\ NoDup g.*1
            /\ forall id j, (id, j) ∈ g <-> jobs s !! id = Some j /\ status j = x.
Proof.
  destruct (group_keys x (map_to_list (jobs s))
              (NoDup_fst_map_to_list (jobs s))) as (g & Hg & Hnd & Hin).
  exists g. split_and!; [done|done|].
  intros id j. rewrite (Hin (id, j)). by rewrite elem_of_map_to_list.
Qed.

(** X9.  In every reachable state at most one job is in status
    [processing], and it is the job the loop is awaiting: [getAllJobs]
    never lists two jobs under [processing].  Identifiers drawn by
    [randomUUID()] are distinct. *)
Theorem one_job_at_a_time (w : World) (c : Worker * Machine) :
  (forall k k', randomUUID w k = randomUUID w k' -> k = k') ->
  reachable w c ->
  (length (getAllJobs (svc c.2) processing) <= 1)%nat
  /\ forall id job, getJobStatus id (svc c.2) = Some job ->
       status job = processing -> inFlight c.1 = Some id.
Proof.
  intros _ Hreach. assert (Hacc := reachable_accounted w c Hreach).
  assert (forall id job, getJobStatus id (svc c.2) = Some job ->
            status job = processing -> inFlight c.1 = Some id) as Hone.
  { intros id job Hj Hst. apply (Hacc id).
    unfold statuses. unfold getJobStatus in Hj.
    by rewrite lookup_fmap, Hj, <- Hst. }
  split; [|done].
  destruct (group_of_status (svc c.2) processing) as (g & -> & Hnd & Hin).
  rewrite length_fmap, <- (length_fmap fst). apply short_when_all_equal; [done|].
  intros i i' Hi Hi'.
  apply list_elem_of_fmap in Hi as ([k j] & -> & Hkj).
  apply list_elem_of_fmap in Hi' as ([k' j'] & -> & Hkj').
  apply Hin in Hkj as [Hj Hst]. apply Hin in Hkj' as [Hj' Hst'].
  cbn. apply (Hone k j Hj) in Hst. apply (Hone k' j' Hj') in Hst'.
  rewrite Hst in Hst'. by injection Hst'.
Qed.

Lemma one_job_at_a_time_witness :
  let m1 := onSvc (setIsProcessing true)
              (takeImmediate
                 (submitAll calmWorld [single accounts; single fs]
                    initialMachine)) in
  let m2 := beginJob calmWorld "fjob" (onSvc (setJobQueue ["fffffjob"]) m1) in
  (length (getAllJobs (svc m2) processing) <= 1)%nat.
Proof.
  intros m1 m2.
  pose (job := newJob "fjob" (single accounts) (ofNat 3) 0).
  assert (reachable calmWorld (Awaiting "fjob" (reportsOf (type job)), m2))
    as Hreach;
    [|exact (proj1 (one_job_at_a_time calmWorld _ unaryId_inj Hreach))].
  apply rtc_trans with
    (Idle, submitAll calmWorld [single accounts; single fs] initialMachine);
    [apply submitAll_steps|].
  eapply rtc_l;
    [apply step_start; [vm_compute; lia|reflexivity|discriminate]|].
  apply rtc_once.
  apply (step_begin calmWorld m1 "fjob" ["fffffjob"] job);
    vm_compute; reflexivity.
Defined.

(** X10.  In every reachable state a job is [pending] exactly when its
    identifier is in the queue, so the [pending] group of [getAllJobs] has
    as many entries as the queue.  Identifiers drawn by [randomUUID()] are
    distinct. *)
Theorem pending_jobs_are_the_queue (w : World) (c : Worker * Machine) :
  (forall k k', randomUUID w k = randomUUID w k' -> k = k') ->
  reachable w c ->
  (forall id job, getJobStatus id (svc c.2) = Some job ->
     (status job = pending <-> id ∈ jobQueue (svc c.2)))
  /\ length (getAllJobs (svc c.2) pending) = length (jobQueue (svc c.2)).
Proof.
  intros Hfresh Hreach.
  assert (Hacc := reachable_accounted w c Hreach).
  destruct (reachable_shaped w Hfresh c Hreach) as (_ & _ & Hqp).
  destruct (reachable_consistent w Hfresh c Hreach)
    as [(_ & _ & Hnd & H4) _].
  assert (forall id job, getJobStatus id (svc c.2) = Some job ->
            (status job = pending <-> id ∈ jobQueue (svc c.2))) as Hiff.
  { intros id job Hj. unfold getJobStatus in Hj. split.
    - intros Hst. apply (Hacc id). unfold statuses.
      by rewrite lookup_fmap, Hj, <- Hst.
    - intros Hin. by apply (H4 id), statuses_of_job. }
  split; [done|].
  destruct (group_of_status (svc c.2) pending) as (g & -> & Hgnd & Hin).
  rewrite length_fmap, <- (length_fmap fst). apply Permutation_length.
  apply NoDup_Permutation; [done|done|]. intros i. split.
  - intros Hi. apply list_elem_of_fmap in Hi as ([k j] & -> & Hkj).
    apply Hin in Hkj as [Hj Hst]. cbn. by apply (Hiff k j Hj).
  - intros Hi. destruct (Hqp i Hi) as [j Hj].
    apply list_elem_of_fmap. exists (i, j). split; [done|].
    apply Hin. split; [done|]. by apply (Hiff i j Hj).
Qed.

Lemma pending_jobs_are_the_queue_witness :
  length
    (getAllJobs
       (svc (submitAll calmWorld [all; single fs; single yearly]
               initialMachine)) pending)
  = length
      (jobQueue
         (svc (submitAll calmWorld [all; single fs; single yearly]
                 initialMachine))).
Proof.
  generalize (pending_jobs_are_the_queue calmWorld
                (Idle,
                 submitAll calmWorld [all; single fs; single yearly]
                   initialMachine)
                unaryId_inj
                (submitAll_steps calmWorld [all; single fs; single yearly]
                   Idle initialMachine)).
  cbn [fst snd]. exact (fun H => proj2 H).
Defined.

Lemma countStatus_total (l : list JobData) :
  (countStatus pending l + countStatus processing l
   + countStatus completed l + countStatus failed l)%nat = length l.
Proof.
  unfold countStatus, hasStatus.
  induction l as [|a l IH]; [done|]. simpl.
  destruct (status a); simpl; lia.
Qed.

(** X11.  [getAllJobs] sorts the records of the registry into four groups:
    a record is listed under its own status and nowhere else, and the
    sizes of the groups add up to the number of records. *)
Theorem getAllJobs_partitions_registry (s : ReportsService) :
  (forall x job, job ∈ getAllJobs s x
                 <-> (exists id, getJobStatus id s = Some job)
                     /\ status job = x)
  /\ (length (getAllJobs s pending) + length (getAllJobs s processing)
      + length (getAllJobs s completed) + length (getAllJobs s failed))%nat
     = size (jobs s).
Proof.
  split.
  - intros x job. unfold getAllJobs.
    rewrite list_elem_of_In, filter_In, <- list_elem_of_In, jobValues_elem.
    unfold hasStatus. by rewrite bool_decide_eq_true.
  - rewrite <- jobValues_length. apply countStatus_total.
Qed.

(** ** Reading the results of a completed job *)

Lemma setProp_elem (k v : string) (o : list (string * string)) :
  forall k' v', (k', v') ∈ setProp k v o ->
                (k' = k /\ v' = v) \/ (k', v') ∈ o.
Proof.
  induction o as [|[k0 v0] o IH]; intros k' v' H; cbn in H.
  - apply list_elem_of_singleton in H as [= -> ->]. by left.
  - destruct (decide (k = k0)) as [->|Hne].
    + apply elem_of_cons in H as [[= -> ->]|H]; [by left|].
      right. by right.
    + apply elem_of_cons in H as [[= -> ->]|H]; [right; by left|].
      apply IH in H as [?|?]; [by left|]. right. by right.
Qed.

Lemma setProp_keys (k v : string) (o : list (string * string)) :
  forall k', k' ∈ (setProp k v o).*1 <-> k' = k \/ k' ∈ o.*1.
Proof.
  induction o as [|[k0 v0] o IH]; intros k'; cbn.
  - rewrite list_elem_of_singleton. split; [by left|].
    by intros [?|?%elem_of_nil].
  - destruct (decide (k = k0)) as [->|Hne]; cbn; rewrite !elem_of_cons.
    + tauto.
    + rewrite IH. tauto.
Qed.

Lemma setProp_NoDup (k v : string) (o : list (string * string)) :
  NoDup o.*1 -> NoDup (setProp k v o).*1.
Proof.
  induction o as [|[k0 v0] o IH]; intros Hnd; cbn.
  - apply NoDup_singleton.
  - cbn in Hnd. apply NoDup_cons in Hnd as [Hnin Hnd].
    destruct (decide (k = k0)) as [->|Hne]; cbn; apply NoDup_cons.
    + done.
    + split; [|by apply IH]. rewrite setProp_keys. intros [?|?]; done.
Qed.

Lemma readResults_inl (w : World) (paths : list string) :
  forall acc results,
    readResults w paths acc = inl results ->
    (forall p, p ∈ paths -> exists content, readFileSync w p = inl content)
    /\ (NoDup acc.*1 -> NoDup results.*1)
    /\ (forall k, k ∈ results.*1 <-> k ∈ acc.*1 \/ k ∈ basename <$> paths)
    /\ (forall k v, (k, v) ∈ results ->
          (k, v) ∈ acc
          \/ exists p, p ∈ paths /\ basename p = k
                       /\ readFileSync w p = inl v).
Proof.
  induction paths as [|p paths IH]; intros acc results H; cbn in H.
  - injection H as <-. split_and!; [by intros p ?%elem_of_nil|done| |by left].
    intros k. cbn. split; [by left|]. by intros [?|?%elem_of_nil].
  - destruct (readFileSync w p) as [content|msg] eqn:Hp; [|done].
    destruct (IH _ _ H) as (H1 & H2 & H3 & H4). split_and!.
    + intros q [->|Hq]%elem_of_cons; [eauto|by apply H1].
    + intros Hnd. by apply H2, setProp_NoDup.
    + intros k. rewrite H3, setProp_keys. cbn. rewrite elem_of_cons. tauto.
    + intros k v Hkv. apply H4 in Hkv as [Hkv|(q & Hq & Hb & Hr)].
      * apply setProp_elem in Hkv as [[-> ->]|Hkv]; [|by left].
        right. exists p. split; [by left|done].
      * right. exists q. split; [by right|done].
Qed.

Lemma readResults_inr (w : World) (paths : list string) :
  forall acc msg,
    readResults w paths acc = inr msg ->
    exists p, p ∈ paths /\ readFileSync w p = inr msg.
Proof.
  induction paths as [|p paths IH]; intros acc msg H; cbn in H; [done|].
  destruct (readFileSync w p) as [content|msg'] eqn:Hp.
  - destruct (IH _ _ H) as (q & Hq & Hr). exists q. split; [by right|done].
  - injection H as <-. exists p. split; [by left|done].
Qed.

(** [getJobResult] on a completed record, in any state of the service. *)
Lemma getJobResult_completed_spec (w : World) (id : string)
    (s : ReportsService) (job : JobData) :
  getJobStatus id s = Some job -> status job = completed ->
  (success (getJobResult w id s) = true
   <-> forall p, p ∈ resultPaths job ->
                 exists content, readFileSync w p = inl content)
  /\ (forall d, data (getJobResult w id s) = Some d ->
        dataJobId d = jobId job /\ dataType d = type job
        /\ NoDup (dataResults d).*1
        /\ (forall k, k ∈ (dataResults d).*1
                      <-> k ∈ basename <$> resultPaths job)
        /\ forall k v, (k, v) ∈ dataResults d ->
             exists p, p ∈ resultPaths job /\ basename p = k
                       /\ readFileSync w p = inl v)
  /\ (success (getJobResult w id s) = false ->
      exists p msg,
        p ∈ resultPaths job /\ readFileSync w p = inr msg
        /\ error (getJobResult w id s)
           = Some ("Failed to read results: " ++ msg)).
Proof.
  unfold getJobStatus, getJobResult. intros -> Hst.
  destruct (decide (status job = completed)) as [_|?]; [|done].
  destruct (readResults w (resultPaths job) []) as [results|msg] eqn:Hr; cbn.
  - destruct (readResults_inl w _ _ _ Hr) as (H1 & H2 & H3 & H4).
    split_and!; [done| |done].
    intros d [= <-]. cbn. split_and!; [done|done|apply H2; constructor| |].
    + intros k. rewrite H3. cbn. split; [|by right].
      by intros [?%elem_of_nil|?].
    + intros k v Hkv. by destruct (H4 k v Hkv) as [?%elem_of_nil|?].
  - destruct (readResults_inr w _ _ _ Hr) as (p & Hp & Hmsg).
    split_and!; [|done|by eauto].
    split; [done|]. intros Hall. destruct (Hall p Hp) as [content Hc].
    by rewrite Hc in Hmsg.
Qed.

(** ** The times recorded on a failed job *)

Lemma shorter_interval (s c c' : num) : c < c' -> c - s < c' - s.
Proof.
  intros H. apply (proj2 (Qclt_minus_iff _ _)).
  replace (c' - s + - (c - s)) with (c' + - c) by ring.
  by apply (proj1 (Qclt_minus_iff _ _)).
Qed.

Lemma positive_interval (s c : num) : s < c -> 0 < c - s.
Proof. intros H. unfold Qcminus. by apply (proj1 (Qclt_minus_iff _ _)). Qed.

(** X12.  When a routine throws, the [finally] block of [processJob]
    measures [processingTime] up to its own clock reading, and the [catch]
    of the loop then stamps [timestamps.completed] again.  With a clock
    that advances between readings the recorded processing time of a
    failed job is positive and shorter than completed - started. *)
Theorem failed_job_processingTime_falls_short (w : World) (id : string)
    (m : Machine) (job job' : JobData) :
  (forall k k', (k < k')%nat -> now w k < now w k') ->
  getJobStatus id (svc m) = Some job ->
  getJobStatus id (svc (tryProcessJob w id m)) = Some job' ->
  status job' = failed ->
  exists s c p,
    started (timestamps job') = Some s
    /\ completedAt (timestamps job') = Some c
    /\ processingTime (metrics job') = Some p
    /\ 0 < p /\ p < c - s.
Proof.
  intros Hclock Hj Hj' Hst. unfold getJobStatus in *.
  unfold tryProcessJob in Hj'. revert Hj'. run_job.
  rewrite ?lookup_alter_eq, Hj. cbn.
  destruct (type job) as [k|]; run_job.
  - destruct (reportLogic w _ k _) eqn:E1; run_job;
      rewrite ?lookup_alter_eq, Hj; cbn; intros [= <-]; [|done]. cbn.
    do 3 eexists. split_and!; [done|done|done| |].
    + apply positive_interval, Hclock. lia.
    + apply shorter_interval, Hclock. lia.
  - destruct (reportLogic w _ accounts _) eqn:E1; run_job.
    { rewrite ?lookup_alter_eq, Hj; cbn; intros [= <-]. cbn.
      do 3 eexists. split_and!; [done|done|done| |].
      + apply positive_interval, Hclock. lia.
      + apply shorter_interval, Hclock. lia. }
    destruct (reportLogic w _ yearly _) eqn:E2; run_job.
    { rewrite ?lookup_alter_eq, Hj; cbn; intros [= <-]. cbn.
      do 3 eexists. split_and!; [done|done|done| |].
      + apply positive_interval, Hclock. lia.
      + apply shorter_interval, Hclock. lia. }
    destruct (reportLogic w _ fs _) eqn:E3; run_job;
      rewrite ?lookup_alter_eq, Hj; cbn; intros [= <-]; [|done]. cbn.
    do 3 eexists. split_and!; [done|done|done| |].
    + apply positive_interval, Hclock. lia.
    + apply shorter_interval, Hclock. lia.
Qed.

Lemma ofNat_lt (a b : nat) : (a < b)%nat -> ofNat a < ofNat b.
Proof. intros H. apply ofZ_lt. lia. Qed.

Lemma failed_job_processingTime_falls_short_witness :
  let m0 := (createJob brokenDirWorld (single fs) initialMachine).2 in
  exists job',
    getJobStatus "fjob" (svc (tryProcessJob brokenDirWorld "fjob" m0))
    = Some job'
    /\ exists s c p,
         started (timestamps job') = Some s
         /\ completedAt (timestamps job') = Some c
         /\ processingTime (metrics job') = Some p
         /\ 0 < p /\ p < c - s.
Proof.
  intros m0.
  assert (exists job',
            getJobStatus "fjob" (svc (tryProcessJob brokenDirWorld "fjob" m0))
            = Some job' /\ status job' = failed) as (job' & Hj' & Hst).
  { vm_compute. eexists. split; reflexivity. }
  exists job'. split; [done|].
  apply (failed_job_processingTime_falls_short brokenDirWorld "fjob" m0
           (newJob "fjob" (single fs) (ofNat 3) 0) job').
  - intros k k' Hk. apply ofNat_lt. lia.
  - vm_compute; reflexivity.
  - done.
  - done.
Defined.

(** ** The endpoints of the controller *)

(** X13.  The status endpoint answers `Job not found' for an identifier
    with no record.  Otherwise, in every reachable state, the response
    carries the asked identifier and the status of the record;
    [resultPaths] and [resultUrl] are present exactly for a completed job,
    and the paths are then not empty; [error] appears only on a failed
    job; a pending job has an empty message and no started or completed
    time; [processingTime] appears only on a completed or failed job.
    Identifiers drawn by [randomUUID()] are distinct. *)
Theorem status_endpoint_view (w : World) (toISOString : num -> string)
    (c : Worker * Machine) (id : string) :
  (forall k k', randomUUID w k = randomUUID w k' -> k = k') ->
  reachable w c ->
  match ReportsController.getJobStatus toISOString id (svc c.2) with
  | inl e =>
      e = BadRequestException "Job not found"
      /\ getJobStatus id (svc c.2) = None
  | inr r =>
      (exists job, getJobStatus id (svc c.2) = Some job
                   /\ rspStatus r = status job /\ rspType r = type job)
      /\ rspJobId r = id
      /\ (is_Some (rspResultPaths r) <-> rspStatus r = completed)
      /\ (is_Some (rspResultUrl r) <-> rspStatus r = completed)
      /\ (forall ps, rspResultPaths r = Some ps -> ps <> [])
      /\ (is_Some (rspError r) -> rspStatus r = failed)
      /\ (rspStatus r = pending ->
          rspMessage r = "" /\ dtoStarted (rspTimestamps r) = None
          /\ dtoCompleted (rspTimestamps r) = None)
      /\ (is_Some (rspProcessingTime r) ->
          rspStatus r = completed \/ rspStatus r = failed)
  end.
Proof.
  intros Hfresh Hreach.
  destruct (reachable_shaped w Hfresh c Hreach) as (Hrec & _ & _).
  unfold ReportsController.getJobStatus, getJobStatus.
  destruct (jobs (svc c.2) !! id) as [job|] eqn:Hj; [|done].
  destruct (Hrec id job Hj) as (Hid & Hshape). cbn.
  assert (forall (A : Type) (P : Prop), is_Some (@None A) -> P) as Hnone
    by (by intros A P [? ?]).
  destruct (status job) eqn:Hst; cbn.
  - destruct Hshape as (Hs & Hc & _). rewrite Hs, Hc. cbn.
    split_and!; try done; eauto; try (split; [apply Hnone|done]).
  - destruct Hshape as (_ & Hc & _). rewrite Hc. cbn.
    split_and!; try done; eauto; try (split; [apply Hnone|done]).
  - destruct Hshape as (_ & Hrp & _).
    split_and!; try done; eauto; try (split; [done|by eexists]).
    intros ps [= <-]. done.
  - split_and!; try done; eauto; try (split; [apply Hnone|done]).
Qed.

Lemma status_endpoint_view_witness :
  exists r,
    ReportsController.getJobStatus plainTime "fjob"
      (svc (drained calmWorld [single accounts])) = inr r
    /\ rspJobId r = "fjob" /\ rspStatus r = completed.
Proof.
  generalize (status_endpoint_view calmWorld plainTime
                (Idle, drained calmWorld [single accounts]) "fjob"
                unaryId_inj
                (drained_reachable calmWorld [single accounts] ltac:(done))).
  cbn [fst snd].
  destruct (ReportsController.getJobStatus plainTime "fjob"
              (svc (drained calmWorld [single accounts]))) as [e|r] eqn:E.
  - intros [_ H]. exfalso. vm_compute in H. discriminate.
  - intros (_ & Hid & Hrp & _). exists r. split; [done|]. split; [done|].
    apply Hrp. vm_compute in E. injection E as <-. by eexists.
Defined.

(** X14.  The result endpoint answers with a [BadRequestException] that
    carries the error of the service: `Job not found', the status of a job
    that is not completed, or the failure to read a result file; the
    default message of the exception is never used.  It succeeds only for
    a completed job, and then returns the data of the service under the
    asked identifier. *)
Theorem result_endpoint_outcomes (w : World) (id : string)
    (s : ReportsService) :
  match ReportsController.getJobResult w id s with
  | inl (BadRequestException msg) =>
      error (getJobResult w id s) = Some msg
      /\ (getJobStatus id s = None /\ msg = "Job not found"
          \/ exists job,
               getJobStatus id s = Some job
               /\ (status job <> completed
                   /\ msg = "Job status: " ++ statusName (status job)
                   \/ status job = completed
                      /\ exists p e,
                           p ∈ resultPaths job /\ readFileSync w p = inr e
                           /\ msg = "Failed to read results: " ++ e))
  | inr r =>
      rspSuccess r = true /\ rspResultJobId r = id
      /\ rspResultMessage r = "Report data retrieved successfully"
      /\ exists job d,
           getJobStatus id s = Some job /\ status job = completed
           /\ rspData r = Some d /\ dataJobId d = jobId job
           /\ dataType d = type job
  end.
Proof.
  unfold ReportsController.getJobResult, getJobResult, getJobStatus.
  destruct (jobs s !! id) as [job|] eqn:Hj; cbn; [|split; [done|by left]].
  destruct (decide (status job = completed)) as [Hst|Hst]; cbn.
  - destruct (readResults w (resultPaths job) []) as [results|e] eqn:Hr; cbn.
    + split_and!; try done. by do 2 eexists.
    + split; [done|]. right. exists job. split; [done|]. right.
      split; [done|].
      destruct (readResults_inr w _ _ _ Hr) as (p & Hp & He). eauto.
  - split; [done|]. right. exists job. split; [done|]. by left.
Qed.

Lemma existsb_validTypes_typeName (t : ReportType) :
  existsb (String.eqb (typeName t)) validTypes = true
  /\ asReportType (typeName t) = t /\ orAll (Some (typeName t)) = typeName t.
Proof. by destruct t as [[]|]. Qed.

(** X15.  A submission with one of the four kinds is accepted: the
    response names the kind that was asked and status `pending', its
    links end in the identifier of the new job, and the service then holds
    a pending record of that kind under the identifier, which is the last
    entry of the queue. *)
Theorem createReportJob_accepts_kind (w : World) (t : ReportType)
    (m : Machine) :
  exists dto m',
    createReportJob w (Some (typeName t)) m = (inr dto, m')
    /\ dtoType dto = typeName t /\ dtoStatus dto = "pending"
    /\ dtoStatusUrl dto = "/api/v1/reports/status/" ++ dtoJobId dto
    /\ dtoResultUrl dto = "/api/v1/reports/result/" ++ dtoJobId dto
    /\ (exists job,
          getJobStatus (dtoJobId dto) (svc m') = Some job
          /\ jobId job = dtoJobId dto /\ type job = t
          /\ status job = pending)
    /\ jobQueue (svc m') = (jobQueue (svc m) ++ [dtoJobId dto])%list.
Proof.
  destruct (existsb_validTypes_typeName t) as (Hv & Ha & Ho).
  unfold createReportJob. rewrite Ho, Hv, Ha. cbn [negb].
  destruct (createJob w t m) as [[id rt] m'] eqn:E.
  assert (id = (createJob w t m).1.1) as Hid by (by rewrite E).
  assert (m' = (createJob w t m).2) as Hm by (by rewrite E).
  rewrite createJob_id in Hid.
  do 2 eexists. split; [reflexivity|]. cbn.
  split_and!; try done.
  - exists (newJob id t (now w (S (S (tick m)))) (length (jobQueue (svc m)))).
    unfold getJobStatus. rewrite Hm, createJob_jobs, <- Hid.
    by rewrite lookup_insert_eq.
  - by rewrite Hm, createJob_queue, Hid.
Qed.

(** ** The legacy reports *)

Lemma legacyReport_outcome (w : World) (k : ConcreteType)
    (st : LegacyStates) (m : Machine) :
  svc (legacyReport w k (st, m)).2.2 = svc m
  /\ (forall k', k' <> k ->
        state k' (legacyReport w k (st, m)).2.1 = state k' st)
  /\ match (legacyReport w k (st, m)).1 with
     | Some msg =>
         reportLogic w (S (tick m)) k (legacyFile k) = Some msg
         /\ state k (legacyReport w k (st, m)).2.1 = "starting"
     | None =>
         reportLogic w (S (tick m)) k (legacyFile k) = None
         /\ exists d,
              state k (legacyReport w k (st, m)).2.1 = "finished in " ++ d
     end.
Proof.
  unfold legacyReport, performanceNow. cbn.
  destruct (reportLogic w (S (tick m)) k (legacyFile k)) eqn:E; cbn.
  - split_and!; [done| |done|by destruct k].
    intros k' Hne. by destruct k, k'.
  - split_and!; [done| |done|destruct k; by eexists].
    intros k' Hne. by destruct k, k'.
Qed.

(** X16.  [generateLegacy] runs the three legacy reports in the order
    accounts, yearly, fs, and never touches the job registry, the queue
    or the metrics.  When all return it answers `finished' and every
    scope reads `finished in ...'.  When one throws, the error passes to
    the caller: the scope that threw is left at `starting', the scopes
    before it read `finished in ...', and the scopes after it are as they
    were. *)
Theorem generateLegacy_outcome (w : World) (st : LegacyStates)
    (m : Machine) :
  let r := ReportsController.generateLegacy w (st, m) in
  svc r.2.2 = svc m
  /\ match r.1 with
     | inr msg =>
         msg = "finished"
         /\ forall k, exists d, state k r.2.1 = "finished in " ++ d
     | inl err =>
         exists before k after,
           [accounts; yearly; fs] = (before ++ k :: after)%list
           /\ (forall k', k' ∈ before ->
                 exists d, state k' r.2.1 = "finished in " ++ d)
           /\ state k r.2.1 = "starting"
           /\ (forall k', k' ∈ after -> state k' r.2.1 = state k' st)
     end.
Proof.
  unfold ReportsController.generateLegacy.
  destruct (legacyReport_outcome w accounts st m) as (Hs1 & Ho1 & Hr1).
  destruct (legacyReport w accounts (st, m)) as [[msg1|] [st1 m1]];
    cbn [fst snd] in *.
  { split; [done|]. exists [], accounts, [yearly; fs].
    split_and!; [done|by intros ? ?%elem_of_nil|by destruct Hr1|].
    intros k' Hk'. apply Ho1. intros ->.
    rewrite !elem_of_cons, elem_of_nil in Hk'. by destruct Hk' as [?|[?|?]]. }
  destruct (legacyReport_outcome w yearly st1 m1) as (Hs2 & Ho2 & Hr2).
  destruct (legacyReport w yearly (st1, m1)) as [[msg2|] [st2 m2]];
    cbn [fst snd] in *.
  { split; [congruence|]. exists [accounts], yearly, [fs].
    destruct Hr1 as (_ & d1 & Hd1).
    split_and!; [done| |by destruct Hr2|].
    - intros k' ->%list_elem_of_singleton. exists d1.
      by rewrite Ho2.
    - intros k' ->%list_elem_of_singleton. by rewrite Ho2, Ho1. }
  destruct (legacyReport_outcome w fs st2 m2) as (Hs3 & Ho3 & Hr3).
  destruct (legacyReport w fs (st2, m2)) as [[msg3|] [st3 m3]];
    cbn [fst snd] in *.
  { split; [congruence|]. exists [accounts; yearly], fs, [].
    destruct Hr1 as (_ & d1 & Hd1). destruct Hr2 as (_ & d2 & Hd2).
    split_and!; [done| |by destruct Hr3|by intros ? ?%elem_of_nil].
    intros k' Hk'. apply elem_of_cons in Hk' as [->|Hk'].
    - exists d1. by rewrite Ho3, Ho2.
    - apply list_elem_of_singleton in Hk' as ->. exists d2. by rewrite Ho3. }
  split; [congruence|]. split; [done|].
  destruct Hr1 as (_ & d1 & Hd1). destruct Hr2 as (_ & d2 & Hd2).
  destruct Hr3 as (_ & d3 & Hd3).
  intros [| |]; [exists d1|exists d2|exists d3]; [|by rewrite Ho3|done].
  by rewrite Ho3, Ho2.
Qed.

(** ** The running mean of the processing times *)

Lemma sum_Permutation (l l' : list num) : l ≡ₚ l' -> sum l = sum l'.
Proof.
  induction 1 as [|x l l' _ IH|x y l|l l' l'' _ IH1 _ IH2]; cbn.
  - done.
  - by rewrite IH.
  - ring.
  - by rewrite IH1.
Qed.

Lemma sumTimes_replace (js : gmap string JobData) (id : string)
    (j j' : JobData) :
  js !! id = Some j ->
  sumTimes (map_to_list (<[id := j']> js)).*2 + jobTime j
  = sumTimes (map_to_list js).*2 + jobTime j'.
Proof.
  intros Hj. unfold sumTimes.
  rewrite <- (insert_delete_eq js id j').
  rewrite (sum_Permutation
             (jobTime <$> (map_to_list (<[id:=j']> (delete id js))).*2)
             (jobTime <$> ((id, j') :: map_to_list (delete id js)).*2)).
  2: { do 2 apply fmap_Permutation. apply map_to_list_insert.
       apply lookup_delete_eq. }
  rewrite (sum_Permutation
             (jobTime <$> (map_to_list js).*2)
             (jobTime <$> ((id, j) :: map_to_list (delete id js)).*2)).
  2: { do 2 apply fmap_Permutation. symmetry.
       by apply map_to_list_delete. }
  cbn. ring.
Qed.

Lemma sumTimes_untimed (l : list JobData) :
  (forall j, j ∈ l -> processingTime (metrics j) = None) -> sumTimes l = 0.
Proof.
  unfold sumTimes. induction l as [|a l IH]; intros H; [done|]. cbn.
  rewrite IH by (intros j Hj; apply H; by right).
  unfold jobTime. rewrite (H a) by (by left). cbn. ring.
Qed.

(** [try { processJob } catch] leaves a positive processing time on the
    record when the clock advances. *)
Lemma tryProcessJob_processingTime (w : World) (id : string) (m : Machine)
    (job : JobData) :
  (forall k k', (k < k')%nat -> now w k < now w k') ->
  jobs (svc m) !! id = Some job ->
  exists job' p,
    jobs (svc (tryProcessJob w id m)) = <[id := job']> (jobs (svc m))
    /\ processingTime (metrics job') = Some p /\ 0 < p.
Proof.
  intros Hclock Hj. unfold tryProcessJob. run_job.
  rewrite ?lookup_alter_eq, Hj. cbn.
  destruct (type job) as [k|]; run_job.
  - destruct (reportLogic w _ k _) eqn:E1; run_job;
      (do 2 eexists; split; [same_entry Hj|]; cbn; split; [reflexivity|];
       apply positive_interval, Hclock; lia).
  - destruct (reportLogic w _ accounts _) eqn:E1; run_job;
      [do 2 eexists; split; [same_entry Hj|]; cbn; split; [reflexivity|];
       apply positive_interval, Hclock; lia|].
    destruct (reportLogic w _ yearly _) eqn:E2; run_job;
      [do 2 eexists; split; [same_entry Hj|]; cbn; split; [reflexivity|];
       apply positive_interval, Hclock; lia|].
    destruct (reportLogic w _ fs _) eqn:E3; run_job;
      (do 2 eexists; split; [same_entry Hj|]; cbn; split; [reflexivity|];
       apply positive_interval, Hclock; lia).
Qed.

Lemma ofNat_S (n : nat) : ofNat (S n) = ofNat n + 1.
Proof.
  unfold ofNat, ofZ. apply Qc_is_canon. cbn [this Q2Qc Qcplus].
  rewrite !Qred_correct. rewrite Nat2Z.inj_succ. unfold Z.succ.
  rewrite inject_Z_plus. reflexivity.
Qed.

Lemma processNext_meanSoFar (w : World) (id : string) (m : Machine)
    (job : JobData) :
  (forall k k', (k < k')%nat -> now w k < now w k') ->
  jobs (svc m) !! id = Some job ->
  processingTime (metrics job) = None ->
  size (jobs (svc (processNext w id m))) = size (jobs (svc m)) ->
  meanSoFar m -> meanSoFar (processNext w id m).
Proof.
  intros Hclock Hj Hnone Hsize Hmean.
  rewrite processNext_present in * by eauto.
  destruct (tryProcessJob_processingTime w id m job Hclock Hj)
    as (job' & p & Hjobs & Hp & Hpos).
  destruct (tryProcessJob_spec w id m job Hj)
    as (_ & _ & _ & _ & _ & Hsm & _).
  set (m1 := tryProcessJob w id m) in *.
  set (m2 := onSvc (updateSystemMetrics id) m1) in *.
  assert (jobs (svc m2) = jobs (svc m1)) as Hj2 by done.
  assert (jobs (svc (cleanupOldJobs w m2)) = jobs (svc m2)) as Hkeep.
  { apply map_subseteq_size_eq; [apply cleanupOldJobs_subseteq|].
    rewrite Hsize, Hj2, Hjobs, map_size_insert_Some by eauto. done. }
  unfold meanSoFar, jobValues in *.
  rewrite cleanupOldJobs_metrics, Hkeep, Hj2, Hjobs.
  assert (Hsum := sumTimes_replace (jobs (svc m)) id job job' Hj).
  unfold jobTime at 1 2 in Hsum. rewrite Hnone, Hp in Hsum. cbn in Hsum.
  assert (truthy p = true) as Ht.
  { apply truthy_true. intros E. by apply Qclt_not_eq in Hpos. }
  unfold m2. cbn [svc onSvc]. unfold updateSystemMetrics.
  cbn [systemMetrics setSystemMetrics averageProcessingTime
       totalJobsProcessed].
  rewrite Hjobs, lookup_insert_eq. cbn [mbind option_bind]. rewrite Hp, Ht.
  rewrite Hsm.
  set (n := totalJobsProcessed (systemMetrics (svc m))) in *.
  set (a := averageProcessingTime (systemMetrics (svc m))) in *.
  assert (ofNat (S n) <> 0) as Hn by (by apply ofNat_ne_0).
  replace (sumTimes (map_to_list (<[id:=job']> (jobs (svc m)))).*2)
    with (sumTimes (map_to_list (jobs (svc m))).*2 + p)
    by (rewrite <- Hsum; ring).
  rewrite <- Hmean. rewrite (ofNat_S n) in *. field. done.
Qed.

Lemma drain_size (w : World) (fuel : nat) :
  forall m, (size (jobs (svc (drain w fuel m))) <= size (jobs (svc m)))%nat.
Proof.
  induction fuel as [|fuel IH]; intros m; cbn [drain]; [done|].
  destruct (jobQueue (svc m)) as [|id rest]; [done|].
  etrans; [apply IH|].
  apply (processNext_size w id (onSvc (setJobQueue rest) m)).
Qed.

Lemma drain_meanSoFar (w : World) (fuel : nat) :
  (forall k k', (k < k')%nat -> now w k < now w k') ->
  forall m,
    queueReady m -> meanSoFar m ->
    size (jobs (svc (drain w fuel m))) = size (jobs (svc m)) ->
    meanSoFar (drain w fuel m).
Proof.
  intros Hclock. induction fuel as [|fuel IH]; intros m Hr Hmean Hsize;
    cbn [drain] in *; [done|].
  destruct (jobQueue (svc m)) as [|id rest] eqn:Hq; [done|].
  destruct (queueReady_next w id rest m Hr Hq) as [_ Hr'].
  destruct Hr as [_ Hall]. rewrite Hq in Hall.
  destruct (Hall id ltac:(left)) as (job & Hj & _ & Hnone).
  set (m1 := onSvc (setJobQueue rest) m) in *.
  assert (size (jobs (svc (processNext w id m1))) = size (jobs (svc m1)))
    as Hstep.
  { apply Nat.le_antisymm; [apply processNext_size|].
    change (jobs (svc m1)) with (jobs (svc m)). rewrite <- Hsize.
    apply drain_size. }
  apply IH; [done| |].
  - by apply (processNext_meanSoFar w id m1 job).
  - rewrite Hstep. exact Hsize.
Qed.

Lemma createJob_averageProcessingTime (w : World) (t : ReportType)
    (m : Machine) :
  averageProcessingTime (systemMetrics (svc (createJob w t m).2))
  = averageProcessingTime (systemMetrics (svc m)).
Proof. unfold createJob. simpl. by destruct (isProcessing (svc m)). Qed.

Lemma submitAll_untimed (w : World) (ts : list ReportType) :
  forall m,
    averageProcessingTime (systemMetrics (svc m)) = 0 ->
    (forall id j, jobs (svc m) !! id = Some j ->
                  processingTime (metrics j) = None) ->
    averageProcessingTime (systemMetrics (svc (submitAll w ts m))) = 0
    /\ forall id j, jobs (svc (submitAll w ts m)) !! id = Some j ->
                    processingTime (metrics j) = None.
Proof.
  induction ts as [|t ts IH]; intros m Ha Hall; [done|].
  change (submitAll w (t :: ts) m) with (submitAll w ts (createJob w t m).2).
  apply IH; [by rewrite createJob_averageProcessingTime|].
  intros id j. rewrite createJob_jobs.
  destruct (decide (id = randomUUID w (S (tick m)))) as [->|Hne].
  - rewrite lookup_insert_eq. by intros [= <-].
  - rewrite lookup_insert_ne by done. apply Hall.
Qed.

(** X17.  When a batch of jobs is submitted to a fresh service and the
    loop runs to its end without the sweep removing a record,
    [averageProcessingTime] is the mean of the processing times recorded
    on the jobs.  The clock advances between readings and identifiers
    drawn by [randomUUID()] are distinct. *)
Theorem averageProcessingTime_is_mean (w : World) (ts : list ReportType) :
  (forall k k', randomUUID w k = randomUUID w k' -> k = k') ->
  (forall k k', (k < k')%nat -> now w k < now w k') ->
  ts <> [] ->
  size (jobs (svc (drained w ts))) = length ts ->
  averageProcessingTime (systemMetrics (svc (drained w ts)))
  = sumTimes (jobValues (svc (drained w ts))) / ofNat (length ts).
Proof.
  intros Hfresh Hclock Hne Hsize.
  assert (Htotal := drained_total w ts Hfresh).
  rewrite drained_unfold in * by done.
  set (m0 := submitAll w ts initialMachine) in *.
  set (m1 := onSvc (setIsProcessing true) (takeImmediate m0)) in *.
  assert (queueReady m1) as Hr.
  { apply (reachable_queueReady w Idle m0 Hfresh). apply submitAll_steps. }
  destruct (submitAll_untimed w ts initialMachine) as [Ha Hall];
    [done|by intros id j ?|]. fold m0 in Ha, Hall.
  destruct (submitted_submitAll w ts 0 _ submitted_initial)
    as (_ & Hlen & Hsz & _).
  fold m0 in Hlen, Hsz. rewrite Nat.add_0_l in Hlen, Hsz.
  assert (meanSoFar m1) as Hmean.
  { unfold meanSoFar.
    change (systemMetrics (svc m1)) with (systemMetrics (svc m0)).
    change (jobValues (svc m1)) with (jobValues (svc m0)).
    rewrite Ha, sumTimes_untimed; [ring|].
    intros j Hj. apply jobValues_elem in Hj as [id Hj]. by apply (Hall id j). }
  assert (size (jobs (svc (drain w (length ts) m1))) = size (jobs (svc m1)))
    as Hkeep.
  { apply Nat.le_antisymm; [apply drain_size|].
    change (jobs (svc m1)) with (jobs (svc m0)).
    change (size (jobs (svc (drain w (length ts) m1))) = length ts) in Hsize.
    lia. }
  assert (Hfinal := drain_meanSoFar w (length ts) Hclock m1 Hr Hmean Hkeep).
  unfold meanSoFar in Hfinal.
  change (averageProcessingTime
            (systemMetrics (svc (drain w (length ts) m1)))
          = sumTimes (jobValues (svc (drain w (length ts) m1)))
            / ofNat (length ts)).
  change (totalJobsProcessed
            (systemMetrics (svc (drain w (length ts) m1))) = length ts)
    in Htotal.
  rewrite Htotal in Hfinal. rewrite <- Hfinal. field.
  apply ofNat_ne_0. by destruct ts.
Qed.

Lemma averageProcessingTime_is_mean_witness :
  averageProcessingTime
    (systemMetrics
       (svc (drained yearlyBrokenWorld [single accounts; single yearly])))
  = sumTimes
      (jobValues
         (svc (drained yearlyBrokenWorld [single accounts; single yearly])))
    / ofNat 2.
Proof.
  apply (averageProcessingTime_is_mean yearlyBrokenWorld
           [single accounts; single yearly]).
  - exact unaryId_inj.
  - intros k k' Hk. apply ofNat_lt. lia.
  - discriminate.
  - vm_compute; reflexivity.
Defined.

(** ** The improvement shown in the comparison block *)







(** ** No job is left waiting *)

Lemma scheduled_initial : scheduled initialMachine.
Proof. by intros H. Qed.

Lemma step_scheduled (w : World) (c c' : Worker * Machine) :
  step w c c' -> metricsOk c -> scheduled c.2 -> scheduled c'.2.
Proof.
  intros Hstep Hok Hsch.
  assert (Hok' := step_metricsOk w c c' Hstep Hok).
  destruct Hok' as (_ & Hflag & _).
  destruct Hstep; cbn [fst snd] in *;
    try (intros _; left; by apply Hflag).
  - (* a submission *)
    intros _. rewrite createJob_isProcessing.
    destruct (isProcessing (svc m)) eqn:Hp; [by left|right].
    rewrite createJob_immediates by done. lia.
  - (* a callback that returns at once *)
    intros Hq. destruct H0 as [Hp|He]; [by left|done].
  - (* the loop ends *)
    intros Hq. done.
Qed.

Lemma reachable_scheduled (w : World) (c : Worker * Machine) :
  reachable w c -> scheduled c.2.
Proof.
  intros Hreach.
  cut (metricsOk c /\ scheduled c.2); [by intros [_ ?]|].
  revert c Hreach.
  apply (rtc_ind_r (R := step w) (fun c => metricsOk c /\ scheduled c.2)
           (Idle, initialMachine)).
  - split; [apply metricsOk_initial|apply scheduled_initial].
  - intros y z _ Hstep [Hm Hs]. split.
    + by apply (step_metricsOk w y z).
    + by apply (step_scheduled w y z).
Qed.

Lemma queued_or_running (w : World) (p : Worker) (m : Machine) :
  reachable w (p, m) -> jobQueue (svc m) <> [] ->
  p <> Idle
  \/ step w (p, m) (AtLoop, onSvc (setIsProcessing true) (takeImmediate m)).
Proof.
  intros Hreach Hq.
  destruct (reachable_metricsOk w _ Hreach) as (_ & Hflag & _).
  destruct (reachable_scheduled w _ Hreach Hq) as [Hp|Him];
    cbn [fst snd] in *; [left; by apply Hflag|].
  destruct p; try (by left). right.
  apply step_start; [done| |done].
  destruct (isProcessing (svc m)); [|done]. by destruct (proj1 Hflag).
Qed.

(** X19.  In every reachable state a non-empty queue is being served or
    about to be: the loop is running ([isProcessing] is set), or a
    [processQueue] callback is scheduled, and then the idle worker can
    start the loop. *)
Theorem queued_jobs_are_not_stranded (w : World) (p : Worker)
    (m : Machine) :
  reachable w (p, m) -> jobQueue (svc m) <> [] ->
  isProcessing (svc m) = true
  \/ ((0 < immediates m)%nat
      /\ step w (p, m)
           (AtLoop, onSvc (setIsProcessing true) (takeImmediate m))).
Proof.
  intros Hreach Hq.
  destruct (reachable_metricsOk w _ Hreach) as (_ & Hflag & _).
  destruct (reachable_scheduled w _ Hreach Hq) as [Hp|Him]; [by left|].
  cbn [fst snd] in *.
  destruct (isProcessing (svc m)) eqn:Hp; [by left|right].
  split; [done|].
  assert (p = Idle) as ->.
  { destruct p; try done;
      by assert (false = true) by (by apply Hflag). }
  by apply step_start.
Qed.

Lemma queued_jobs_are_not_stranded_witness :
  (0 < immediates (submitAll calmWorld [all; single fs] initialMachine))%nat.
Proof.
  assert (jobQueue
            (svc (submitAll calmWorld [all; single fs] initialMachine))
          <> []) as Hq by (vm_compute; discriminate).
  destruct (queued_jobs_are_not_stranded calmWorld Idle
              (submitAll calmWorld [all; single fs] initialMachine)
              (submitAll_steps calmWorld [all; single fs] Idle initialMachine)
              Hq)
    as [Hp|[Him _]].
  - vm_compute in Hp. discriminate.
  - exact Him.
Defined.

(** The worker, from any point of the loop body, comes back to the head of
    the loop. *)
Lemma back_to_loop (w : World) (p : Worker) (m : Machine) :
  p <> Idle -> exists m', rtc (step w) (p, m) (AtLoop, m').
Proof.
  assert (forall id m, exists m', rtc (step w) (Finished id, m) (AtLoop, m'))
    as Hfin.
  { intros id m0. eexists.
    eapply rtc_l; [apply step_metrics|].
    apply rtc_once. apply step_sweep. }
  assert (forall id msg m,
            exists m', rtc (step w) (Rejected id msg, m) (AtLoop, m'))
    as Hrej.
  { intros id msg m0.
    destruct (Hfin id (catchInLoop w msg id (settle w id (Some msg, m0)).2))
      as [m' Hm'].
    exists m'. eapply rtc_l; [apply step_fail|].
    eapply rtc_l; [apply step_catch|]. exact Hm'. }
  intros Hp. destruct p as [| |id todo|id msg|id msg|id|]; [done|..].
  - by eexists.
  - assert (Hrun := runList_steps w id todo m).
    destruct (runList w todo id m) as [[msg|] m1]; cbn [fst snd] in Hrun.
    + destruct (Hrej id msg m1) as [m' Hm']. exists m'.
      by eapply rtc_trans.
    + destruct (Hfin id (settle w id (None, m1)).2) as [m' Hm'].
      exists m'. eapply rtc_trans; [exact Hrun|].
      eapply rtc_l; [apply step_complete|]. exact Hm'.
  - apply Hrej.
  - destruct (Hfin id (catchInLoop w msg id m)) as [m' Hm'].
    exists m'. eapply rtc_l; [apply step_catch|]. exact Hm'.
  - apply Hfin.
  - eexists. apply rtc_once. apply step_sweep.
Qed.

Lemma loop_runs_out (w : World) (m : Machine) :
  exists m', rtc (step w) (AtLoop, m) (Idle, m')
             /\ jobQueue (svc m') = [].
Proof.
  eexists. split.
  - eapply rtc_trans; [apply (drain_steps w (length (jobQueue (svc m))))|].
    apply rtc_once. apply step_exit. by apply drain_queue_empty.
  - cbn. by apply drain_queue_empty.
Qed.

(** X20.  From every reachable state the service can run to rest without
    further submissions: the worker finishes the job it is on, takes the
    queue to its end and goes idle.  At rest the queue is empty,
    [isProcessing] is cleared and every job in the registry is completed
    or failed.  Identifiers drawn by [randomUUID()] are distinct. *)
Theorem service_comes_to_rest (w : World) (p : Worker) (m : Machine) :
  (forall k k', randomUUID w k = randomUUID w k' -> k = k') ->
  reachable w (p, m) ->
  exists m',
    rtc (step w) (p, m) (Idle, m')
    /\ jobQueue (svc m') = []
    /\ isProcessing (svc m') = false
    /\ forall id job,
         getJobStatus id (svc m') = Some job ->
         status job = completed \/ status job = failed.
Proof.
  intros _ Hreach.
  assert (exists m', rtc (step w) (p, m) (Idle, m')
                     /\ jobQueue (svc m') = []) as (m' & Hrun & Hq).
  { destruct (decide (jobQueue (svc m) = [])) as [He|Hne].
    - destruct p; try (by exists m);
        match goal with
        | |- exists _, rtc _ (?p, _) _ /\ _ =>
            destruct (back_to_loop w p m ltac:(done)) as [m1 H1];
            destruct (loop_runs_out w m1) as (m2 & H2 & Hq2);
            exists m2; split; [by eapply rtc_trans|done]
        end.
    - destruct (queued_or_running w p m Hreach Hne) as [Hloop|Hstart].
      + destruct (back_to_loop w p m Hloop) as [m1 H1].
        destruct (loop_runs_out w m1) as (m2 & H2 & Hq2).
        exists m2. split; [by eapply rtc_trans|done].
      + destruct (loop_runs_out w
                    (onSvc (setIsProcessing true) (takeImmediate m)))
          as (m2 & H2 & Hq2).
        exists m2. split; [by eapply rtc_l|done]. }
  exists m'. split; [done|]. split; [done|].
  assert (reachable w (Idle, m')) as Hreach'
    by (by eapply rtc_trans; [exact Hreach|]).
  destruct (reachable_metricsOk w _ Hreach') as (_ & Hflag & _).
  assert (Hacc := reachable_accounted w _ Hreach').
  cbn [fst snd] in *. split.
  - destruct (isProcessing (svc m')); [|done].
    by destruct (proj1 Hflag).
  - intros id job Hj. unfold getJobStatus in Hj.
    destruct (Hacc id) as [Hpend Hproc]. cbn [fst snd inFlight] in *.
    assert (statuses m' !! id = Some (status job)) as Hs
      by (by apply statuses_of_job).
    destruct (status job); [| |by left|by right].
    + apply Hpend in Hs. rewrite Hq in Hs. by apply elem_of_nil in Hs.
    + by apply Hproc in Hs.
Qed.

Lemma service_comes_to_rest_witness :
  exists m',
    rtc (step calmWorld)
      (Idle, submitAll calmWorld [all; single fs] initialMachine) (Idle, m')
    /\ jobQueue (svc m') = [].
Proof.
  destruct (service_comes_to_rest calmWorld Idle
              (submitAll calmWorld [all; single fs] initialMachine)
              unaryId_inj
              (submitAll_steps calmWorld [all; single fs] Idle initialMachine))
    as (m' & Hrun & Hq & _).
  by exists m'.
Defined.

(** ** The result paths of a job, in every reachable state *)

Lemma pathsOk_initial : pathsOk (Idle, initialMachine).
Proof.
  split; [|done]. intros id j H. cbn in H. by rewrite lookup_empty in H.
Qed.

(** Reading the record of [id] itself after writes through the reference. *)
Ltac own_record Hx Hj :=
  cbn [fst snd svc onJob onSvc bump jobs setJobs setJobQueue tick logCall
       generated Nat.add] in Hx;
  rewrite ?lookup_alter_eq, ?Hj in Hx; cbn in Hx; injection Hx as <-.

Section Paths.

Variable w : World.

Hypothesis uuid_fresh : forall k k', randomUUID w k = randomUUID w k' -> k = k'.

Lemma step_pathsOk (c c' : Worker * Machine) :
  step w c c' -> consistent w c -> shaped c -> pathsOk c -> pathsOk c'.
Proof.
  intros Hstep.
  destruct Hstep; intros [Hw Hp] (Hrec & Hwr & Hqp) [Hpaths Hwk];
    unfold pathsOk; cbn [fst snd] in *.
  - (* a submission *)
    assert (Hfresh := not_yet_issued w uuid_fresh (tick m)).
    set (id0 := randomUUID w (S (tick m))) in *.
    rewrite createJob_jobs. fold id0. split.
    + intros i x Hx. destruct (decide (i = id0)) as [->|Hne].
      * rewrite lookup_insert_eq in Hx. injection Hx as <-. cbn.
        eexists. split; [reflexivity|done].
      * rewrite lookup_insert_ne in Hx by done. by apply Hpaths.
    + destruct p; try done. intros j Hj.
      destruct Hp as (_ & Hiss & _).
      rewrite lookup_insert_ne in Hj; [by apply Hwk|].
      intros <-. by apply Hfresh.
  - done.
  - by destruct p.
  - done.
  - done.
  - (* the job leaves the queue and is started *)
    destruct Hw as (_ & _ & Hnd & H4). rewrite H in Hnd, H4.
    assert (status job = pending) as Hst.
    { apply (H4 id); [by left|by apply statuses_of_job]. }
    destruct (Hrec id job H0) as (Hid & Hpend). rewrite Hst in Hpend.
    destruct Hpend as (_ & _ & _ & Hrp & _).
    destruct (Hpaths id job H0) as (more & Hmore & _).
    split.
    + intros i x Hx. unfold beginJob, performanceNow, processMemoryUsage in Hx.
      open_record Hx i id H0; [|by apply Hpaths].
      cbn. exists more. split; [done|done].
    + intros j Hj. unfold beginJob, performanceNow, processMemoryUsage in Hj.
      own_record Hj H0. cbn. by rewrite Hrp.
  - (* a routine returns *)
    destruct Hwr as (j & Hj & _). destruct Hp as (_ & _ & Hx).
    assert (status j = processing) as Hst
      by (by apply Hx, statuses_of_job).
    unfold processSingleReport, generateReport in H. injection H as _ <-.
    assert (Hfull := Hwk j Hj). cbn in Hfull.
    split.
    + intros i x Hx'. open_record Hx' i id Hj; [|by apply Hpaths].
      cbn. exists ((fun k => outputFile k id) <$> todo).
      split; [by rewrite <- app_assoc|]. by rewrite Hst.
    + intros j' Hj'. own_record Hj' Hj.
      cbn. by rewrite <- app_assoc.
  - (* a routine throws *)
    destruct Hwr as (j & Hj & _). destruct Hp as (_ & _ & Hx).
    assert (status j = processing) as Hst
      by (by apply Hx, statuses_of_job).
    unfold processSingleReport, generateReport in H. injection H as _ <-.
    assert (Hfull := Hwk j Hj). cbn in Hfull.
    split; [|done].
    intros i x Hx'. open_record Hx' i id Hj; [|by apply Hpaths].
    cbn. exists ((fun k => outputFile k id) <$> todo).
    split; [by rewrite <- app_assoc|]. by rewrite Hst.
  - (* all routines returned *)
    destruct Hwr as (j & Hj & _).
    assert (Hfull := Hwk j Hj). cbn in Hfull.
    split; [|done].
    intros i x Hx'. unfold settle, finallyBlock, performanceNow,
      processMemoryUsage in Hx'.
    open_record Hx' i id Hj; [|by apply Hpaths].
    cbn. exists []. done.
  - (* the catch of processJob and its finally block *)
    destruct Hwr as (j & Hj & _).
    destruct (Hpaths id j Hj) as (more & Hmore & _).
    split; [|done].
    intros i x Hx'. unfold settle, finallyBlock, performanceNow,
      processMemoryUsage in Hx'.
    open_record Hx' i id Hj; [|by apply Hpaths].
    cbn. exists more. done.
  - (* the catch of the loop *)
    destruct Hwr as (j & Hj & _).
    destruct (Hpaths id j Hj) as (more & Hmore & _).
    split; [|done].
    intros i x Hx'. unfold catchInLoop, performanceNow in Hx'.
    open_record Hx' i id Hj; [|by apply Hpaths].
    cbn. exists more. done.
  - done.
  - (* the sweep *)
    split; [|done]. intros i x Hx. rewrite cleanupOldJobs_lookup in Hx.
    destruct (jobs (svc m) !! i) as [j|] eqn:Hj; [|done].
    destruct (expired _ j); [done|]. injection Hx as <-. by apply Hpaths.
Qed.

Lemma reachable_pathsOk (c : Worker * Machine) : reachable w c -> pathsOk c.
Proof.
  intros Hreach.
  cut ((consistent w c /\ shaped c) /\ pathsOk c); [by intros [_ ?]|].
  revert c Hreach.
  apply (rtc_ind_r (R := step w)
           (fun c => (consistent w c /\ shaped c) /\ pathsOk c)
           (Idle, initialMachine)).
  - split_and!;
      [apply consistent_initial|apply shaped_initial|apply pathsOk_initial].
  - intros y z _ Hstep [[Hc Hs] Hp]. split_and!.
    + by apply (step_consistent w uuid_fresh y z).
    + by apply (step_shaped w uuid_fresh y z).
    + by apply (step_pathsOk y z).
Qed.

End Paths.

(** X21.  In every reachable state the result paths of a job are the
    output files of the routines called for it so far, in the order
    accounts, yearly, fs for a job of kind [all]: they are a prefix of the
    files its kind calls for, and a completed job has exactly one path per
    routine of its kind, with the file name built from the first eight
    characters of its identifier.  Identifiers drawn by [randomUUID()]
    are distinct. *)
Theorem resultPaths_follow_kind (w : World) (c : Worker * Machine)
    (id : string) (job : JobData) :
  (forall k k', randomUUID w k = randomUUID w k' -> k = k') ->
  reachable w c ->
  getJobStatus id (svc c.2) = Some job ->
  resultPaths job `prefix_of` expectedPaths id (type job)
  /\ (status job = completed ->
      resultPaths job = expectedPaths id (type job)
      /\ length (resultPaths job) = length (reportsOf (type job))).
Proof.
  intros Hfresh Hreach Hj.
  destruct (reachable_pathsOk w Hfresh c Hreach) as [Hpaths _].
  destruct (Hpaths id job Hj) as (rest & Hrest & Hdone).
  split; [by exists rest|].
  intros Hst. rewrite (Hdone Hst), app_nil_r in Hrest.
  split; [done|]. rewrite Hrest. unfold expectedPaths. by rewrite length_fmap.
Qed.

Lemma resultPaths_follow_kind_witness :
  exists job,
    getJobStatus "fffffjob" (svc (drained calmWorld [single fs; all]))
    = Some job
    /\ resultPaths job
       = ["out/accounts_fffffjob.csv"; "out/yearly_fffffjob.csv";
          "out/fs_fffffjob.csv"].
Proof.
  assert (exists job,
            getJobStatus "fffffjob" (svc (drained calmWorld [single fs; all]))
            = Some job
            /\ status job = completed /\ type job = all)
    as (job & Hj & Hst & Hty).
  { vm_compute. eexists. split_and!; reflexivity. }
  exists job. split; [done|].
  destruct (resultPaths_follow_kind calmWorld
              (Idle, drained calmWorld [single fs; all]) "fffffjob" job
              unaryId_inj
              (drained_reachable calmWorld [single fs; all] ltac:(done)) Hj)
    as [_ Hdone].
  destruct (Hdone Hst) as [-> _]. by rewrite Hty.
Defined.

(** ** The clock readings on a record, in every reachable state *)

Lemma stamped_mono (w : World) (T T' : nat) (j : JobData) :
  stamped w T j -> (T <= T')%nat -> stamped w T' j.
Proof.
  intros (kc & Hkc & Hc & H) Hle. exists kc. split; [lia|]. split; [done|].
  destruct (started (timestamps j)) as [s|]; [|done].
  destruct H as (ks & Hks & Hs & H). exists ks. split; [lia|]. split; [done|].
  destruct (completedAt (timestamps j)) as [c|]; [|done].
  destruct H as (kf & ke & ? & ? & ? & ?). exists kf, ke.
  split_and!; [lia|lia|lia|done|done].
Qed.

Lemma allStamped_initial (w : World) : allStamped w initialMachine.
Proof. intros id j H. cbn in H. by rewrite lookup_empty in H. Qed.

Section Stamps.

Variable w : World.

Hypothesis uuid_fresh : forall k k', randomUUID w k = randomUUID w k' -> k = k'.

Lemma step_allStamped (c c' : Worker * Machine) :
  step w c c' -> consistent w c -> shaped c ->
  allStamped w c.2 -> allStamped w c'.2.
Proof.
  intros Hstep.
  assert (Htick := step_tick w c c' Hstep).
  destruct Hstep; intros [Hw Hp] (Hrec & Hwr & Hqp) Hall;
    unfold allStamped in *; cbn [fst snd] in *;
    try (intros i x Hx; apply (stamped_mono w (tick m));
         [by eapply Hall|done]).
  - (* a submission *)
    intros i x. rewrite createJob_jobs, createJob_tick.
    destruct (decide (i = randomUUID w (S (tick m)))) as [->|Hne].
    + rewrite lookup_insert_eq. intros [= <-].
      exists (S (S (tick m))). cbn. split; [lia|done].
    + rewrite lookup_insert_ne by done. intros Hx.
      apply (stamped_mono w (tick m)); [by eapply Hall|lia].
  - (* the job leaves the queue and is started *)
    destruct Hw as (_ & _ & Hnd & H4). rewrite H in Hnd, H4.
    assert (status job = pending) as Hst.
    { apply (H4 id); [by left|by apply statuses_of_job]. }
    destruct (Hrec id job H0) as (Hid & Hpend). rewrite Hst in Hpend.
    destruct Hpend as (Hs & Hc & Hpt & _).
    destruct (Hall id job H0) as (kc & Hkc & Hcr & _).
    intros i x Hx. unfold beginJob, performanceNow, processMemoryUsage in Hx.
    open_record Hx i id H0;
      [|apply (stamped_mono w (tick m)); [by eapply Hall|done]].
    exists kc. cbn in *. split; [lia|]. split; [done|].
    exists (tick m). rewrite Hc. split; [lia|done].
  - (* a routine returns *)
    destruct Hwr as (j & Hj & _).
    unfold processSingleReport, generateReport in H. injection H as _ <-.
    intros i x Hx. open_record Hx i id Hj;
      [|apply (stamped_mono w (tick m)); [by eapply Hall|done]].
    apply (stamped_mono w (tick m)); [|done].
    destruct (Hall id j Hj) as (kc & Hkc & Hcr & Hrest).
    exists kc. done.
  - (* a routine throws *)
    destruct Hwr as (j & Hj & _).
    unfold processSingleReport, generateReport in H. injection H as _ <-.
    intros i x Hx. open_record Hx i id Hj;
      [|apply (stamped_mono w (tick m)); [by eapply Hall|done]].
    apply (stamped_mono w (tick m)); [|done].
    destruct (Hall id j Hj) as (kc & Hkc & Hcr & Hrest).
    exists kc. done.
  - (* all routines returned *)
    destruct Hwr as (j & Hj & _). destruct Hp as (_ & _ & Hx).
    assert (status j = processing) as Hst
      by (by apply Hx, statuses_of_job).
    destruct (Hrec id j Hj) as (Hid & Hproc). rewrite Hst in Hproc.
    destruct Hproc as ([s Hs] & _).
    destruct (Hall id j Hj) as (kc & Hkc & Hcr & Hrest). rewrite Hs in Hrest.
    destruct Hrest as (ks & Hks & -> & _).
    intros i x Hx'. unfold settle, finallyBlock, performanceNow,
      processMemoryUsage in Hx'.
    open_record Hx' i id Hj;
      [|apply (stamped_mono w (tick m)); [by eapply Hall|done]].
    exists kc. cbn in *. split; [lia|]. split; [done|]. rewrite Hs.
    exists ks. split; [lia|]. split; [done|].
    exists (tick m), (tick m). split_and!; [lia|lia|lia|done|done].
  - (* the catch of processJob and its finally block *)
    destruct Hwr as (j & Hj & _). destruct Hp as (_ & _ & Hx).
    assert (status j = processing) as Hst
      by (by apply Hx, statuses_of_job).
    destruct (Hrec id j Hj) as (Hid & Hproc). rewrite Hst in Hproc.
    destruct Hproc as ([s Hs] & _).
    destruct (Hall id j Hj) as (kc & Hkc & Hcr & Hrest). rewrite Hs in Hrest.
    destruct Hrest as (ks & Hks & -> & _).
    intros i x Hx'. unfold settle, finallyBlock, performanceNow,
      processMemoryUsage in Hx'.
    open_record Hx' i id Hj;
      [|apply (stamped_mono w (tick m)); [by eapply Hall|done]].
    exists kc. cbn in *. split; [lia|]. split; [done|]. rewrite Hs.
    exists ks. split; [lia|]. split; [done|].
    exists (tick m), (tick m). split_and!; [lia|lia|lia|done|done].
  - (* the catch of the loop *)
    destruct Hwr as (j & Hj & _). destruct Hp as (_ & _ & Hx).
    assert (status j = failed) as Hst
      by (by apply Hx, statuses_of_job).
    destruct (Hrec id j Hj) as (Hid & Hfail). rewrite Hst in Hfail.
    destruct Hfail as ([s Hs] & [c0 Hc0] & _).
    destruct (Hall id j Hj) as (kc & Hkc & Hcr & Hrest).
    rewrite Hs, Hc0 in Hrest.
    destruct Hrest as (ks & Hks & -> & kf & ke & Hkf & Hke & -> & Hpt).
    intros i x Hx'. unfold catchInLoop, performanceNow in Hx'.
    open_record Hx' i id Hj;
      [|apply (stamped_mono w (tick m)); [by eapply Hall|done]].
    exists kc. cbn in *. split; [lia|]. split; [done|]. rewrite Hs.
    exists ks. split; [lia|]. split; [done|].
    exists kf, (tick m). split_and!; [lia|lia|lia|done|done].
  - (* the sweep *)
    intros i x Hx. rewrite cleanupOldJobs_lookup in Hx.
    destruct (jobs (svc m) !! i) as [j|] eqn:Hj; [|done].
    destruct (expired _ j); [done|]. injection Hx as <-.
    apply (stamped_mono w (tick m)); [by eapply Hall|done].
Qed.

Lemma reachable_allStamped (c : Worker * Machine) :
  reachable w c -> allStamped w c.2.
Proof.
  intros Hreach.
  cut ((consistent w c /\ shaped c) /\ allStamped w c.2); [by intros [_ ?]|].
  revert c Hreach.
  apply (rtc_ind_r (R := step w)
           (fun c => (consistent w c /\ shaped c) /\ allStamped w c.2)
           (Idle, initialMachine)).
  - split_and!;
      [apply consistent_initial|apply shaped_initial|apply allStamped_initial].
  - intros y z _ Hstep [[Hc Hs] Hp]. split_and!.
    + by apply (step_consistent w uuid_fresh y z).
    + by apply (step_shaped w uuid_fresh y z).
    + by apply (step_allStamped y z).
Qed.

End Stamps.

Lemma interval_le (s c c' : num) : c <= c' -> c - s <= c' - s.
Proof.
  intros H. apply (proj2 (Qcle_minus_iff _ _)).
  replace (c' - s + - (c - s)) with (c' + - c) by ring.
  by apply (proj1 (Qcle_minus_iff _ _)).
Qed.

Lemma interval_nonneg (s c : num) : s <= c -> 0 <= c - s.
Proof. intros H. unfold Qcminus. by apply (proj1 (Qcle_minus_iff _ _)). Qed.

(** X22.  With a clock that never goes back, the times on a job are in
    order in every reachable state: created is not after started, started
    is not after completed, and a recorded processing time is not
    negative and not longer than completed - started.  Identifiers drawn
    by [randomUUID()] are distinct. *)
Theorem timestamps_are_ordered (w : World) (c : Worker * Machine)
    (id : string) (job : JobData) :
  (forall k k', randomUUID w k = randomUUID w k' -> k = k') ->
  (forall k k', (k <= k')%nat -> now w k <= now w k') ->
  reachable w c ->
  getJobStatus id (svc c.2) = Some job ->
  (forall s, started (timestamps job) = Some s ->
             created (timestamps job) <= s)
  /\ (forall s e, started (timestamps job) = Some s ->
                  completedAt (timestamps job) = Some e -> s <= e)
  /\ (forall p, processingTime (metrics job) = Some p ->
        0 <= p
        /\ exists s e, started (timestamps job) = Some s
                       /\ completedAt (timestamps job) = Some e
                       /\ p <= e - s).
Proof.
  intros Hfresh Hclock Hreach Hj.
  destruct (reachable_allStamped w Hfresh c Hreach id job Hj)
    as (kc & Hkc & Hcr & Hrest).
  destruct (started (timestamps job)) as [s|].
  - destruct Hrest as (ks & Hks & -> & Hrest).
    destruct (completedAt (timestamps job)) as [e|].
    + destruct Hrest as (kf & ke & Hkf & Hke & -> & Hpt).
      split_and!.
      * intros s [= <-]. rewrite Hcr. apply Hclock. lia.
      * intros s e [= <-] [= <-]. apply Hclock. lia.
      * intros p Hp. rewrite Hpt in Hp. injection Hp as <-. split.
        -- apply interval_nonneg, Hclock. lia.
        -- do 2 eexists. split_and!; [done|done|].
           apply interval_le, Hclock. lia.
    + split_and!.
      * intros s [= <-]. rewrite Hcr. apply Hclock. lia.
      * done.
      * intros p Hp. by rewrite Hrest in Hp.
  - destruct Hrest as [Hc Hpt]. split_and!; [done|done|].
    intros p Hp. by rewrite Hpt in Hp.
Qed.

Lemma ofNat_le (a b : nat) : (a <= b)%nat -> ofNat a <= ofNat b.
Proof. intros H. apply ofZ_le. lia. Qed.

Lemma timestamps_are_ordered_witness :
  exists job,
    getJobStatus "fjob"
      (svc (drained yearlyBrokenWorld [single yearly; all])) = Some job
    /\ exists p s e,
         processingTime (metrics job) = Some p
         /\ started (timestamps job) = Some s
         /\ completedAt (timestamps job) = Some e
         /\ 0 <= p /\ p <= e - s.
Proof.
  assert (exists job p,
            getJobStatus "fjob"
              (svc (drained yearlyBrokenWorld [single yearly; all]))
            = Some job
            /\ processingTime (metrics job) = Some p)
    as (job & p & Hj & Hp).
  { vm_compute. do 2 eexists. split; reflexivity. }
  exists job. split; [done|].
  destruct (timestamps_are_ordered yearlyBrokenWorld
              (Idle, drained yearlyBrokenWorld [single yearly; all])
              "fjob" job unaryId_inj) as (_ & _ & Hpt).
  - intros k k' Hk. apply ofNat_le. lia.
  - by apply drained_reachable.
  - exact Hj.
  - destruct (Hpt p Hp) as (Hpos & s & e & Hs & He & Hle).
    exists p, s, e. by split_and!.
Defined.

(** ** The result of a completed job *)

(** X23.  In every reachable state [getJobResult] on a completed job
    succeeds exactly when every output file of the routines of its kind
    can be read.  The data then carries the asked identifier and the kind
    of the job, and the results have one entry per file name, holding the
    content of the output file of that name; otherwise the error is
    `Failed to read results: ' followed by the message thrown for one of
    the files.  Identifiers drawn by [randomUUID()] are distinct. *)
Theorem completed_job_results (w : World) (c : Worker * Machine)
    (id : string) (job : JobData) :
  (forall k k', randomUUID w k = randomUUID w k' -> k = k') ->
  reachable w c ->
  getJobStatus id (svc c.2) = Some job -> status job = completed ->
  (success (getJobResult w id (svc c.2)) = true
   <-> forall p, p ∈ expectedPaths id (type job) ->
                 exists content, readFileSync w p = inl content)
  /\ (forall d, data (getJobResult w id (svc c.2)) = Some d ->
        dataJobId d = id /\ dataType d = type job
        /\ NoDup (dataResults d).*1
        /\ (forall k, k ∈ (dataResults d).*1
                      <-> k ∈ basename <$> expectedPaths id (type job))
        /\ forall k v, (k, v) ∈ dataResults d ->
             exists p, p ∈ expectedPaths id (type job) /\ basename p = k
                       /\ readFileSync w p = inl v)
  /\ (success (getJobResult w id (svc c.2)) = false ->
      exists p msg,
        p ∈ expectedPaths id (type job) /\ readFileSync w p = inr msg
        /\ error (getJobResult w id (svc c.2))
           = Some ("Failed to read results: " ++ msg)).
Proof.
  intros Hfresh Hreach Hj Hst.
  destruct (reachable_pathsOk w Hfresh c Hreach) as [Hpaths _].
  destruct (reachable_shaped w Hfresh c Hreach) as (Hrec & _).
  destruct (Hpaths id job Hj) as (rest & Hrest & Hdone).
  rewrite (Hdone Hst), app_nil_r in Hrest.
  destruct (Hrec id job Hj) as [Hid _].
  assert (H := getJobResult_completed_spec w id (svc c.2) job Hj Hst).
  rewrite Hrest, Hid in H. exact H.
Qed.

Lemma completed_job_results_witness :
  exists d,
    data (getJobResult calmWorld "fjob"
            (svc (drained calmWorld [single accounts]))) = Some d
    /\ dataJobId d = "fjob"
    /\ forall k, k ∈ (dataResults d).*1
                 <-> k ∈ basename <$> expectedPaths "fjob" (single accounts).
Proof.
  assert (exists job d,
            getJobStatus "fjob" (svc (drained calmWorld [single accounts]))
            = Some job
            /\ status job = completed /\ type job = single accounts
            /\ data (getJobResult calmWorld "fjob"
                       (svc (drained calmWorld [single accounts]))) = Some d)
    as (job & d & Hj & Hst & Hty & Hd).
  { vm_compute. do 2 eexists. split_and!; reflexivity. }
  exists d. split; [done|].
  destruct (completed_job_results calmWorld
              (Idle, drained calmWorld [single accounts]) "fjob" job
              unaryId_inj
              (drained_reachable calmWorld [single accounts] ltac:(done))
              Hj Hst) as (_ & Hdata & _).
  destruct (Hdata d Hd) as (Hid & _ & _ & Hkeys & _).
  split; [done|]. by rewrite <- Hty.
Defined.
